(** * Sanctuary Sprint: the simulation loop of [src/app/page.tsx]

    The page keeps its simulation in React refs (plain mutable cells) and a
    small piece of React state, [ui].  The handlers [reset], [spawnWave],
    [onHoldStart], [onHoldEnd], the prologue of the main effect and the
    per-frame [tick] are embedded here as functions on a record [World] of
    those cells, the storage and the queue of pending [setUi] updaters.

    Numbers.  JavaScript numbers are modelled as exact rationals [Q]; the
    integer counters (score, streak, hits, near misses, wave ids) as [Z].
    [Math.max]/[Math.min] are [Qmax]/[Qmin], [Math.floor] is [Qfloor].
    [Math.sin], [Math.pow], [Number] and [String] are not rational
    functions: they are taken from a [Host] interface, and every theorem
    holds for every host.  [Math.random] and the clocks are inputs.

    React.  [setUi] queues a functional updater; the next render applies the
    queue.  [tick] and [onHoldStart] read [ui.status] from the closure of the
    last render, that is from the committed [ui].  The main effect is
    declared with the dependencies [[ui.status]], so a render that commits a
    new status runs the effect again from its first line. *)

From Stdlib Require Import QArith Qminmax Qround Lqa Lia ZArith List String Bool.
From Stdlib Require Import DecimalString DecimalZ.
Import ListNotations.
Open Scope Q_scope.

(** ** Numbers *)

(** [function clamp(n, a, b) { return Math.max(a, Math.min(b, n)); }] *)
Definition clamp (n a b : Q) : Q := Qmax a (Qmin b n).

(** Strict comparison [x < y] as a boolean. *)
Definition Qltb (x y : Q) : bool := negb (Qle_bool y x).

(** The result of [Number(s)]: a finite number, [NaN] or an infinity. *)
Inductive jsnum : Type :=
| Fin (q : Q)
| NaN
| PosInf
| NegInf.

Definition isFinite (n : jsnum) : bool :=
  match n with Fin _ => true | _ => false end.

(** The rational held by a finite number. *)
Definition finite_part (n : jsnum) : Q :=
  match n with Fin q => q | _ => 0 end.

(** The host functions the page calls. *)
Class Host : Type := {
  Math_sin : Q -> Q;
  Math_pow : Q -> Q -> Q;
  JS_Number : string -> jsnum;
  JS_String : Q -> string
}.

(** ** Data *)

(** [type Wave = { id; y; gapX; gapW; speed }] *)
Record Wave : Type := mkWave {
  id : Z;
  y : Q;
  gapX : Q;
  gapW : Q;
  speed : Q
}.

Inductive Status : Type := READY | LIVE | DOWN.

Definition Status_eqb (a b : Status) : bool :=
  match a, b with
  | READY, READY | LIVE, LIVE | DOWN, DOWN => true
  | _, _ => false
  end.

(** The refs of the component, one field per [useRef] cell. *)
Record Refs : Type := mkRefs {
  lastRef : Q;
  t0Ref : Q;
  pxRef : Q;
  velRef : Q;
  dashRef : Q;
  chargeRef : Q;
  aliveRef : bool;
  wavesRef : list Wave;
  waveIdRef : Z;
  scoreRef : Z;
  bestRef : Q;
  streakRef : Z;
  hitsRef : Z;
  nearMissRef : Z;
  holdingRef : bool
}.

(** The React state [ui]. *)
Record Ui : Type := mkUi {
  score : Z;
  best : Q;
  streak : Z;
  status : Status;
  msg : string;
  sessionSec : Z;
  intensity : Q
}.

(** The functional updaters handed to [setUi], in source order. *)
Inductive UiUpdate : Type :=
| UpRun (m : string)
| UpDown
| UpBest (b : Q)
| UpSnapshot (sc : Z) (b : Q) (st : Z) (sec : Z) (inten : Q).

Definition apply_update (up : UiUpdate) (p : Ui) : Ui :=
  match up with
  | UpRun m =>
      mkUi 0 (best p) 0 LIVE m 0 1
  | UpDown =>
      mkUi (score p) (best p) (streak p) DOWN
           "Down. Breathe. Tap + hold to restart." (sessionSec p) (intensity p)
  | UpBest b =>
      mkUi (score p) b (streak p) (status p) (msg p) (sessionSec p) (intensity p)
  | UpSnapshot sc b st sec inten =>
      mkUi sc b st (status p) (msg p) sec inten
  end.

(** [localStorage], reduced to the one key the page uses.  Either access may
    throw (storage disabled, quota exceeded). *)
Record Storage : Type := mkStorage {
  item : option string;
  get_throws : bool;
  set_throws : bool
}.

Inductive outcome (A : Type) : Type :=
| Returned (a : A)
| Thrown.
Arguments Returned {A} a.
Arguments Thrown {A}.

Definition getItem (st : Storage) : outcome (option string) :=
  if get_throws st then Thrown else Returned (item st).

Definition setItem (v : string) (st : Storage) : outcome Storage :=
  if set_throws st then Thrown
  else Returned (mkStorage (Some v) (get_throws st) (set_throws st)).

(** The whole component: refs, storage, the committed [ui] and the queue of
    [setUi] updaters not yet rendered. *)
Record World : Type := mkWorld {
  refs : Refs;
  store : Storage;
  ui : Ui;
  pending : list UiUpdate
}.

Definition upd (f : Refs -> Refs) (w : World) : World :=
  mkWorld (f (refs w)) (store w) (ui w) (pending w).

Definition setUi (up : UiUpdate) (w : World) : World :=
  mkWorld (refs w) (store w) (ui w) (pending w ++ [up]).

Definition set_store (st : Storage) (w : World) : World :=
  mkWorld (refs w) st (ui w) (pending w).

(** Assignments to single refs. *)
Definition set_lastRef (v : Q) (r : Refs) : Refs :=
  mkRefs v (t0Ref r) (pxRef r) (velRef r) (dashRef r) (chargeRef r) (aliveRef r)
    (wavesRef r) (waveIdRef r) (scoreRef r) (bestRef r) (streakRef r) (hitsRef r)
    (nearMissRef r) (holdingRef r).
Definition set_t0Ref (v : Q) (r : Refs) : Refs :=
  mkRefs (lastRef r) v (pxRef r) (velRef r) (dashRef r) (chargeRef r) (aliveRef r)
    (wavesRef r) (waveIdRef r) (scoreRef r) (bestRef r) (streakRef r) (hitsRef r)
    (nearMissRef r) (holdingRef r).
Definition set_pxRef (v : Q) (r : Refs) : Refs :=
  mkRefs (lastRef r) (t0Ref r) v (velRef r) (dashRef r) (chargeRef r) (aliveRef r)
    (wavesRef r) (waveIdRef r) (scoreRef r) (bestRef r) (streakRef r) (hitsRef r)
    (nearMissRef r) (holdingRef r).
Definition set_velRef (v : Q) (r : Refs) : Refs :=
  mkRefs (lastRef r) (t0Ref r) (pxRef r) v (dashRef r) (chargeRef r) (aliveRef r)
    (wavesRef r) (waveIdRef r) (scoreRef r) (bestRef r) (streakRef r) (hitsRef r)
    (nearMissRef r) (holdingRef r).
Definition set_dashRef (v : Q) (r : Refs) : Refs :=
  mkRefs (lastRef r) (t0Ref r) (pxRef r) (velRef r) v (chargeRef r) (aliveRef r)
    (wavesRef r) (waveIdRef r) (scoreRef r) (bestRef r) (streakRef r) (hitsRef r)
    (nearMissRef r) (holdingRef r).
Definition set_chargeRef (v : Q) (r : Refs) : Refs :=
  mkRefs (lastRef r) (t0Ref r) (pxRef r) (velRef r) (dashRef r) v (aliveRef r)
    (wavesRef r) (waveIdRef r) (scoreRef r) (bestRef r) (streakRef r) (hitsRef r)
    (nearMissRef r) (holdingRef r).
Definition set_aliveRef (v : bool) (r : Refs) : Refs :=
  mkRefs (lastRef r) (t0Ref r) (pxRef r) (velRef r) (dashRef r) (chargeRef r) v
    (wavesRef r) (waveIdRef r) (scoreRef r) (bestRef r) (streakRef r) (hitsRef r)
    (nearMissRef r) (holdingRef r).
Definition set_wavesRef (v : list Wave) (r : Refs) : Refs :=
  mkRefs (lastRef r) (t0Ref r) (pxRef r) (velRef r) (dashRef r) (chargeRef r)
    (aliveRef r) v (waveIdRef r) (scoreRef r) (bestRef r) (streakRef r) (hitsRef r)
    (nearMissRef r) (holdingRef r).
Definition set_waveIdRef (v : Z) (r : Refs) : Refs :=
  mkRefs (lastRef r) (t0Ref r) (pxRef r) (velRef r) (dashRef r) (chargeRef r)
    (aliveRef r) (wavesRef r) v (scoreRef r) (bestRef r) (streakRef r) (hitsRef r)
    (nearMissRef r) (holdingRef r).
Definition set_scoreRef (v : Z) (r : Refs) : Refs :=
  mkRefs (lastRef r) (t0Ref r) (pxRef r) (velRef r) (dashRef r) (chargeRef r)
    (aliveRef r) (wavesRef r) (waveIdRef r) v (bestRef r) (streakRef r) (hitsRef r)
    (nearMissRef r) (holdingRef r).
Definition set_bestRef (v : Q) (r : Refs) : Refs :=
  mkRefs (lastRef r) (t0Ref r) (pxRef r) (velRef r) (dashRef r) (chargeRef r)
    (aliveRef r) (wavesRef r) (waveIdRef r) (scoreRef r) v (streakRef r) (hitsRef r)
    (nearMissRef r) (holdingRef r).
Definition set_streakRef (v : Z) (r : Refs) : Refs :=
  mkRefs (lastRef r) (t0Ref r) (pxRef r) (velRef r) (dashRef r) (chargeRef r)
    (aliveRef r) (wavesRef r) (waveIdRef r) (scoreRef r) (bestRef r) v (hitsRef r)
    (nearMissRef r) (holdingRef r).
Definition set_hitsRef (v : Z) (r : Refs) : Refs :=
  mkRefs (lastRef r) (t0Ref r) (pxRef r) (velRef r) (dashRef r) (chargeRef r)
    (aliveRef r) (wavesRef r) (waveIdRef r) (scoreRef r) (bestRef r) (streakRef r) v
    (nearMissRef r) (holdingRef r).
Definition set_nearMissRef (v : Z) (r : Refs) : Refs :=
  mkRefs (lastRef r) (t0Ref r) (pxRef r) (velRef r) (dashRef r) (chargeRef r)
    (aliveRef r) (wavesRef r) (waveIdRef r) (scoreRef r) (bestRef r) (streakRef r)
    (hitsRef r) v (holdingRef r).
Definition set_holdingRef (v : bool) (r : Refs) : Refs :=
  mkRefs (lastRef r) (t0Ref r) (pxRef r) (velRef r) (dashRef r) (chargeRef r)
    (aliveRef r) (wavesRef r) (waveIdRef r) (scoreRef r) (bestRef r) (streakRef r)
    (hitsRef r) (nearMissRef r) v.

Notation "x |> f" := (f x) (at level 45, left associativity, only parsing).

(** ** A rational host

    A host that computes, for running the page on concrete inputs.
    [Math.sin] is the parabola through the zeros and the extrema of each
    half period (within 0.06 of the sine), [Math.pow a b] the chord through
    [b = 0] and [b = 1], [Number] reads decimal integer literals and the two
    infinities (anything else is [NaN]), [String] prints integers. *)
Definition two_pi : Q := 6.283185307.

Definition sin_parabola (x : Q) : Q :=
  let t := x / two_pi in
  let f := t - inject_Z (Qfloor t) in
  if Qle_bool f 0.5
  then 16 * f * (0.5 - f)
  else - (16 * (f - 0.5) * (1 - f)).

Definition pow_chord (a b : Q) : Q := 1 + b * (a - 1).

Definition number_of_string (s : string) : jsnum :=
  match NilZero.int_of_string s with
  | Some d => Fin (inject_Z (Z.of_int d))
  | None =>
      if String.eqb s "Infinity" then PosInf
      else if String.eqb s "-Infinity" then NegInf
      else NaN
  end.

Definition string_of_number (q : Q) : string :=
  NilZero.string_of_int (Z.to_int (Qfloor q)).

#[local] Instance rational_host : Host := {
  Math_sin := sin_parabola;
  Math_pow := pow_chord;
  JS_Number := number_of_string;
  JS_String := string_of_number
}.

(** ** The handlers *)

(** The value of the refs and of [ui] when the component is created; [clock]
    is the [performance.now()] that initialises [t0Ref]. *)
Definition initial_refs (clock : Q) : Refs :=
  mkRefs 0 clock 0.5 0 0 0 true [] 1 0 0 0 0 0 false.

Definition initial_ui : Ui :=
  mkUi 0 0 0 READY "Hold to charge. Release to dash through the gap." 0 1.

(** [wave.y -= dt * wave.speed] *)
Definition advance (dt : Q) (w : Wave) : Wave :=
  mkWave (id w) (y w - dt * speed w) (gapX w) (gapW w) (speed w).

Definition playerY : Q := 0.22.

(** [w.y <= playerY && w.y > playerY - dt * w.speed], read after the advance. *)
Definition crossing (dt : Q) (w : Wave) : bool :=
  Qle_bool (y w) playerY && Qltb (playerY - dt * speed w) (y w).

Definition gapLeft (w : Wave) : Q := gapX w - gapW w / 2.
Definition gapRight (w : Wave) : Q := gapX w + gapW w / 2.

(** [px >= gapLeft && px <= gapRight] *)
Definition inside (px : Q) (w : Wave) : bool :=
  Qle_bool (gapLeft w) px && Qle_bool px (gapRight w).

(** [waves[waves.length - 1]], [undefined] on the empty array. *)
Definition last_wave (l : list Wave) : option Wave :=
  nth_error l (List.length l - 1).

(** [Math.min(0.033, (now - (lastRef.current || now)) / 1000)]: a [lastRef]
    of 0 is falsy and replaced by [now]. *)
Definition dt_of (last now : Q) : Q :=
  Qmin 0.033 ((now - (if Qeq_bool last 0 then now else last)) / 1000).

(** The number of times one wave's crossing check fires while it is advanced
    through the ticks of durations [dts]. *)
Fixpoint crossings (dts : list Q) (w : Wave) : nat :=
  match dts with
  | [] => 0%nat
  | dt :: rest =>
      let w' := advance dt w in
      ((if crossing dt w' then 1 else 0) + crossings rest w')%nat
  end.

Section Page.

Context {host : Host}.

(** [reset(runMsg)]; [clock] is what [performance.now()] returns. *)
Definition reset (runMsg : option string) (clock : Q) (w : World) : World :=
  w |> upd (set_pxRef 0.5)
    |> upd (set_velRef 0)
    |> upd (set_dashRef 0)
    |> upd (set_chargeRef 0)
    |> upd (set_aliveRef true)
    |> upd (set_wavesRef [])
    |> upd (set_waveIdRef 1)
    |> upd (set_scoreRef 0)
    |> upd (set_streakRef 0)
    |> upd (set_hitsRef 0)
    |> upd (set_nearMissRef 0)
    |> upd (set_t0Ref clock)
    |> setUi (UpRun (match runMsg with
                     | Some m => m
                     | None => "Flow state: breathe, charge, dash."%string
                     end)).

(** [spawnWave()]; [rnd] is what [Math.random()] returns. *)
Definition spawnWave (rnd : Q) (r : Refs) : Refs :=
  let id := waveIdRef r in
  let r := set_waveIdRef (id + 1)%Z r in
  let gapW := clamp (0.26 - inject_Z (scoreRef r) * 0.0006) 0.12 0.26 in
  let gapX := clamp (0.15 + rnd * 0.70) 0.1 0.9 in
  let speed := clamp (0.35 + inject_Z (scoreRef r) * 0.00015) 0.35 1.15 in
  set_wavesRef (wavesRef r ++ [mkWave id 1.15 gapX gapW speed]) r.

(** [onHoldStart()]: [ui.status] is the committed status of the render that
    created the handler. *)
Definition onHoldStart (clock : Q) (w : World) : World :=
  let w := match status (ui w) with
           | READY | DOWN => reset (Some "RUN."%string) clock w
           | LIVE => w
           end in
  upd (set_holdingRef true) w.

(** [onHoldEnd()] *)
Definition onHoldEnd (w : World) : World :=
  let w := upd (set_holdingRef false) w in
  let c := chargeRef (refs w) in
  let w := if aliveRef (refs w)
           then upd (fun r => set_dashRef (clamp (dashRef r + (0.35 + c * 1.2)) 0 1.6) r) w
           else w in
  upd (set_chargeRef 0) w.

(** The prologue of the main effect ("initial best load"). *)
Definition loadBest (w : World) : World :=
  match getItem (store w) with
  | Thrown => w
  | Returned stored =>
      let b := JS_Number (match stored with Some s => s | None => "0" end) in
      let w := upd (set_bestRef (if isFinite b then finite_part b else 0)) w in
      setUi (UpBest (bestRef (refs w))) w
  end.

(** *** The body of [tick], statement by statement *)

(** Charge while holding. *)
Definition step_charge (dt : Q) (r : Refs) : Refs :=
  if holdingRef r
  then set_chargeRef (clamp (chargeRef r + dt * 0.85) 0 1) r
  else set_chargeRef (clamp (chargeRef r - dt * 1.3) 0 1) r.

(** Passive drift. *)
Definition step_drift (now dt : Q) (r : Refs) : Refs :=
  let drift := Math_sin (now * 0.0012) * 0.02 in
  set_velRef (velRef r + drift * dt) r.

(** Apply dash (horizontal nudge). *)
Definition step_dash (dt : Q) (r : Refs) : Refs :=
  if Qltb 0 (dashRef r)
  then
    let impulse := dashRef r * (if holdingRef r then 0.25 else 1.0) in
    let r := set_velRef (velRef r + (impulse * dt) * 1.8) r in
    set_dashRef (clamp (dashRef r - dt * 1.6) 0 2) r
  else r.

(** Dampen velocity and update position. *)
Definition step_move (dt : Q) (r : Refs) : Refs :=
  let r := set_velRef (velRef r * Math_pow 0.08 dt) r in
  set_pxRef (clamp (pxRef r + velRef r) 0.06 0.94) r.

(** Spawn waves; [rnd k] is the value of the [k]-th call of [Math.random]
    in this tick. *)
Definition step_spawn (rnd : nat -> Q) (r : Refs) : Refs :=
  let empty := (List.length (wavesRef r) =? 0)%nat in
  let r := if empty then spawnWave (rnd 0%nat) r else r in
  match last_wave (wavesRef r) with
  | Some last =>
      if Qltb (y last) 0.65
      then spawnWave (rnd (if empty then 1 else 0)%nat) r
      else r
  | None => r
  end.

(** Move waves. *)
Definition step_advance (dt : Q) (r : Refs) : Refs :=
  set_wavesRef (map (advance dt) (wavesRef r)) r.

(** The body of the collision loop for one wave. *)
Definition resolve (dt : Q) (w : World) (wave : Wave) : World :=
  if crossing dt wave then
    let px := pxRef (refs w) in
    if inside px wave then
      let w := upd (fun r => set_hitsRef (hitsRef r + 1)%Z r) w in
      let w := upd (fun r => set_streakRef (streakRef r + 1)%Z r) w in
      let edgeDist := Qmin (px - gapLeft wave) (gapRight wave - px) in
      let w := if Qltb edgeDist 0.03
               then w |> upd (fun r => set_nearMissRef (nearMissRef r + 1)%Z r)
                      |> upd (fun r => set_scoreRef (scoreRef r + 9)%Z r)
               else w in
      upd (fun r => set_scoreRef
                      (scoreRef r + (18 + Qfloor (inject_Z (streakRef r) * 0.9)))%Z r) w
    else
      w |> upd (set_aliveRef false) |> setUi UpDown
  else w.

(** Collision: the loop over the waves. *)
Definition step_collide (dt : Q) (w : World) : World :=
  fold_left (resolve dt) (wavesRef (refs w)) w.

(** Remove offscreen waves. *)
Definition step_prune (r : Refs) : Refs :=
  set_wavesRef (filter (fun w => Qltb (-0.2) (y w)) (wavesRef r)) r.

(** Update best; a throwing [setItem] is caught and ignored. *)
Definition step_best (w : World) : World :=
  if Qltb (bestRef (refs w)) (inject_Z (scoreRef (refs w))) then
    let w := upd (fun r => set_bestRef (inject_Z (scoreRef r)) r) w in
    match setItem (JS_String (bestRef (refs w))) (store w) with
    | Returned st => set_store st w
    | Thrown => w
    end
  else w.

(** UI snapshot. *)
Definition step_snapshot (now : Q) (w : World) : World :=
  let r := refs w in
  let sessionSec := Qfloor ((now - t0Ref r) / 1000) in
  let intensity := clamp (1 + inject_Z (scoreRef r) / 800) 1 2.25 in
  setUi (UpSnapshot (scoreRef r) (bestRef r) (streakRef r) sessionSec intensity) w.

(** [tick(now)].  [ui.status] is the status of the render that ran the
    effect, so it is read from the committed [ui]. *)
Definition tick (now : Q) (rnd : nat -> Q) (w : World) : World :=
  let dt := dt_of (lastRef (refs w)) now in
  let w := upd (set_lastRef now) w in
  match status (ui w) with
  | LIVE =>
      w |> upd (step_charge dt)
        |> upd (step_drift now dt)
        |> upd (step_dash dt)
        |> upd (step_move dt)
        |> upd (step_spawn rnd)
        |> upd (step_advance dt)
        |> step_collide dt
        |> upd step_prune
        |> step_best
        |> step_snapshot now
  | _ => w
  end.

(** The world a live tick hands to its collision loop. *)
Definition before_collision (now : Q) (rnd : nat -> Q) (w : World) : World :=
  let dt := dt_of (lastRef (refs w)) now in
  upd (set_lastRef now) w
    |> upd (step_charge dt)
    |> upd (step_drift now dt)
    |> upd (step_dash dt)
    |> upd (step_move dt)
    |> upd (step_spawn rnd)
    |> upd (step_advance dt).

(** *** React: rendering and the effect *)

(** A render applies the queued updaters in order. *)
Definition flush (w : World) : World :=
  mkWorld (refs w) (store w)
          (fold_left (fun p up => apply_update up p) (pending w) (ui w)) [].

(** The main effect has dependencies [[ui.status]]: when a render changes
    the status, the effect runs again, prologue included, and its own
    [setUi] is rendered in turn. *)
Definition render (w : World) : World :=
  let w' := flush w in
  if Status_eqb (status (ui w')) (status (ui w)) then w'
  else flush (loadBest w').

(** What the page receives. *)
Inductive Event : Type :=
| Frame (now : Q) (rnd : nat -> Q)
| HoldStart (clock : Q)
| HoldEnd.

Definition handle (e : Event) (w : World) : World :=
  match e with
  | Frame now rnd => tick now rnd w
  | HoldStart clock => onHoldStart clock w
  | HoldEnd => onHoldEnd w
  end.

Definition step (w : World) (e : Event) : World := render (handle e w).

Definition run (es : list Event) (w : World) : World := fold_left step es w.

(** Mounting: fresh refs and [ui], then the effect runs for the first time. *)
Definition boot (clock : Q) (st : Storage) : World :=
  flush (loadBest (mkWorld (initial_refs clock) st initial_ui [])).

End Page.

(** ** Predicates of the specification *)

(** The ranges the page clamps to. *)
Definition wave_in_range (w : Wave) : Prop :=
  (0.12 <= gapW w /\ gapW w <= 0.26) /\ (0.35 <= speed w /\ speed w <= 1.15).

Definition clamped (r : Refs) : Prop :=
  (0.06 <= pxRef r /\ pxRef r <= 0.94) /\
  (0 <= chargeRef r /\ chargeRef r <= 1) /\
  (0 <= dashRef r /\ dashRef r <= 2) /\
  Forall wave_in_range (wavesRef r).

(** The tighter range of the dash. *)
Definition dash_capped (r : Refs) : Prop :=
  0 <= dashRef r /\ dashRef r <= 1.6.

(** The frame timestamps never decrease, starting from [t]: the clock of
    [requestAnimationFrame] is monotonic. *)
Fixpoint timestamps_from (t : Q) (es : list Event) : Prop :=
  match es with
  | [] => True
  | Frame now _ :: rest => t <= now /\ timestamps_from now rest
  | _ :: rest => timestamps_from t rest
  end.

(** Outcomes of the collision loop for a player at [px]. *)
Definition is_miss (dt px : Q) (w : Wave) : bool :=
  crossing dt w && negb (inside px w).

Definition is_hit (dt px : Q) (w : Wave) : bool :=
  crossing dt w && inside px w.

Definition misses (dt px : Q) (ws : list Wave) : nat :=
  List.length (filter (is_miss dt px) ws).

Definition hits_in (dt px : Q) (ws : list Wave) : nat :=
  List.length (filter (is_hit dt px) ws).

(** The number of "DOWN" updaters in a queue. *)
Definition is_down (up : UiUpdate) : bool :=
  match up with UpDown => true | _ => false end.

Definition count_down (q : list UiUpdate) : nat :=
  List.length (filter is_down q).

(** The refs that the physics, the spawning and the advance never assign. *)
Definition same_tally (r r' : Refs) : Prop :=
  aliveRef r' = aliveRef r /\ scoreRef r' = scoreRef r /\
  bestRef r' = bestRef r /\ streakRef r' = streakRef r /\
  hitsRef r' = hitsRef r /\ nearMissRef r' = nearMissRef r /\
  holdingRef r' = holdingRef r /\ t0Ref r' = t0Ref r.

(** What the effect's best load would read from a storage that answers. *)
Definition loaded {host : Host} (st : Storage) : Q :=
  let b := JS_Number (match item st with Some s => s | None => "0"%string end) in
  if isFinite b then finite_part b else 0.

(** Writes succeed, and reads either throw or give back the best in memory. *)
Definition store_agrees {host : Host} (w : World) : Prop :=
  set_throws (store w) = false /\
  (get_throws (store w) = true \/ loaded (store w) = bestRef (refs w)).

(** The ids of the field are distinct and below the id counter. *)
Definition ids_fresh (r : Refs) : Prop :=
  Forall (fun v => (id v < waveIdRef r)%Z) (wavesRef r) /\
  NoDup (map id (wavesRef r)).

(** The field and the id counter are the same. *)
Definition same_field (r r' : Refs) : Prop :=
  wavesRef r' = wavesRef r /\ waveIdRef r' = waveIdRef r.

(** The refs the collision loop never assigns. *)
Definition same_body (r r' : Refs) : Prop :=
  lastRef r' = lastRef r /\ t0Ref r' = t0Ref r /\ pxRef r' = pxRef r /\
  velRef r' = velRef r /\ dashRef r' = dashRef r /\ chargeRef r' = chargeRef r /\
  wavesRef r' = wavesRef r /\ waveIdRef r' = waveIdRef r /\
  bestRef r' = bestRef r /\ holdingRef r' = holdingRef r.

(** The refs the ranges speak about. *)
Definition same_player (r r' : Refs) : Prop :=
  pxRef r' = pxRef r /\ chargeRef r' = chargeRef r /\
  dashRef r' = dashRef r /\ wavesRef r' = wavesRef r.

(** ** Concrete worlds

    Inputs on which the theorems below are run, with the rational host. *)

(** Constant random numbers. *)
Definition always (r : Q) : nat -> Q := fun _ => r.

(** A storage with nothing stored that answers reads and throws on writes. *)
Definition write_failing_storage : Storage := mkStorage None false true.

(** A live world in which three waves are about to cross the player band
    in the same tick, each faster than the one before: the first two with
    their gap away from the player, the third with its gap around the
    player.  The page never builds such a field; it is here to run the
    statements of [tick] on. *)
Definition crowded_world : World :=
  mkWorld
    (mkRefs 1000 0 0.5 0 0 0 true
       [mkWave 1 0.2205 0.8 0.26 0.35;
        mkWave 2 0.225 0.8 0.2 0.5;
        mkWave 3 0.23 0.5 0.12 1.15]
       4 6000 6000 0 0 0 false)
    (mkStorage (Some "6000"%string) false false)
    (mkUi 6000 6000 0 LIVE "RUN." 1 2.25)
    [].

(** A live world after one hit (score 18, best 18 in memory only, since
    every write threw), with the second wave about to cross far from the
    player. *)
Definition mid_run_world : World :=
  mkWorld
    (mkRefs 2722 0 0.94 0.001 0 0 true
       [mkWave 2 0.221 0.15 0.2492 0.3527]
       3 18 18 1 1 0 false)
    write_failing_storage
    (mkUi 18 18 1 LIVE "RUN." 2 1.0225)
    [].

(** A live world with the player at 0.41, no streak and no score, and a wave
    with gap [0.4, 0.6] that has just been advanced across the band. *)
Definition near_miss_world : World :=
  mkWorld
    (mkRefs 1000 0 0.41 0 0 0 true
       [mkWave 1 0.2149 0.5 0.2 0.35]
       2 0 0 0 0 0 false)
    (mkStorage None false false)
    (mkUi 0 0 0 LIVE "RUN." 1 1)
    [].

(** A wave a little above the player band and four ticks of uneven length. *)
Definition falling_wave : Wave := mkWave 1 0.25 0.5 0.26 0.35.

Definition uneven_ticks : list Q := [0.033; 0.033; 0.016; 0.033].

(** The wave of [near_miss_world], as the collision loop sees it. *)
Definition near_miss_wave : Wave := mkWave 1 0.2149 0.5 0.2 0.35.

(** Hold, a frame, release, a frame, and a second release. *)
Definition release_twice : list Event :=
  [HoldStart 0; Frame 16 (always 0.5); HoldEnd; Frame 33 (always 0.5); HoldEnd].

(** ** More of the page: predicates

    Invariants of the worlds the page reaches, and what the handlers do at
    their edges. *)

(** The wave [spawnWave] pushes. *)
Definition spawned (rnd : Q) (r : Refs) : Wave :=
  mkWave (waveIdRef r) 1.15
         (clamp (0.15 + rnd * 0.70) 0.1 0.9)
         (clamp (0.26 - inject_Z (scoreRef r) * 0.0006) 0.12 0.26)
         (clamp (0.35 + inject_Z (scoreRef r) * 0.00015) 0.35 1.15).

(** What [Math.random] returns: a number in [0, 1). *)
Definition unit_random (rnd : Q) : Prop := 0 <= rnd /\ rnd < 1.

(** The streak bonuses of the first [n] hits: [floor (k * 0.9)], [k = 1..n]. *)
Fixpoint bonus_sum (n : nat) : Z :=
  match n with
  | O => 0%Z
  | S k => (bonus_sum k + Qfloor (inject_Z (Z.of_nat (S k)) * 0.9))%Z
  end.

(** The counters agree with each other. *)
Definition tally_consistent (r : Refs) : Prop :=
  streakRef r = hitsRef r /\
  (0 <= nearMissRef r)%Z /\ (nearMissRef r <= hitsRef r)%Z /\
  scoreRef r =
    (18 * hitsRef r + 9 * nearMissRef r + bonus_sum (Z.to_nat (hitsRef r)))%Z.

(** The committed [ui] shows what the refs hold. *)
Definition hud_in_sync (w : World) : Prop :=
  score (ui w) = scoreRef (refs w) /\
  best (ui w) = bestRef (refs w) /\
  streak (ui w) = streakRef (refs w) /\
  intensity (ui w) == clamp (1 + inject_Z (scoreRef (refs w)) / 800) 1 2.25.

(** The player is dead exactly in the status DOWN. *)
Definition down_iff_dead (w : World) : Prop :=
  aliveRef (refs w) = false <-> status (ui w) = DOWN.

(** A world between two events: nothing queued, the HUD in sync, the status
    and the counters consistent. *)
Definition settled (w : World) : Prop :=
  pending w = [] /\ hud_in_sync w /\ down_iff_dead w /\
  tally_consistent (refs w).

(** The status changes an event may cause. *)
Definition legal_transition (e : Event) (s s' : Status) : Prop :=
  match e with
  | HoldStart _ => s' = LIVE
  | HoldEnd => s' = s
  | Frame _ _ => s' = s \/ (s = LIVE /\ s' = DOWN)
  end.

(** Every wave of the field is between the discard line and the spawn line. *)
Definition field_in_bounds (r : Refs) : Prop :=
  Forall (fun v => -0.2 < y v /\ y v <= 1.15) (wavesRef r).

(** The centre of every gap is a position the player can take. *)
Definition gaps_in_reach (r : Refs) : Prop :=
  Forall (fun v => 0.1 <= gapX v /\ gapX v <= 0.9) (wavesRef r).

(** *** The geometry of the render *)

(** [dims], the measured size of the container. *)
Record Dims : Type := mkDims {
  dims_w : Q;
  dims_h : Q
}.

(** The box of an absolutely positioned element. *)
Record Rect : Type := mkRect {
  rect_left : Q;
  rect_top : Q;
  rect_width : Q;
  rect_height : Q
}.

(** [function Bar({ x, y, w, h }) { if (w <= 0) return null; ... }] *)
Definition Bar (x y w h : Q) : option Rect :=
  if Qle_bool w 0 then None else Some (mkRect x y w h).

(** [const yPx = (1 - w.y) * (dims.h - 180) + 160] *)
Definition yPx (d : Dims) (v : Wave) : Q :=
  (1 - y v) * (dims_h d - 180) + 160.

(** The top of the player band and of the player orb. *)
Definition band_top (d : Dims) : Q := (1 - 0.22) * (dims_h d - 180) + 160.

(** What the render draws for one wave: the two bars and the gap hint. *)
Record WaveView : Type := mkWaveView {
  left_bar : option Rect;
  right_bar : option Rect;
  gap_hint : Rect
}.

Definition wave_view (d : Dims) (v : Wave) : WaveView :=
  let left := (gapX v - gapW v / 2) * dims_w d in
  let right := (gapX v + gapW v / 2) * dims_w d in
  mkWaveView (Bar 0 (yPx d v) left 10)
             (Bar right (yPx d v) (dims_w d - right) 10)
             (mkRect left (yPx d v - 6) (Qmax 10 (right - left)) 22).

(** [Math.round(charge * 100)], the width of the charge meter in percent. *)
Definition meter_percent (charge : Q) : Z := Qfloor (charge * 100 + 0.5).

(** [26 + charge * 24], the width and height of the player orb. *)
Definition orb_size (charge : Q) : Q := 26 + charge * 24.

(** A storage that answers reads and writes. *)
Definition working_storage (stored : option string) : Storage :=
  mkStorage stored false false.

(** A wave above the band and five ticks that carry it across. *)
Definition high_wave : Wave := mkWave 1 0.3 0.5 0.26 1.

Definition five_ticks : list Q := [0.033; 0.033; 0.016; 0.033; 0.033].

(** Every random number the frames of [es] hand out satisfies [R]. *)
Fixpoint randoms (R : Q -> Prop) (es : list Event) : Prop :=
  match es with
  | [] => True
  | Frame _ rnd :: rest => (forall k, R (rnd k)) /\ randoms R rest
  | _ :: rest => randoms R rest
  end.

(** No event of [es] is a hold-start. *)
Fixpoint no_restart (es : list Event) : Prop :=
  match es with
  | [] => True
  | HoldStart _ :: _ => False
  | _ :: rest => no_restart rest
  end.

(** The refs of the simulation proper: what a run in DOWN must not touch. *)
Definition same_simulation (r r' : Refs) : Prop :=
  pxRef r' = pxRef r /\ velRef r' = velRef r /\ dashRef r' = dashRef r /\
  aliveRef r' = aliveRef r /\ wavesRef r' = wavesRef r /\
  waveIdRef r' = waveIdRef r /\ scoreRef r' = scoreRef r /\
  bestRef r' = bestRef r /\ streakRef r' = streakRef r /\
  hitsRef r' = hitsRef r /\ nearMissRef r' = nearMissRef r.

(** The refs after the charge statements of held ticks of durations [dts]. *)
Definition charge_through (dts : list Q) (r : Refs) : Refs :=
  fold_left (fun r dt => step_charge dt r) dts r.

(** The sum of a list of durations. *)
Definition total (dts : list Q) : Q := fold_right Qplus 0 dts.

(** A world in DOWN: the player missed the only wave of the field. *)
Definition downed_world : World :=
  mkWorld
    (mkRefs 1016 0 0.5 0 0 0 false
       [mkWave 1 0.2149 0.8 0.26 0.35]
       2 0 0 0 0 0 false)
    (mkStorage None false false)
    (mkUi 0 0 0 DOWN "Down. Breathe. Tap + hold to restart." 1 1)
    [].

(** Two frames around a release. *)
Definition frames_and_release : list Event :=
  [Frame 2000 (always 0.5); HoldEnd; Frame 2016 (always 0.5)].

(** A live world with the input held, half a charge and some dash left. *)
Definition charged_world : World :=
  mkWorld
    (mkRefs 1000 0 0.5 0 0.5 0.5 true
       [mkWave 1 0.9 0.5 0.26 0.35]
       2 0 0 0 0 0 true)
    (mkStorage None false false)
    (mkUi 0 0 0 LIVE "RUN." 1 1)
    [].

(** A live world at score 0 with two waves: the older one a tick away from
    crossing the player band with its gap around the player, the newer one
    half the arena behind it. *)
Definition hit_world : World :=
  mkWorld
    (mkRefs 1000 0 0.5 0 0 0 true
       [mkWave 1 0.2205 0.5 0.26 0.35; mkWave 2 0.74 0.3 0.26 0.35]
       3 0 0 0 0 0 false)
    (mkStorage None false false)
    (mkUi 0 0 0 LIVE "RUN." 1 1)
    [].

(** The same world with the gap of the older wave away from the player. *)
Definition miss_world : World :=
  mkWorld
    (mkRefs 1000 0 0.5 0 0 0 true
       [mkWave 1 0.2205 0.8 0.26 0.35; mkWave 2 0.74 0.3 0.26 0.35]
       3 0 0 0 0 0 false)
    (mkStorage None false false)
    (mkUi 0 0 0 LIVE "RUN." 1 1)
    [].

(** The container of a phone in portrait, and a container not yet measured. *)
Definition phone : Dims := mkDims 390 844.

Definition unmeasured : Dims := mkDims 0 0.


(** *** The pacing of the field *)

(** The speed [spawnWave] gives a wave at a score. *)
Definition speed_at (sc : Z) : Q :=
  clamp (0.35 + inject_Z sc * 0.00015) 0.35 1.15.

(** A wave that is on the player band or below it. *)
Definition crossed (v : Wave) : Prop := y v <= playerY.

(** The check of the collision loop is false for the wave. *)
Definition quiet (dt : Q) (v : Wave) : Prop := crossing dt v = false.

(** [l] was spawned behind [p], when [p] was below 0.65, at a score that has
    not changed since, and is at most 0.045 faster. *)
Definition follows (sc : Z) (p l : Wave) : Prop :=
  speed_at sc <= speed l /\
  (1.15 - y l) * speed p <= (0.65 - y p) * speed l /\
  speed l <= speed p + 0.045.

(** The field of a live run between two frames: the newest wave is at
    0.61205 or above and at most one hit has been scored since it was
    spawned; of the others only the one before it may still be above the
    player band, and then the newest one follows it. *)
Definition paced (sc : Z) (ws : list Wave) : Prop :=
  ws = [] \/
  exists init l,
    ws = init ++ [l] /\
    0.61205 <= y l /\ speed_at sc <= speed l + 0.045 /\
    (init = [] \/
     exists pre p,
       init = pre ++ [p] /\ Forall crossed pre /\
       (playerY < y p -> follows sc p l)).

(** The field a live tick hands to its collision loop, after the spawning
    and the advance: only the wave before the newest one can cross. *)
Definition poised (dt : Q) (sc : Z) (ws : list Wave) : Prop :=
  exists init l,
    ws = init ++ [l] /\
    0.61205 <= y l /\ speed_at sc <= speed l + 0.045 /\ quiet dt l /\
    (init = [] \/
     exists pre p,
       init = pre ++ [p] /\ Forall crossed pre /\ Forall (quiet dt) pre /\
       (playerY < y p -> follows sc p l) /\
       (crossing dt p = true -> speed_at sc <= speed l)).

(** What holds of every world the page reaches under a monotonic clock: it
    is settled, its refs are in their ranges, and in LIVE its field is
    paced. *)
Definition on_pace (w : World) : Prop :=
  settled w /\ clamped (refs w) /\
  (status (ui w) = LIVE -> paced (scoreRef (refs w)) (wavesRef (refs w))).

(** What the page holds later in a run on a storage whose writes throw: one
    hit scored, the best of 18 in memory only, the next wave a tick away
    from crossing with its gap away from the player. *)
Definition after_hit_world : World :=
  mkWorld
    (mkRefs 2722 0 0.5 0 0 0 true
       [mkWave 2 0.2205 0.9 0.26 0.35; mkWave 3 0.74 0.3 0.2492 0.3527]
       4 18 18 1 1 0 false)
    write_failing_storage
    (mkUi 18 18 1 LIVE "RUN." 2 1.0225)
    [].

(** ** Tactics

    [frame] and [tally] prove that a statement of [tick] leaves a ref
    alone: they unfold the statement and split on its conditions. *)
Ltac frame :=
  intros;
  unfold step_charge, step_drift, step_dash, step_move, step_advance, step_prune;
  repeat match goal with
         | |- context [if ?b then _ else _] => destruct b
         end;
  reflexivity.

Ltac tally :=
  intros;
  unfold same_tally, step_charge, step_drift, step_dash, step_move,
    step_advance, step_prune, spawnWave;
  repeat match goal with
         | |- context [if ?b then _ else _] => destruct b eqn:?
         end;
  repeat split; try reflexivity;
  cbn [holdingRef set_chargeRef set_velRef set_dashRef set_pxRef set_wavesRef
       set_waveIdRef]; congruence.

(** [fields] computes the refs read through assignments, and nothing else. *)
Ltac fields :=
  cbn [refs store ui pending upd setUi set_store
       set_lastRef set_t0Ref set_pxRef set_velRef set_dashRef set_chargeRef
       set_aliveRef set_wavesRef set_waveIdRef set_scoreRef set_bestRef
       set_streakRef set_hitsRef set_nearMissRef set_holdingRef
       lastRef t0Ref pxRef velRef dashRef chargeRef aliveRef wavesRef waveIdRef
       scoreRef bestRef streakRef hitsRef nearMissRef holdingRef].

(** ** Basic facts *)

Lemma Qltb_lt (x y : Q) : Qltb x y = true <-> x < y.
Proof.
  unfold Qltb. rewrite negb_true_iff. split; intros Hx.
  - apply Qnot_le_lt. intros Hle. apply Qle_bool_iff in Hle. congruence.
  - destruct (Qle_bool y x) eqn:E; [|reflexivity].
    apply Qle_bool_iff in E. exfalso. apply (Qlt_not_le _ _ Hx E).
Qed.

Lemma Qltb_ge (x y : Q) : Qltb x y = false <-> y <= x.
Proof.
  unfold Qltb. rewrite negb_false_iff. apply Qle_bool_iff.
Qed.

Lemma clamp_lower (n a b : Q) : a <= clamp n a b.
Proof. unfold clamp. apply Q.le_max_l. Qed.

Lemma clamp_upper (n a b : Q) : a <= b -> clamp n a b <= b.
Proof.
  intros Hab. unfold clamp. apply Q.max_lub; [exact Hab | apply Q.le_min_l].
Qed.

Lemma clamp_le_max (n a b : Q) : clamp n a b <= Qmax a n.
Proof.
  unfold clamp. apply Q.max_le_compat_l. apply Q.le_min_r.
Qed.

Lemma clamp_inside (n a b : Q) : a <= n -> n <= b -> clamp n a b == n.
Proof.
  intros Han Hnb. unfold clamp.
  rewrite (Q.min_r b n Hnb). apply Q.max_r. exact Han.
Qed.

Lemma clamp_above (n a b : Q) : a <= b -> b <= n -> clamp n a b == b.
Proof.
  intros Hab Hbn. unfold clamp.
  rewrite (Q.min_l b n Hbn). apply Q.max_r. exact Hab.
Qed.

Lemma dt_of_nonneg (last now : Q) : last <= now -> 0 <= dt_of last now.
Proof.
  intros Hle. unfold dt_of. apply Q.min_glb; [lra|].
  destruct (Qeq_bool last 0); apply Qle_shift_div_l; lra.
Qed.

Lemma dt_of_bounded (last now : Q) : dt_of last now <= 0.033.
Proof. unfold dt_of. apply Q.le_min_l. Qed.

Lemma same_body_refl (r : Refs) : same_body r r.
Proof. unfold same_body. repeat split. Qed.

Lemma same_body_trans (a b c : Refs) :
  same_body a b -> same_body b c -> same_body a c.
Proof.
  unfold same_body. intros Hab Hbc.
  decompose [and] Hab. decompose [and] Hbc. repeat split; congruence.
Qed.

Lemma resolve_body (dt : Q) (w : World) (wave : Wave) :
  same_body (refs w) (refs (resolve dt w wave)) /\
  store (resolve dt w wave) = store w /\ ui (resolve dt w wave) = ui w.
Proof.
  unfold resolve.
  destruct (crossing dt wave); [|split; [apply same_body_refl | split; reflexivity]].
  destruct (inside (pxRef (refs w)) wave).
  - destruct (Qltb _ 0.03); simpl; (split; [unfold same_body; repeat split | split; reflexivity]).
  - simpl. split; [unfold same_body; repeat split | split; reflexivity].
Qed.

Lemma collide_body (dt : Q) (ws : list Wave) (w : World) :
  same_body (refs w) (refs (fold_left (resolve dt) ws w)) /\
  store (fold_left (resolve dt) ws w) = store w /\
  ui (fold_left (resolve dt) ws w) = ui w.
Proof.
  revert w. induction ws as [|wave ws IH]; intros w; simpl.
  - split; [apply same_body_refl | split; reflexivity].
  - destruct (IH (resolve dt w wave)) as (Hb & Hs & Hu).
    destruct (resolve_body dt w wave) as (Hb1 & Hs1 & Hu1).
    split; [eapply same_body_trans; eassumption | split; congruence].
Qed.

(** ** The clamped ranges *)

Lemma same_body_player (r r' : Refs) : same_body r r' -> same_player r r'.
Proof. unfold same_body, same_player. intuition. Qed.

Lemma clamped_same_player (r r' : Refs) :
  same_player r r' -> clamped r -> clamped r'.
Proof.
  unfold same_player, clamped. intros (Hp & Hc & Hd & Hw).
  rewrite Hp, Hc, Hd, Hw. exact (fun H => H).
Qed.

Lemma spawnWave_waves (rnd : Q) (r : Refs) :
  exists w, wavesRef (spawnWave rnd r) = wavesRef r ++ [w] /\
            wave_in_range w /\ y w = 1.15 /\ id w = waveIdRef r.
Proof.
  unfold spawnWave. simpl. eexists. split; [reflexivity|]. simpl.
  split; [|split; reflexivity].
  unfold wave_in_range. simpl.
  repeat split; try apply clamp_lower; apply clamp_upper; lra.
Qed.

Lemma spawnWave_clamped (rnd : Q) (r : Refs) :
  clamped r -> clamped (spawnWave rnd r).
Proof.
  intros (Hp & Hc & Hd & Hw).
  destruct (spawnWave_waves rnd r) as (w & Hws & Hin & _).
  unfold clamped. rewrite Hws.
  split; [exact Hp|]. split; [exact Hc|]. split; [exact Hd|].
  apply Forall_app. split; [exact Hw | constructor; [exact Hin | constructor]].
Qed.

Lemma step_charge_clamped (dt : Q) (r : Refs) :
  clamped r -> clamped (step_charge dt r).
Proof.
  intros (Hp & Hc & Hd & Hw). unfold step_charge.
  destruct (holdingRef r); unfold clamped; simpl;
    (split; [exact Hp|]; split; [|split; [exact Hd | exact Hw]]);
    (split; [apply clamp_lower | apply clamp_upper; lra]).
Qed.

Lemma step_dash_clamped (dt : Q) (r : Refs) :
  clamped r -> clamped (step_dash dt r).
Proof.
  intros (Hp & Hc & Hd & Hw). unfold step_dash.
  destruct (Qltb 0 (dashRef r)); [|repeat split; tauto].
  unfold clamped; simpl.
  split; [exact Hp|]. split; [exact Hc|]. split; [|exact Hw].
  split; [apply clamp_lower | apply clamp_upper; lra].
Qed.

Lemma step_spawn_clamped (rnd : nat -> Q) (r : Refs) :
  clamped r -> clamped (step_spawn rnd r).
Proof.
  intros Hr. unfold step_spawn.
  set (r1 := if (List.length (wavesRef r) =? 0)%nat then _ else r).
  assert (H1 : clamped r1).
  { unfold r1. destruct (List.length (wavesRef r) =? 0)%nat;
      [apply spawnWave_clamped|]; exact Hr. }
  destruct (last_wave (wavesRef r1)) as [l|]; [|exact H1].
  destruct (Qltb (y l) 0.65); [apply spawnWave_clamped|]; exact H1.
Qed.

Lemma advance_in_range (dt : Q) (w : Wave) :
  wave_in_range w -> wave_in_range (advance dt w).
Proof. unfold wave_in_range, advance. simpl. exact (fun H => H). Qed.

Lemma step_advance_clamped (dt : Q) (r : Refs) :
  clamped r -> clamped (step_advance dt r).
Proof.
  intros (Hp & Hc & Hd & Hw). unfold clamped, step_advance; simpl.
  split; [exact Hp|]. split; [exact Hc|]. split; [exact Hd|].
  apply Forall_map. revert Hw. apply Forall_impl.
  intros w. apply advance_in_range.
Qed.

Lemma step_prune_clamped (r : Refs) : clamped r -> clamped (step_prune r).
Proof.
  intros (Hp & Hc & Hd & Hw). unfold clamped, step_prune; simpl.
  split; [exact Hp|]. split; [exact Hc|]. split; [exact Hd|].
  rewrite Forall_forall in *. intros w Hin.
  apply filter_In in Hin. apply Hw. tauto.
Qed.

Lemma refs_upd (f : Refs -> Refs) (w : World) : refs (upd f w) = f (refs w).
Proof. reflexivity. Qed.

Lemma ui_upd (f : Refs -> Refs) (w : World) : ui (upd f w) = ui w.
Proof. reflexivity. Qed.

Lemma store_upd (f : Refs -> Refs) (w : World) : store (upd f w) = store w.
Proof. reflexivity. Qed.

Lemma pending_upd (f : Refs -> Refs) (w : World) :
  pending (upd f w) = pending w.
Proof. reflexivity. Qed.

Lemma step_collide_body (dt : Q) (w : World) :
  same_body (refs w) (refs (step_collide dt w)) /\
  store (step_collide dt w) = store w /\ ui (step_collide dt w) = ui w.
Proof. unfold step_collide. apply collide_body. Qed.

Section PageFacts.

Context {host : Host}.

Lemma step_move_clamped (dt : Q) (r : Refs) :
  clamped r -> clamped (step_move dt r).
Proof.
  intros (Hp & Hc & Hd & Hw). unfold clamped, step_move; simpl.
  split; [|split; [exact Hc | split; [exact Hd | exact Hw]]].
  split; [apply clamp_lower | apply clamp_upper; lra].
Qed.

Lemma refs_step_snapshot (now : Q) (w : World) :
  refs (step_snapshot now w) = refs w.
Proof. reflexivity. Qed.

Lemma step_best_player (w : World) :
  same_player (refs w) (refs (step_best w)) /\ ui (step_best w) = ui w.
Proof.
  unfold step_best.
  destruct (Qltb (bestRef (refs w)) (inject_Z (scoreRef (refs w))));
    [|split; [repeat split | reflexivity]].
  destruct (setItem _ _); simpl; (split; [repeat split | reflexivity]).
Qed.

Lemma loadBest_player (w : World) :
  same_player (refs w) (refs (loadBest w)) /\ ui (loadBest w) = ui w.
Proof.
  unfold loadBest. destruct (getItem (store w)); simpl;
    (split; [repeat split | reflexivity]).
Qed.

Lemma tick_clamped (now : Q) (rnd : nat -> Q) (w : World) :
  clamped (refs w) -> clamped (refs (tick now rnd w)).
Proof.
  intros Hw. unfold tick. cbv zeta.
  rewrite ui_upd.
  destruct (status (ui w)); try (rewrite refs_upd; exact Hw).
  rewrite refs_step_snapshot.
  eapply clamped_same_player; [apply step_best_player|].
  rewrite refs_upd. apply step_prune_clamped.
  eapply clamped_same_player;
    [apply same_body_player; apply step_collide_body|].
  rewrite !refs_upd.
  apply step_advance_clamped, step_spawn_clamped, step_move_clamped,
        step_dash_clamped.
  eapply clamped_same_player with (r := step_charge _ _);
    [repeat split|].
  apply step_charge_clamped. exact Hw.
Qed.

Lemma reset_clamped (m : option string) (clock : Q) (w : World) :
  clamped (refs (reset m clock w)).
Proof.
  unfold reset, clamped. cbn [refs upd setUi set_pxRef set_velRef set_dashRef
    set_chargeRef set_aliveRef set_wavesRef set_waveIdRef set_scoreRef
    set_streakRef set_hitsRef set_nearMissRef set_t0Ref pxRef chargeRef dashRef
    wavesRef].
  repeat split; try lra. constructor.
Qed.

Lemma onHoldStart_clamped (clock : Q) (w : World) :
  clamped (refs w) -> clamped (refs (onHoldStart clock w)).
Proof.
  intros Hw. unfold onHoldStart. rewrite refs_upd.
  eapply clamped_same_player with
    (r := refs (match status (ui w) with
                | LIVE => w
                | _ => reset (Some "RUN."%string) clock w
                end)); [repeat split|].
  destruct (status (ui w)); try apply reset_clamped; exact Hw.
Qed.

Lemma onHoldEnd_clamped (w : World) :
  clamped (refs w) -> clamped (refs (onHoldEnd w)).
Proof.
  intros (Hp & Hc & Hd & Hw). unfold onHoldEnd. cbv zeta.
  rewrite !refs_upd.
  destruct (aliveRef (set_holdingRef false (refs w)));
    rewrite ?refs_upd; unfold clamped;
    cbn [set_chargeRef set_dashRef set_holdingRef pxRef chargeRef dashRef wavesRef].
  - split; [exact Hp|]. split; [lra|]. split; [|exact Hw].
    split; [apply clamp_lower|].
    apply Qle_trans with 1.6; [apply clamp_upper|]; lra.
  - split; [exact Hp|]. split; [lra|]. split; [exact Hd | exact Hw].
Qed.

Lemma refs_flush (w : World) : refs (flush w) = refs w.
Proof. reflexivity. Qed.

Lemma store_flush (w : World) : store (flush w) = store w.
Proof. reflexivity. Qed.

Lemma render_player (w : World) : same_player (refs w) (refs (render w)).
Proof.
  unfold render. cbv zeta.
  destruct (Status_eqb _ _); rewrite refs_flush; [repeat split|].
  destruct (loadBest_player (flush w)) as (H & _). exact H.
Qed.

Lemma handle_clamped (e : Event) (w : World) :
  clamped (refs w) -> clamped (refs (handle e w)).
Proof.
  destruct e as [now rnd | clock |]; simpl.
  - apply tick_clamped.
  - apply onHoldStart_clamped.
  - apply onHoldEnd_clamped.
Qed.

Lemma step_clamped (w : World) (e : Event) :
  clamped (refs w) -> clamped (refs (step w e)).
Proof.
  intros Hw. unfold step.
  eapply clamped_same_player; [apply render_player|].
  apply handle_clamped. exact Hw.
Qed.

Lemma run_clamped (es : list Event) (w : World) :
  clamped (refs w) -> clamped (refs (run es w)).
Proof.
  revert w. induction es as [|e es IH]; intros w Hw; simpl; [exact Hw|].
  apply IH. apply step_clamped. exact Hw.
Qed.

Lemma boot_clamped (clock : Q) (st : Storage) :
  clamped (refs (boot clock st)).
Proof.
  unfold boot. rewrite refs_flush.
  eapply clamped_same_player; [apply loadBest_player|].
  unfold clamped. simpl. repeat split; try lra. constructor.
Qed.

(** C1.  In every state the page reaches from mounting, whatever the storage,
    the clocks, the random numbers and the sequence of frames and pointer
    events: the position is in [0.06, 0.94], the charge in [0, 1], the dash
    in [0, 2], and every wave of the field has its gap width in
    [0.12, 0.26] and its speed in [0.35, 1.15]. *)
Theorem clamped_ranges_hold (clock : Q) (st : Storage) (es : list Event) :
  let r := refs (run es (boot clock st)) in
  (0.06 <= pxRef r /\ pxRef r <= 0.94) /\
  (0 <= chargeRef r /\ chargeRef r <= 1) /\
  (0 <= dashRef r /\ dashRef r <= 2) /\
  Forall (fun w => (0.12 <= gapW w /\ gapW w <= 0.26) /\
                   (0.35 <= speed w /\ speed w <= 1.15)) (wavesRef r).
Proof.
  exact (run_clamped es (boot clock st) (boot_clamped clock st)).
Qed.

(** ** The dash never exceeds 1.6 *)

Lemma spawnWave_frame (rnd : Q) (r : Refs) :
  dashRef (spawnWave rnd r) = dashRef r /\
  lastRef (spawnWave rnd r) = lastRef r /\
  bestRef (spawnWave rnd r) = bestRef r /\
  scoreRef (spawnWave rnd r) = scoreRef r.
Proof. unfold spawnWave. simpl. repeat split. Qed.

Lemma step_spawn_frame (rnd : nat -> Q) (r : Refs) :
  dashRef (step_spawn rnd r) = dashRef r /\
  lastRef (step_spawn rnd r) = lastRef r /\
  bestRef (step_spawn rnd r) = bestRef r /\
  scoreRef (step_spawn rnd r) = scoreRef r.
Proof.
  unfold step_spawn. cbv zeta.
  set (r1 := if (List.length (wavesRef r) =? 0)%nat then _ else r).
  assert (H1 : dashRef r1 = dashRef r /\ lastRef r1 = lastRef r /\
               bestRef r1 = bestRef r /\ scoreRef r1 = scoreRef r).
  { unfold r1. destruct (List.length (wavesRef r) =? 0)%nat;
      [apply spawnWave_frame | repeat split]. }
  destruct (last_wave (wavesRef r1)) as [l|]; [|exact H1].
  destruct (Qltb (y l) 0.65); [|exact H1].
  destruct (spawnWave_frame (rnd (if (List.length (wavesRef r) =? 0)%nat
                                  then 1 else 0)%nat) r1) as (A & B & C & D).
  destruct H1 as (A1 & B1 & C1 & D1).
  repeat split; congruence.
Qed.

Lemma step_dash_capped (dt : Q) (r : Refs) :
  0 <= dt -> dash_capped r -> dash_capped (step_dash dt r).
Proof.
  intros Hdt (Hlo & Hhi). unfold step_dash.
  destruct (Qltb 0 (dashRef r)); [|split; assumption].
  unfold dash_capped. cbn [set_dashRef set_velRef dashRef].
  split; [apply clamp_lower|].
  eapply Qle_trans; [apply clamp_le_max|].
  apply Q.max_lub; lra.
Qed.

Lemma step_charge_dash dt r : dashRef (step_charge dt r) = dashRef r.
Proof. frame. Qed.
Lemma step_drift_dash now dt r : dashRef (step_drift now dt r) = dashRef r.
Proof. frame. Qed.
Lemma step_move_dash dt r : dashRef (step_move dt r) = dashRef r.
Proof. frame. Qed.
Lemma step_advance_dash dt r : dashRef (step_advance dt r) = dashRef r.
Proof. frame. Qed.
Lemma step_prune_dash r : dashRef (step_prune r) = dashRef r.
Proof. frame. Qed.
Lemma step_spawn_dash rnd r : dashRef (step_spawn rnd r) = dashRef r.
Proof. apply step_spawn_frame. Qed.
Lemma step_collide_dash dt w :
  dashRef (refs (step_collide dt w)) = dashRef (refs w).
Proof. apply step_collide_body. Qed.
Lemma step_best_dash w : dashRef (refs (step_best w)) = dashRef (refs w).
Proof. apply step_best_player. Qed.

Lemma step_charge_last dt r : lastRef (step_charge dt r) = lastRef r.
Proof. frame. Qed.
Lemma step_drift_last now dt r : lastRef (step_drift now dt r) = lastRef r.
Proof. frame. Qed.
Lemma step_dash_last dt r : lastRef (step_dash dt r) = lastRef r.
Proof. frame. Qed.
Lemma step_move_last dt r : lastRef (step_move dt r) = lastRef r.
Proof. frame. Qed.
Lemma step_advance_last dt r : lastRef (step_advance dt r) = lastRef r.
Proof. frame. Qed.
Lemma step_prune_last r : lastRef (step_prune r) = lastRef r.
Proof. frame. Qed.
Lemma step_spawn_last rnd r : lastRef (step_spawn rnd r) = lastRef r.
Proof. apply step_spawn_frame. Qed.
Lemma step_collide_last dt w :
  lastRef (refs (step_collide dt w)) = lastRef (refs w).
Proof. apply step_collide_body. Qed.

Lemma step_best_only_best (w : World) :
  exists b, refs (step_best w) = set_bestRef b (refs w).
Proof.
  unfold step_best.
  destruct (Qltb (bestRef (refs w)) (inject_Z (scoreRef (refs w)))).
  - exists (inject_Z (scoreRef (refs w))). destruct (setItem _ _); reflexivity.
  - exists (bestRef (refs w)). destruct (refs w); reflexivity.
Qed.

Lemma loadBest_only_best (w : World) :
  exists b, refs (loadBest w) = set_bestRef b (refs w).
Proof.
  unfold loadBest. destruct (getItem (store w)).
  - eexists. reflexivity.
  - exists (bestRef (refs w)). destruct (refs w); reflexivity.
Qed.

Lemma render_only_best (w : World) :
  exists b, refs (render w) = set_bestRef b (refs w).
Proof.
  unfold render. cbv zeta. destruct (Status_eqb _ _).
  - exists (bestRef (refs w)). rewrite refs_flush. destruct (refs w); reflexivity.
  - rewrite refs_flush. destruct (loadBest_only_best (flush w)) as (b & Hb).
    exists b. rewrite Hb. reflexivity.
Qed.

Lemma step_best_last w : lastRef (refs (step_best w)) = lastRef (refs w).
Proof. destruct (step_best_only_best w) as (b & Hb). rewrite Hb. reflexivity. Qed.

Lemma tick_last (now : Q) (rnd : nat -> Q) (w : World) :
  lastRef (refs (tick now rnd w)) = now.
Proof.
  unfold tick. cbv zeta. rewrite ui_upd.
  destruct (status (ui w)); try reflexivity.
  rewrite refs_step_snapshot, step_best_last, refs_upd, step_prune_last,
    step_collide_last, !refs_upd, step_advance_last, step_spawn_last,
    step_move_last, step_dash_last, step_drift_last, step_charge_last.
  reflexivity.
Qed.

Lemma tick_dash_capped (now : Q) (rnd : nat -> Q) (w : World) :
  lastRef (refs w) <= now ->
  dash_capped (refs w) -> dash_capped (refs (tick now rnd w)).
Proof.
  intros Hnow Hw. unfold tick. cbv zeta.
  rewrite ui_upd.
  destruct (status (ui w)); try (rewrite refs_upd; exact Hw).
  unfold dash_capped.
  rewrite refs_step_snapshot, step_best_dash, refs_upd, step_prune_dash,
    step_collide_dash, !refs_upd, step_advance_dash, step_spawn_dash,
    step_move_dash.
  apply (step_dash_capped (dt_of (lastRef (refs w)) now)).
  - apply dt_of_nonneg. exact Hnow.
  - unfold dash_capped. rewrite step_drift_dash, step_charge_dash. exact Hw.
Qed.

Lemma onHoldEnd_dash_capped (w : World) :
  dash_capped (refs w) -> dash_capped (refs (onHoldEnd w)).
Proof.
  intros Hw. unfold onHoldEnd. cbv zeta. rewrite !refs_upd.
  destruct (aliveRef (set_holdingRef false (refs w))); rewrite ?refs_upd.
  - unfold dash_capped. cbn [set_chargeRef set_dashRef dashRef].
    split; [apply clamp_lower | apply clamp_upper; lra].
  - exact Hw.
Qed.

Lemma reset_dash (m : option string) (clock : Q) (w : World) :
  dashRef (refs (reset m clock w)) = 0.
Proof. reflexivity. Qed.

Lemma reset_last (m : option string) (clock : Q) (w : World) :
  lastRef (refs (reset m clock w)) = lastRef (refs w).
Proof. reflexivity. Qed.

Lemma onHoldStart_dash_capped (clock : Q) (w : World) :
  dash_capped (refs w) -> dash_capped (refs (onHoldStart clock w)).
Proof.
  intros Hw. unfold onHoldStart. cbv zeta. rewrite refs_upd.
  unfold dash_capped. cbn [set_holdingRef dashRef].
  destruct (status (ui w)); rewrite ?reset_dash; try exact Hw; lra.
Qed.

Lemma onHoldStart_last (clock : Q) (w : World) :
  lastRef (refs (onHoldStart clock w)) = lastRef (refs w).
Proof.
  unfold onHoldStart. cbv zeta. rewrite refs_upd. cbn [set_holdingRef lastRef].
  destruct (status (ui w)); rewrite ?reset_last; reflexivity.
Qed.

Lemma onHoldEnd_last (w : World) :
  lastRef (refs (onHoldEnd w)) = lastRef (refs w).
Proof.
  unfold onHoldEnd. cbv zeta. rewrite !refs_upd.
  destruct (aliveRef (set_holdingRef false (refs w))); reflexivity.
Qed.

Lemma render_dash (w : World) : dashRef (refs (render w)) = dashRef (refs w).
Proof. destruct (render_only_best w) as (b & Hb). rewrite Hb. reflexivity. Qed.

Lemma render_last (w : World) : lastRef (refs (render w)) = lastRef (refs w).
Proof. destruct (render_only_best w) as (b & Hb). rewrite Hb. reflexivity. Qed.

Lemma run_dash_capped (es : list Event) (w : World) :
  timestamps_from (lastRef (refs w)) es ->
  dash_capped (refs w) -> dash_capped (refs (run es w)).
Proof.
  revert w. induction es as [|e es IH]; intros w Hts Hw; [exact Hw|].
  change (run (e :: es) w) with (run es (step w e)).
  destruct e as [now rnd | clock |]; cbn [timestamps_from] in Hts.
  - destruct Hts as (Hnow & Hts). apply IH.
    + unfold step. rewrite render_last. cbn [handle]. rewrite tick_last. exact Hts.
    + unfold dash_capped, step. rewrite render_dash.
      apply tick_dash_capped; assumption.
  - apply IH.
    + unfold step. rewrite render_last. cbn [handle].
      rewrite onHoldStart_last. exact Hts.
    + unfold dash_capped, step. rewrite render_dash.
      apply onHoldStart_dash_capped. exact Hw.
  - apply IH.
    + unfold step. rewrite render_last. cbn [handle].
      rewrite onHoldEnd_last. exact Hts.
    + unfold dash_capped, step. rewrite render_dash.
      apply onHoldEnd_dash_capped. exact Hw.
Qed.

Lemma boot_last (clock : Q) (st : Storage) :
  lastRef (refs (boot clock st)) = 0.
Proof.
  unfold boot. rewrite refs_flush.
  destruct (loadBest_only_best (mkWorld (initial_refs clock) st initial_ui []))
    as (b & Hb).
  rewrite Hb. reflexivity.
Qed.

Lemma boot_dash (clock : Q) (st : Storage) :
  dashRef (refs (boot clock st)) = 0.
Proof.
  unfold boot. rewrite refs_flush.
  destruct (loadBest_only_best (mkWorld (initial_refs clock) st initial_ui []))
    as (b & Hb).
  rewrite Hb. reflexivity.
Qed.

(** C9.  In every state the page reaches from mounting under a monotonic
    frame clock, the dash is in [0, 1.6]: [onHoldEnd] clamps what it adds to
    1.6, the decay in [tick] only lowers the dash, and [reset] sets it to 0. *)
Theorem dash_never_exceeds_cap (clock : Q) (st : Storage) (es : list Event) :
  timestamps_from 0 es ->
  0 <= dashRef (refs (run es (boot clock st))) /\
  dashRef (refs (run es (boot clock st))) <= 1.6.
Proof.
  intros Hts. apply run_dash_capped.
  - rewrite boot_last. exact Hts.
  - unfold dash_capped. rewrite boot_dash. lra.
Qed.

(** ** The crossing check is edge-triggered *)

Lemma crossing_advance_iff (dt : Q) (w : Wave) :
  crossing dt (advance dt w) = true <->
  y w - dt * speed w <= playerY /\ playerY < y w.
Proof.
  unfold crossing, advance. cbn [y speed].
  rewrite andb_true_iff, Qle_bool_iff, Qltb_lt.
  split; intros (H1 & H2); (split; [exact H1|]); lra.
Qed.

Lemma crossings_below (dts : list Q) (w : Wave) :
  Forall (fun dt => 0 <= dt * speed w) dts ->
  y w <= playerY -> crossings dts w = 0%nat.
Proof.
  revert w. induction dts as [|dt dts IH]; intros w Hdts Hy; [reflexivity|].
  inversion Hdts as [|? ? Hdt Hrest]; subst.
  cbn [crossings]. cbv zeta.
  destruct (crossing dt (advance dt w)) eqn:Hc.
  - apply crossing_advance_iff in Hc. lra.
  - rewrite IH; [reflexivity | exact Hrest |].
    unfold advance. cbn [y]. lra.
Qed.

Lemma crossings_falling (dts : list Q) (w : Wave) :
  Forall (fun dt => 0 <= dt * speed w) dts -> (crossings dts w <= 1)%nat.
Proof.
  revert w. induction dts as [|dt dts IH]; intros w Hdts; [cbn; lia|].
  inversion Hdts as [|? ? Hdt Hrest]; subst.
  cbn [crossings]. cbv zeta.
  destruct (crossing dt (advance dt w)) eqn:Hc.
  - apply crossing_advance_iff in Hc.
    rewrite crossings_below; [lia | exact Hrest |].
    unfold advance. cbn [y]. tauto.
  - specialize (IH (advance dt w) Hrest). lia.
Qed.

Lemma crossings_rising (dts : list Q) (w : Wave) :
  Forall (fun dt => dt * speed w <= 0) dts -> crossings dts w = 0%nat.
Proof.
  revert w. induction dts as [|dt dts IH]; intros w Hdts; [reflexivity|].
  inversion Hdts as [|? ? Hdt Hrest]; subst.
  cbn [crossings]. cbv zeta.
  destruct (crossing dt (advance dt w)) eqn:Hc.
  - apply crossing_advance_iff in Hc. lra.
  - rewrite IH; [reflexivity | exact Hrest].
Qed.

(** C5.  Advance one wave through any sequence of ticks whose durations are
    not negative (any frame rate): the crossing check
    [y <= 0.22 && y > 0.22 - dt * speed], read after each advance, fires in
    at most one of them. *)
Theorem crossing_fires_at_most_once (w : Wave) (dts : list Q) :
  Forall (fun dt => 0 <= dt) dts -> (crossings dts w <= 1)%nat.
Proof.
  intros Hdts.
  destruct (Qlt_le_dec (speed w) 0) as [Hneg | Hpos].
  - rewrite crossings_rising; [lia|].
    revert Hdts. apply Forall_impl. intros dt Hdt.
    setoid_replace (dt * speed w) with (- (dt * - speed w)) by ring.
    assert (0 <= dt * - speed w) by (apply Qmult_le_0_compat; lra).
    lra.
  - apply crossings_falling.
    revert Hdts. apply Forall_impl. intros dt Hdt.
    apply Qmult_le_0_compat; assumption.
Qed.

(** ** What a live tick is made of *)

Lemma tick_live (now : Q) (rnd : nat -> Q) (w : World) :
  status (ui w) = LIVE ->
  tick now rnd w =
  step_snapshot now
    (step_best
       (upd step_prune
          (step_collide (dt_of (lastRef (refs w)) now)
             (before_collision now rnd w)))).
Proof.
  intros Hlive. unfold tick, before_collision. cbv zeta.
  rewrite ui_upd, Hlive. reflexivity.
Qed.

Lemma tick_frozen (now : Q) (rnd : nat -> Q) (w : World) :
  status (ui w) <> LIVE -> tick now rnd w = upd (set_lastRef now) w.
Proof.
  intros Hs. unfold tick. cbv zeta. rewrite ui_upd.
  destruct (status (ui w)); [reflexivity | congruence | reflexivity].
Qed.

Lemma same_tally_refl (r : Refs) : same_tally r r.
Proof. unfold same_tally. repeat split. Qed.

Lemma same_tally_trans (a b c : Refs) :
  same_tally a b -> same_tally b c -> same_tally a c.
Proof.
  unfold same_tally. intros Hab Hbc.
  decompose [and] Hab. decompose [and] Hbc. repeat split; congruence.
Qed.

Lemma step_charge_tally dt r : same_tally r (step_charge dt r).
Proof. tally. Qed.
Lemma step_drift_tally now dt r : same_tally r (step_drift now dt r).
Proof. tally. Qed.
Lemma step_dash_tally dt r : same_tally r (step_dash dt r).
Proof. tally. Qed.
Lemma step_move_tally dt r : same_tally r (step_move dt r).
Proof. tally. Qed.
Lemma step_advance_tally dt r : same_tally r (step_advance dt r).
Proof. tally. Qed.
Lemma step_prune_tally r : same_tally r (step_prune r).
Proof. tally. Qed.
Lemma spawnWave_tally rnd r : same_tally r (spawnWave rnd r).
Proof. tally. Qed.

Lemma step_spawn_tally rnd r : same_tally r (step_spawn rnd r).
Proof.
  unfold step_spawn. cbv zeta.
  set (r1 := if (List.length (wavesRef r) =? 0)%nat then _ else r).
  assert (H1 : same_tally r r1).
  { unfold r1. destruct (List.length (wavesRef r) =? 0)%nat;
      [apply spawnWave_tally | apply same_tally_refl]. }
  destruct (last_wave (wavesRef r1)) as [l|]; [|exact H1].
  destruct (Qltb (y l) 0.65); [|exact H1].
  eapply same_tally_trans; [exact H1 | apply spawnWave_tally].
Qed.

Lemma before_collision_tally (now : Q) (rnd : nat -> Q) (w : World) :
  same_tally (refs w) (refs (before_collision now rnd w)) /\
  store (before_collision now rnd w) = store w /\
  ui (before_collision now rnd w) = ui w /\
  pending (before_collision now rnd w) = pending w.
Proof.
  unfold before_collision. cbv zeta.
  split; [|repeat split].
  rewrite !refs_upd.
  eapply same_tally_trans; [|apply step_advance_tally].
  eapply same_tally_trans; [|apply step_spawn_tally].
  eapply same_tally_trans; [|apply step_move_tally].
  eapply same_tally_trans; [|apply step_dash_tally].
  eapply same_tally_trans; [|apply step_drift_tally].
  eapply same_tally_trans; [|apply step_charge_tally].
  repeat split.
Qed.

Lemma physics_same_field (now dt : Q) (r : Refs) :
  same_field r (step_move dt (step_dash dt (step_drift now dt (step_charge dt r)))).
Proof.
  unfold same_field, step_move, step_dash, step_drift, step_charge.
  repeat match goal with
         | |- context [if ?b then _ else _] => destruct b
         end; split; reflexivity.
Qed.

Lemma same_body_field (r r' : Refs) : same_body r r' -> same_field r r'.
Proof. unfold same_body, same_field. intuition. Qed.

Lemma set_bestRef_field (b : Q) (r : Refs) : same_field r (set_bestRef b r).
Proof. split; reflexivity. Qed.

(** The field a live tick hands to its collision loop: the old waves and
    the spawned ones, each advanced by the tick's [dt]. *)
Lemma before_collision_waves (now : Q) (rnd : nat -> Q) (w : World) :
  exists spawned,
    wavesRef (refs (before_collision now rnd w)) =
    map (advance (dt_of (lastRef (refs w)) now)) (wavesRef (refs w) ++ spawned).
Proof.
  unfold before_collision. cbv zeta. rewrite !refs_upd.
  unfold step_advance at 1. cbn [set_wavesRef wavesRef].
  destruct (physics_same_field now (dt_of (lastRef (refs w)) now)
              (set_lastRef now (refs w))) as (Hr0 & _).
  revert Hr0.
  generalize (step_move (dt_of (lastRef (refs w)) now)
                (step_dash (dt_of (lastRef (refs w)) now)
                   (step_drift now (dt_of (lastRef (refs w)) now)
                      (step_charge (dt_of (lastRef (refs w)) now)
                         (set_lastRef now (refs w)))))).
  intros r0 Hr0. cbn [set_lastRef wavesRef] in Hr0.
  unfold step_spawn. cbv zeta.
  set (r1 := if (List.length (wavesRef r0) =? 0)%nat then _ else r0).
  assert (H1 : exists s1, wavesRef r1 = wavesRef (refs w) ++ s1).
  { unfold r1. destruct (List.length (wavesRef r0) =? 0)%nat.
    - destruct (spawnWave_waves (rnd 0%nat) r0) as (v & Hv & _).
      exists [v]. rewrite Hv, Hr0. reflexivity.
    - exists []. rewrite app_nil_r. exact Hr0. }
  destruct H1 as (s1 & Hs1).
  destruct (last_wave (wavesRef r1)) as [l|].
  - destruct (Qltb (y l) 0.65).
    + destruct (spawnWave_waves
                  (rnd (if (List.length (wavesRef r0) =? 0)%nat then 1 else 0)%nat) r1)
        as (v & Hv & _).
      exists (s1 ++ [v]). rewrite Hv, Hs1, app_assoc. reflexivity.
    + exists s1. rewrite Hs1. reflexivity.
  - exists s1. rewrite Hs1. reflexivity.
Qed.

Lemma step_prune_waves (r : Refs) :
  wavesRef (step_prune r) = filter (fun v => Qltb (-0.2) (y v)) (wavesRef r).
Proof. reflexivity. Qed.

(** The field a live tick leaves: that field, minus the pruned waves.  So a
    wave lives in the field as a sequence of [advance]s, the one [crossings]
    counts over. *)
Lemma tick_waves (now : Q) (rnd : nat -> Q) (w : World) :
  status (ui w) = LIVE ->
  wavesRef (refs (tick now rnd w)) =
  filter (fun v => Qltb (-0.2) (y v))
         (wavesRef (refs (before_collision now rnd w))).
Proof.
  intros Hlive. rewrite (tick_live now rnd w Hlive), refs_step_snapshot.
  destruct (step_best_only_best
              (upd step_prune
                 (step_collide (dt_of (lastRef (refs w)) now)
                    (before_collision now rnd w)))) as (b & Hb).
  destruct (set_bestRef_field b
              (refs (upd step_prune
                       (step_collide (dt_of (lastRef (refs w)) now)
                          (before_collision now rnd w))))) as (Hf & _).
  rewrite Hb, Hf, refs_upd, step_prune_waves.
  destruct (step_collide_body (dt_of (lastRef (refs w)) now)
              (before_collision now rnd w))
    as ((_ & _ & _ & _ & _ & _ & Hw & _) & _).
  rewrite Hw. reflexivity.
Qed.

(** ** The collision loop *)

Lemma resolve_outcome (dt : Q) (w : World) (wave : Wave) :
  pending (resolve dt w wave) =
    pending w ++ (if is_miss dt (pxRef (refs w)) wave then [UpDown] else []) /\
  aliveRef (refs (resolve dt w wave)) =
    (if is_miss dt (pxRef (refs w)) wave then false else aliveRef (refs w)) /\
  hitsRef (refs (resolve dt w wave)) =
    (hitsRef (refs w) + (if is_hit dt (pxRef (refs w)) wave then 1 else 0))%Z.
Proof.
  unfold resolve, is_miss, is_hit.
  destruct (crossing dt wave); cbn [andb].
  - destruct (inside (pxRef (refs w)) wave); cbn [negb].
    + destruct (Qltb _ 0.03); cbn; rewrite app_nil_r; repeat split.
    + cbn. repeat split. lia.
  - rewrite app_nil_r. repeat split. lia.
Qed.

Lemma misses_cons (dt px : Q) (w : Wave) (ws : list Wave) :
  misses dt px (w :: ws) =
  ((if is_miss dt px w then 1 else 0) + misses dt px ws)%nat.
Proof. unfold misses. cbn [filter]. destruct (is_miss dt px w); reflexivity. Qed.

Lemma hits_in_cons (dt px : Q) (w : Wave) (ws : list Wave) :
  hits_in dt px (w :: ws) =
  ((if is_hit dt px w then 1 else 0) + hits_in dt px ws)%nat.
Proof. unfold hits_in. cbn [filter]. destruct (is_hit dt px w); reflexivity. Qed.

Lemma collide_outcome (dt : Q) (ws : list Wave) (w : World) :
  pending (fold_left (resolve dt) ws w) =
    pending w ++ repeat UpDown (misses dt (pxRef (refs w)) ws) /\
  aliveRef (refs (fold_left (resolve dt) ws w)) =
    (if (0 <? misses dt (pxRef (refs w)) ws)%nat then false else aliveRef (refs w)) /\
  hitsRef (refs (fold_left (resolve dt) ws w)) =
    (hitsRef (refs w) + Z.of_nat (hits_in dt (pxRef (refs w)) ws))%Z.
Proof.
  revert w. induction ws as [|wave ws IH]; intros w.
  - cbn. rewrite app_nil_r. repeat split. lia.
  - cbn [fold_left].
    destruct (IH (resolve dt w wave)) as (Hp & Ha & Hh).
    destruct (resolve_outcome dt w wave) as (Hp1 & Ha1 & Hh1).
    destruct (resolve_body dt w wave) as ((_ & _ & Hpx & _) & _).
    rewrite Hpx in Hp, Ha, Hh.
    rewrite Hp, Ha, Hh, Hp1, Ha1, Hh1, misses_cons, hits_in_cons.
    set (M := misses dt (pxRef (refs w)) ws).
    set (H := hits_in dt (pxRef (refs w)) ws).
    clearbody M H. clear Hp Ha Hh Hp1 Ha1 Hh1.
    destruct (is_miss dt (pxRef (refs w)) wave);
      destruct (is_hit dt (pxRef (refs w)) wave);
      rewrite <- ?app_assoc; cbn [app repeat Nat.add Nat.ltb Nat.leb];
      rewrite ?app_nil_r; (split; [reflexivity|]);
      (split; [try reflexivity; destruct M; reflexivity | lia]).
Qed.

Lemma count_down_app (a b : list UiUpdate) :
  count_down (a ++ b) = (count_down a + count_down b)%nat.
Proof. unfold count_down. rewrite filter_app, length_app. reflexivity. Qed.

Lemma count_down_repeat (n : nat) : count_down (repeat UpDown n) = n.
Proof.
  unfold count_down. induction n as [|n IH]; [reflexivity|].
  cbn. rewrite IH. reflexivity.
Qed.

Lemma count_down_single (up : UiUpdate) :
  is_down up = false -> count_down [up] = 0%nat.
Proof. intros Hup. unfold count_down. cbn [filter]. rewrite Hup. reflexivity. Qed.

Lemma status_after_downs (n : nat) (p : Ui) :
  (1 <= n)%nat ->
  status (fold_left (fun p up => apply_update up p) (repeat UpDown n) p) = DOWN.
Proof.
  revert p. induction n as [|n IH]; intros p Hn; [lia|].
  cbn [repeat fold_left].
  destruct n as [|n]; [reflexivity|].
  apply IH. lia.
Qed.

Lemma pending_step_best (w : World) : pending (step_best w) = pending w.
Proof.
  unfold step_best.
  destruct (Qltb _ _); [|reflexivity].
  destruct (setItem _ _); reflexivity.
Qed.

Lemma ui_step_best (w : World) : ui (step_best w) = ui w.
Proof. apply step_best_player. Qed.

Lemma step_best_tally_but_best (w : World) :
  aliveRef (refs (step_best w)) = aliveRef (refs w) /\
  hitsRef (refs (step_best w)) = hitsRef (refs w) /\
  scoreRef (refs (step_best w)) = scoreRef (refs w).
Proof.
  destruct (step_best_only_best w) as (b & Hb). rewrite Hb. repeat split.
Qed.

Lemma render_status (w : World) :
  status (ui (render w)) = status (ui (flush w)).
Proof.
  unfold render. cbv zeta.
  destruct (Status_eqb _ _); [reflexivity|].
  unfold loadBest. destruct (getItem (store (flush w))); reflexivity.
Qed.

Lemma tick_pending (now : Q) (rnd : nat -> Q) (w : World) :
  status (ui w) = LIVE ->
  exists snap,
    pending (tick now rnd w) =
    pending w ++
    repeat UpDown (misses (dt_of (lastRef (refs w)) now)
                          (pxRef (refs (before_collision now rnd w)))
                          (wavesRef (refs (before_collision now rnd w)))) ++
    [snap] /\ is_down snap = false /\
    forall p, status (apply_update snap p) = status p.
Proof.
  intros Hlive. rewrite (tick_live now rnd w Hlive).
  eexists. unfold step_snapshot. cbv zeta. cbn [pending setUi].
  rewrite pending_step_best, pending_upd.
  unfold step_collide.
  destruct (collide_outcome (dt_of (lastRef (refs w)) now)
              (wavesRef (refs (before_collision now rnd w)))
              (before_collision now rnd w)) as (Hp & _).
  rewrite Hp.
  destruct (before_collision_tally now rnd w) as (_ & _ & _ & Hq).
  rewrite Hq, <- app_assoc.
  split; [reflexivity|]. split; reflexivity.
Qed.

(** What the collision loop of a live tick does with the waves that cross:
    one DOWN update per miss, one hit counted per hit; after a miss the
    player is not alive and the next render commits DOWN. *)
Lemma live_tick_outcome (now : Q) (rnd : nat -> Q) (w : World) :
  status (ui w) = LIVE ->
  let dt := dt_of (lastRef (refs w)) now in
  let px := pxRef (refs (before_collision now rnd w)) in
  let field := wavesRef (refs (before_collision now rnd w)) in
  count_down (pending (tick now rnd w)) =
    (count_down (pending w) + misses dt px field)%nat /\
  hitsRef (refs (tick now rnd w)) =
    (hitsRef (refs w) + Z.of_nat (hits_in dt px field))%Z /\
  ((1 <= misses dt px field)%nat ->
   aliveRef (refs (tick now rnd w)) = false /\
   status (ui (step w (Frame now rnd))) = DOWN).
Proof.
  intros Hlive. cbv zeta.
  destruct (tick_pending now rnd w Hlive) as (snap & Hq & Hsnap & Hkeep).
  destruct (collide_outcome (dt_of (lastRef (refs w)) now)
              (wavesRef (refs (before_collision now rnd w)))
              (before_collision now rnd w)) as (_ & Ha & Hh).
  destruct (before_collision_tally now rnd w)
    as ((Hal & _ & _ & _ & Hhi & _) & _).
  assert (Hlate : forall v : World,
             aliveRef (refs (step_snapshot now (step_best (upd step_prune v)))) =
               aliveRef (refs v) /\
             hitsRef (refs (step_snapshot now (step_best (upd step_prune v)))) =
               hitsRef (refs v)).
  { intros v. rewrite refs_step_snapshot.
    destruct (step_best_tally_but_best (upd step_prune v)) as (A & B & _).
    rewrite A, B, refs_upd.
    destruct (step_prune_tally (refs v)) as (A' & _ & _ & _ & B' & _).
    rewrite A', B'. split; reflexivity. }
  split; [|split].
  - rewrite Hq, !count_down_app, count_down_repeat.
    rewrite (count_down_single snap Hsnap). lia.
  - rewrite (tick_live now rnd w Hlive).
    destruct (Hlate (step_collide (dt_of (lastRef (refs w)) now)
                       (before_collision now rnd w))) as (_ & B).
    rewrite B. unfold step_collide. rewrite Hh, Hhi. reflexivity.
  - intros Hn. split.
    + rewrite (tick_live now rnd w Hlive).
      destruct (Hlate (step_collide (dt_of (lastRef (refs w)) now)
                         (before_collision now rnd w))) as (A & _).
      rewrite A. unfold step_collide. rewrite Ha.
      destruct (0 <? _)%nat eqn:E; [reflexivity|].
      apply Nat.ltb_ge in E. lia.
    + unfold step. cbn [handle]. rewrite render_status.
      unfold flush. cbn [ui]. rewrite Hq, !fold_left_app. cbn [fold_left].
      rewrite Hkeep. apply status_after_downs. exact Hn.
Qed.

(** ** Releasing the hold *)

Lemma onHoldEnd_twice (w : World) :
  onHoldEnd (onHoldEnd w) =
  upd (set_dashRef
         (if aliveRef (refs w)
          then clamp (dashRef (refs (onHoldEnd w)) + (0.35 + 0 * 1.2)) 0 1.6
          else dashRef (refs (onHoldEnd w))))
      (onHoldEnd w).
Proof.
  destruct w as [r st u q]. destruct r. unfold onHoldEnd. cbv zeta.
  cbn [upd refs store ui pending set_holdingRef set_chargeRef aliveRef chargeRef].
  destruct aliveRef0;
    cbn [upd refs store ui pending set_holdingRef set_chargeRef set_dashRef
         aliveRef chargeRef dashRef lastRef t0Ref pxRef velRef wavesRef waveIdRef
         scoreRef bestRef streakRef hitsRef nearMissRef holdingRef];
    reflexivity.
Qed.

Lemma onHoldEnd_dash_range (w : World) :
  aliveRef (refs w) = true ->
  0 <= dashRef (refs (onHoldEnd w)) /\ dashRef (refs (onHoldEnd w)) <= 1.6.
Proof.
  intros Ha. unfold onHoldEnd. cbv zeta. rewrite !refs_upd.
  cbn [set_holdingRef aliveRef]. rewrite Ha. rewrite !refs_upd.
  cbn [set_chargeRef set_dashRef dashRef].
  split; [apply clamp_lower | apply clamp_upper; lra].
Qed.

(** C3, as the code has it.  A second [onHoldEnd] in a row leaves everything
    but the dash as the first one left it (the hold flag stays off, the
    charge stays 0).  When the player is not alive the dash is unchanged too,
    so the two calls equal one; when the player is alive the second call
    adds a further 0.35 to the dash, up to the cap 1.6. *)
Theorem second_holdEnd_adds_dash (w : World) :
  exists d,
    onHoldEnd (onHoldEnd w) = upd (set_dashRef d) (onHoldEnd w) /\
    d == (if aliveRef (refs w)
          then Qmin 1.6 (dashRef (refs (onHoldEnd w)) + 0.35)
          else dashRef (refs (onHoldEnd w))).
Proof.
  eexists. split; [apply onHoldEnd_twice|].
  destruct (aliveRef (refs w)) eqn:Ha; [|reflexivity].
  destruct (onHoldEnd_dash_range w Ha) as (Hlo & Hhi).
  set (d1 := dashRef (refs (onHoldEnd w))) in *.
  unfold clamp.
  destruct (Q.min_spec 1.6 (d1 + (0.35 + 0 * 1.2))) as [[? H1]|[? H1]];
    destruct (Q.min_spec 1.6 (d1 + 0.35)) as [[? H2]|[? H2]];
    rewrite H1, H2; rewrite Q.max_r; lra.
Qed.

(** ** Reset *)

Lemma flush_after_setUi (up : UiUpdate) (w : World) :
  ui (flush (setUi up w)) = apply_update up (ui (flush w)).
Proof. unfold flush, setUi. cbn [ui pending]. apply fold_left_app. Qed.

(** C6.  After [reset], from any state: score, streak, hits, near misses,
    dash and charge are 0, the player is alive at position 0.5, the wave
    field is empty, the status the next render commits is LIVE, and best is
    what it was before the reset, in the refs and on screen. *)
Theorem reset_restores (runMsg : option string) (clock : Q) (w : World) :
  let w' := reset runMsg clock w in
  scoreRef (refs w') = 0%Z /\
  streakRef (refs w') = 0%Z /\
  hitsRef (refs w') = 0%Z /\
  nearMissRef (refs w') = 0%Z /\
  dashRef (refs w') = 0 /\
  chargeRef (refs w') = 0 /\
  aliveRef (refs w') = true /\
  pxRef (refs w') = 0.5 /\
  wavesRef (refs w') = [] /\
  status (ui (flush w')) = LIVE /\
  score (ui (flush w')) = 0%Z /\
  streak (ui (flush w')) = 0%Z /\
  bestRef (refs w') = bestRef (refs w) /\
  best (ui (flush w')) = best (ui (flush w)).
Proof.
  cbv zeta. repeat split;
    unfold reset; rewrite flush_after_setUi; reflexivity.
Qed.

(** Within a run the ids of the field are distinct and below the counter. *)
Lemma spawnWave_ids (rnd : Q) (r : Refs) :
  ids_fresh r -> ids_fresh (spawnWave rnd r).
Proof.
  intros (Hlt & Hnd). unfold ids_fresh, spawnWave. cbv zeta.
  cbn [set_wavesRef set_waveIdRef wavesRef waveIdRef]. split.
  - apply Forall_app. split.
    + revert Hlt. apply Forall_impl. intros v Hv. lia.
    + constructor; [cbn; lia | constructor].
  - rewrite map_app. cbn [map id].
    apply NoDup_app; [exact Hnd | constructor; [intros []| constructor] |].
    intros a Ha [Hb | []]. subst a.
    apply in_map_iff in Ha. destruct Ha as (v & Hv & Hin).
    rewrite Forall_forall in Hlt. specialize (Hlt v Hin). lia.
Qed.

Lemma ids_fresh_same_field (r r' : Refs) :
  same_field r r' -> ids_fresh r -> ids_fresh r'.
Proof.
  unfold same_field, ids_fresh. intros (Hw & Hi). rewrite Hw, Hi.
  exact (fun H => H).
Qed.

Lemma step_spawn_ids (rnd : nat -> Q) (r : Refs) :
  ids_fresh r -> ids_fresh (step_spawn rnd r).
Proof.
  intros Hr. unfold step_spawn. cbv zeta.
  set (r1 := if (List.length (wavesRef r) =? 0)%nat then _ else r).
  assert (H1 : ids_fresh r1).
  { unfold r1. destruct (List.length (wavesRef r) =? 0)%nat;
      [apply spawnWave_ids|]; exact Hr. }
  destruct (last_wave (wavesRef r1)) as [l|]; [|exact H1].
  destruct (Qltb (y l) 0.65); [apply spawnWave_ids|]; exact H1.
Qed.

Lemma step_advance_ids (dt : Q) (r : Refs) :
  ids_fresh r -> ids_fresh (step_advance dt r).
Proof.
  intros (Hlt & Hnd). unfold ids_fresh, step_advance.
  cbn [set_wavesRef wavesRef waveIdRef]. split.
  - apply Forall_map. exact Hlt.
  - rewrite map_map. exact Hnd.
Qed.

Lemma NoDup_map_filter {A B : Type} (g : A -> B) (f : A -> bool) (l : list A) :
  NoDup (map g l) -> NoDup (map g (filter f l)).
Proof.
  induction l as [|a l IH]; intros Hnd; [exact Hnd|].
  cbn [map] in Hnd. inversion Hnd as [|? ? Hnotin Hrest]; subst.
  cbn [filter]. destruct (f a); [|apply IH; exact Hrest].
  cbn [map]. constructor; [|apply IH; exact Hrest].
  intros Hin. apply Hnotin.
  apply in_map_iff in Hin. destruct Hin as (x & Hx & Hxin).
  apply in_map_iff. exists x. split; [exact Hx|].
  apply filter_In in Hxin. tauto.
Qed.

Lemma step_prune_ids (r : Refs) : ids_fresh r -> ids_fresh (step_prune r).
Proof.
  intros (Hlt & Hnd). unfold ids_fresh, step_prune.
  cbn [set_wavesRef wavesRef waveIdRef]. split.
  - rewrite Forall_forall in *. intros v Hin.
    apply filter_In in Hin. apply Hlt. tauto.
  - apply NoDup_map_filter. exact Hnd.
Qed.

Lemma tick_ids (now : Q) (rnd : nat -> Q) (w : World) :
  ids_fresh (refs w) -> ids_fresh (refs (tick now rnd w)).
Proof.
  intros Hw. destruct (status (ui w)) eqn:Hs.
  - rewrite tick_frozen by congruence. exact Hw.
  - rewrite (tick_live now rnd w Hs), refs_step_snapshot.
    destruct (step_best_only_best
                (upd step_prune
                   (step_collide (dt_of (lastRef (refs w)) now)
                      (before_collision now rnd w)))) as (b & Hb).
    rewrite Hb. eapply ids_fresh_same_field; [apply set_bestRef_field|].
    rewrite refs_upd. apply step_prune_ids.
    eapply ids_fresh_same_field;
      [apply same_body_field; apply step_collide_body|].
    unfold before_collision. cbv zeta. rewrite !refs_upd.
    apply step_advance_ids, step_spawn_ids.
    eapply ids_fresh_same_field; [apply physics_same_field|].
    exact Hw.
  - rewrite tick_frozen by congruence. exact Hw.
Qed.

Lemma reset_ids (m : option string) (clock : Q) (w : World) :
  ids_fresh (refs (reset m clock w)).
Proof.
  unfold ids_fresh, reset.
  cbn [refs upd setUi set_pxRef set_velRef set_dashRef set_chargeRef
       set_aliveRef set_wavesRef set_waveIdRef set_scoreRef set_streakRef
       set_hitsRef set_nearMissRef set_t0Ref wavesRef waveIdRef map].
  split; constructor.
Qed.

Lemma handle_ids (e : Event) (w : World) :
  ids_fresh (refs w) -> ids_fresh (refs (handle e w)).
Proof.
  intros Hw. destruct e as [now rnd | clock |]; cbn [handle].
  - apply tick_ids. exact Hw.
  - unfold onHoldStart. cbv zeta. rewrite refs_upd.
    eapply ids_fresh_same_field with
      (r := refs (match status (ui w) with
                  | LIVE => w
                  | _ => reset (Some "RUN."%string) clock w
                  end)); [split; reflexivity|].
    destruct (status (ui w)); try apply reset_ids; exact Hw.
  - eapply ids_fresh_same_field; [|exact Hw].
    unfold onHoldEnd. cbv zeta. rewrite !refs_upd.
    destruct (aliveRef (set_holdingRef false (refs w))); split; reflexivity.
Qed.

Lemma run_ids (es : list Event) (w : World) :
  ids_fresh (refs w) -> ids_fresh (refs (run es w)).
Proof.
  revert w. induction es as [|e es IH]; intros w Hw; [exact Hw|].
  change (run (e :: es) w) with (run es (step w e)).
  apply IH. unfold step.
  destruct (render_only_best (handle e w)) as (b & Hb). rewrite Hb.
  eapply ids_fresh_same_field; [apply set_bestRef_field|].
  apply handle_ids. exact Hw.
Qed.

Lemma boot_ids (clock : Q) (st : Storage) : ids_fresh (refs (boot clock st)).
Proof.
  unfold boot. rewrite refs_flush.
  destruct (loadBest_only_best (mkWorld (initial_refs clock) st initial_ui []))
    as (b & Hb).
  rewrite Hb. split; constructor.
Qed.

(** C10.  [reset] also zeroes the velocity and restarts the wave id counter
    at 1, and leaves the hold flag as it was: the refs after a reset are
    fixed by the clock reading and by the three refs [reset] never assigns
    (the last frame time, best, the hold flag).  The next wave spawned gets
    id 1 again, whatever ids earlier runs handed out, while the waves that
    share a field always have distinct ids. *)
Theorem reset_determines_the_state
    (runMsg : option string) (clock rnd : Q) (w : World) :
  let r' := refs (reset runMsg clock w) in
  velRef r' = 0 /\
  waveIdRef r' = 1%Z /\
  holdingRef r' = holdingRef (refs w) /\
  r' = mkRefs (lastRef (refs w)) clock 0.5 0 0 0 true [] 1 0
              (bestRef (refs w)) 0 0 0 (holdingRef (refs w)) /\
  map id (wavesRef (spawnWave rnd r')) = [1%Z] /\
  waveIdRef (spawnWave rnd r') = 2%Z /\
  (forall (c : Q) (st : Storage) (es : list Event),
      NoDup (map id (wavesRef (refs (run es (boot c st)))))).
Proof.
  cbv zeta. repeat split.
  intros c st es. apply (run_ids es (boot c st) (boot_ids c st)).
Qed.

(** ** Scoring a crossing *)

Lemma half_of (q : Q) : q / 2 == q * 0.5.
Proof. field. Qed.

(** C7.  A crossing wave with gap centre 0.5 and gap width 0.2 (the gap is
    [0.4, 0.6]) met by a player at position 0.41 with streak 0 is a HIT with
    a near miss: the score grows by exactly 27 (18, plus 9 for the near
    miss, plus a streak bonus [floor (1 * 0.9) = 0]), the streak becomes 1,
    one near miss and one hit are counted, and no DOWN update is queued. *)
Theorem near_miss_hit_scores_27 (dt : Q) (w : World) (wave : Wave) :
  crossing dt wave = true ->
  gapX wave == 0.5 -> gapW wave == 0.2 ->
  pxRef (refs w) == 0.41 ->
  streakRef (refs w) = 0%Z ->
  let w' := resolve dt w wave in
  scoreRef (refs w') = (scoreRef (refs w) + 27)%Z /\
  streakRef (refs w') = 1%Z /\
  nearMissRef (refs w') = (nearMissRef (refs w) + 1)%Z /\
  hitsRef (refs w') = (hitsRef (refs w) + 1)%Z /\
  aliveRef (refs w') = aliveRef (refs w) /\
  pending w' = pending w.
Proof.
  intros Hc Hx Hw Hp Hs. cbv zeta. unfold resolve. rewrite Hc.
  assert (Hin : inside (pxRef (refs w)) wave = true).
  { unfold inside, gapLeft, gapRight.
    rewrite andb_true_iff, !Qle_bool_iff, !half_of. split; lra. }
  rewrite Hin.
  assert (Hnear : Qltb (Qmin (pxRef (refs w) - gapLeft wave)
                             (gapRight wave - pxRef (refs w))) 0.03 = true).
  { apply Qltb_lt. unfold gapLeft, gapRight.
    eapply Qle_lt_trans; [apply Q.le_min_l|].
    rewrite half_of. lra. }
  rewrite Hnear.
  destruct w as [r st u q]. destruct r.
  cbn [refs] in Hs. cbn [streakRef] in Hs. subst.
  cbn [upd setUi refs store ui pending set_hitsRef set_streakRef set_nearMissRef
       set_scoreRef aliveRef scoreRef streakRef hitsRef nearMissRef].
  repeat split. change (Qfloor (inject_Z (0 + 1) * 0.9)) with 0%Z. lia.
Qed.

(** ** Persistence *)

Lemma resolve_set_store (dt : Q) (st : Storage) (w : World) (wave : Wave) :
  resolve dt (set_store st w) wave = set_store st (resolve dt w wave).
Proof.
  unfold resolve. destruct (crossing dt wave); [|reflexivity].
  cbn [set_store refs].
  destruct (inside (pxRef (refs w)) wave); [|reflexivity].
  destruct (Qltb _ 0.03); reflexivity.
Qed.

Lemma collide_set_store (dt : Q) (st : Storage) (ws : list Wave) (w : World) :
  fold_left (resolve dt) ws (set_store st w) =
  set_store st (fold_left (resolve dt) ws w).
Proof.
  revert w. induction ws as [|wave ws IH]; intros w; [reflexivity|].
  cbn [fold_left]. rewrite resolve_set_store. apply IH.
Qed.

Lemma refs_set_store (st : Storage) (w : World) : refs (set_store st w) = refs w.
Proof. reflexivity. Qed.

Lemma upd_set_store (f : Refs -> Refs) (st : Storage) (w : World) :
  upd f (set_store st w) = set_store st (upd f w).
Proof. reflexivity. Qed.

Lemma step_collide_set_store (dt : Q) (st : Storage) (w : World) :
  step_collide dt (set_store st w) = set_store st (step_collide dt w).
Proof. unfold step_collide. rewrite refs_set_store. apply collide_set_store. Qed.

Lemma before_collision_set_store
    (now : Q) (rnd : nat -> Q) (st : Storage) (w : World) :
  before_collision now rnd (set_store st w) =
  set_store st (before_collision now rnd w).
Proof.
  unfold before_collision, upd, set_store. cbv zeta.
  cbn [refs store ui pending]. reflexivity.
Qed.

Lemma step_best_any_store (st : Storage) (w : World) :
  refs (step_best (set_store st w)) = refs (step_best w) /\
  ui (step_best (set_store st w)) = ui (step_best w) /\
  pending (step_best (set_store st w)) = pending (step_best w).
Proof.
  unfold step_best. cbn [set_store refs].
  destruct (Qltb (bestRef (refs w)) (inject_Z (scoreRef (refs w))));
    [|repeat split].
  destruct (setItem _ (store (upd _ (set_store st w))));
    destruct (setItem _ (store (upd _ w))); repeat split.
Qed.

Lemma step_best_throwing (w : World) :
  set_throws (store w) = true -> store (step_best w) = store w.
Proof.
  intros Ht. unfold step_best.
  destruct (Qltb _ _); [|reflexivity].
  unfold setItem. rewrite store_upd, Ht. reflexivity.
Qed.

Lemma tick_any_store (now : Q) (rnd : nat -> Q) (st : Storage) (w : World) :
  refs (tick now rnd (set_store st w)) = refs (tick now rnd w) /\
  ui (tick now rnd (set_store st w)) = ui (tick now rnd w) /\
  pending (tick now rnd (set_store st w)) = pending (tick now rnd w).
Proof.
  destruct (status (ui w)) eqn:Hs.
  - rewrite !tick_frozen by (cbn [set_store ui]; congruence). repeat split.
  - rewrite !tick_live by (cbn [set_store ui]; exact Hs).
    rewrite before_collision_set_store.
    rewrite refs_set_store, step_collide_set_store, upd_set_store.
    generalize (upd step_prune
                  (step_collide (dt_of (lastRef (refs w)) now)
                     (before_collision now rnd w))).
    intros v.
    destruct (step_best_any_store st v) as (A & B & C).
    unfold step_snapshot. cbv zeta. cbn [setUi refs ui pending].
    rewrite A, B, C. repeat split.
  - rewrite !tick_frozen by (cbn [set_store ui]; congruence). repeat split.
Qed.

Lemma store_step_snapshot (now : Q) (w : World) :
  store (step_snapshot now w) = store w.
Proof. reflexivity. Qed.

Lemma tick_store_throwing (now : Q) (rnd : nat -> Q) (w : World) :
  set_throws (store w) = true -> store (tick now rnd w) = store w.
Proof.
  intros Ht. destruct (status (ui w)) eqn:Hs.
  - rewrite tick_frozen by congruence. reflexivity.
  - rewrite tick_live by exact Hs.
    destruct (step_collide_body (dt_of (lastRef (refs w)) now)
                (before_collision now rnd w)) as (_ & Hst & _).
    destruct (before_collision_tally now rnd w) as (_ & Hb & _).
    rewrite store_step_snapshot, step_best_throwing;
      rewrite store_upd, Hst, Hb; [reflexivity | exact Ht].
  - rewrite tick_frozen by congruence. reflexivity.
Qed.

(** The storage accesses are guarded.  The effect's read: a missing item
    gives best 0, an item whose [Number] is not finite gives best 0, and a
    throwing [getItem] leaves the world as it was.  The tick's write: when
    [setItem] throws the storage is left as it was, and the refs, the [ui]
    and the queued updates of the tick are what they are with any other
    storage, one whose writes succeed included. *)
Lemma storage_failures_are_caught
    (now : Q) (rnd : nat -> Q) (w : World) :
  JS_Number "0" = Fin 0 ->
  (get_throws (store w) = false -> item (store w) = None ->
   bestRef (refs (loadBest w)) = 0) /\
  (forall s, get_throws (store w) = false -> item (store w) = Some s ->
             isFinite (JS_Number s) = false ->
             bestRef (refs (loadBest w)) = 0) /\
  (get_throws (store w) = true -> loadBest w = w) /\
  (set_throws (store w) = true ->
   store (tick now rnd w) = store w /\
   forall st, refs (tick now rnd w) = refs (tick now rnd (set_store st w)) /\
              ui (tick now rnd w) = ui (tick now rnd (set_store st w)) /\
              pending (tick now rnd w) = pending (tick now rnd (set_store st w))).
Proof.
  intros Hzero. repeat split.
  - intros Hg Hi. unfold loadBest, getItem. rewrite Hg, Hi, Hzero. reflexivity.
  - intros s Hg Hi Hf. unfold loadBest, getItem. rewrite Hg, Hi.
    cbv zeta. cbn [setUi upd refs set_bestRef bestRef]. rewrite Hf. reflexivity.
  - intros Hg. unfold loadBest, getItem. rewrite Hg. reflexivity.
  - apply tick_store_throwing. assumption.
  - symmetry. apply tick_any_store.
  - symmetry. apply tick_any_store.
  - symmetry. apply tick_any_store.
Qed.

(** ** Best *)

Lemma step_best_spec (w : World) :
  bestRef (refs (step_best w)) =
    (if Qltb (bestRef (refs w)) (inject_Z (scoreRef (refs w)))
     then inject_Z (scoreRef (refs w)) else bestRef (refs w)) /\
  scoreRef (refs (step_best w)) = scoreRef (refs w).
Proof.
  unfold step_best.
  destruct (Qltb (bestRef (refs w)) (inject_Z (scoreRef (refs w))));
    [|split; reflexivity].
  destruct (setItem _ _); split; reflexivity.
Qed.

(** In a live tick best becomes the score exactly when the score, after the
    collisions of the tick, exceeds it; otherwise it is unchanged. *)
Lemma tick_best_update (now : Q) (rnd : nat -> Q) (w : World) :
  status (ui w) = LIVE ->
  bestRef (refs (tick now rnd w)) =
  (if Qltb (bestRef (refs w)) (inject_Z (scoreRef (refs (tick now rnd w))))
   then inject_Z (scoreRef (refs (tick now rnd w)))
   else bestRef (refs w)).
Proof.
  intros Hlive. rewrite (tick_live now rnd w Hlive), refs_step_snapshot.
  destruct (step_collide_body (dt_of (lastRef (refs w)) now)
              (before_collision now rnd w))
    as ((_ & _ & _ & _ & _ & _ & _ & _ & Hb & _) & _).
  destruct (before_collision_tally now rnd w) as ((_ & _ & Hb0 & _) & _).
  revert Hb.
  generalize (step_collide (dt_of (lastRef (refs w)) now)
                (before_collision now rnd w)).
  intros v Hb.
  destruct (step_best_spec (upd step_prune v)) as (A & B).
  rewrite A, B, refs_upd.
  destruct (step_prune_tally (refs v)) as (_ & Hs & Hb1 & _).
  rewrite Hs, Hb1, Hb, Hb0. reflexivity.
Qed.

Lemma tick_best_monotone (now : Q) (rnd : nat -> Q) (w : World) :
  bestRef (refs w) <= bestRef (refs (tick now rnd w)).
Proof.
  destruct (status (ui w)) eqn:Hs.
  - rewrite tick_frozen by congruence. apply Qle_refl.
  - rewrite (tick_best_update now rnd w Hs).
    destruct (Qltb _ _) eqn:E; [|apply Qle_refl].
    apply Qltb_lt in E. apply Qlt_le_weak. exact E.
  - rewrite tick_frozen by congruence. apply Qle_refl.
Qed.

Lemma onHoldStart_best (clock : Q) (w : World) :
  bestRef (refs (onHoldStart clock w)) = bestRef (refs w).
Proof.
  unfold onHoldStart. cbv zeta. rewrite refs_upd. cbn [set_holdingRef bestRef].
  destruct (status (ui w)); reflexivity.
Qed.

Lemma onHoldEnd_best (w : World) :
  bestRef (refs (onHoldEnd w)) = bestRef (refs w).
Proof.
  unfold onHoldEnd. cbv zeta. rewrite !refs_upd.
  destruct (aliveRef (set_holdingRef false (refs w))); reflexivity.
Qed.

(** No handler lowers best: a tick only raises it, the pointer handlers and
    [reset] leave it alone. *)
Lemma handle_best_monotone (e : Event) (w : World) :
  bestRef (refs w) <= bestRef (refs (handle e w)).
Proof.
  destruct e as [now rnd | clock |]; cbn [handle].
  - apply tick_best_monotone.
  - rewrite onHoldStart_best. apply Qle_refl.
  - rewrite onHoldEnd_best. apply Qle_refl.
Qed.

Lemma step_frame (now : Q) (rnd : nat -> Q) (w : World) :
  step w (Frame now rnd) = render (tick now rnd w).
Proof. reflexivity. Qed.

Lemma ui_step_snapshot (now : Q) (w : World) : ui (step_snapshot now w) = ui w.
Proof. reflexivity. Qed.

Lemma ui_tick (now : Q) (rnd : nat -> Q) (w : World) :
  ui (tick now rnd w) = ui w.
Proof.
  destruct (status (ui w)) eqn:Hs.
  - rewrite tick_frozen by congruence. apply ui_upd.
  - rewrite (tick_live now rnd w Hs), ui_step_snapshot, ui_step_best, ui_upd.
    destruct (step_collide_body (dt_of (lastRef (refs w)) now)
                (before_collision now rnd w)) as (_ & _ & Hu).
    rewrite Hu.
    destruct (before_collision_tally now rnd w) as (_ & _ & Hu0 & _).
    exact Hu0.
  - rewrite tick_frozen by congruence. apply ui_upd.
Qed.

(** The render that commits a new status runs the effect again, and with it
    the best load: when the storage holds no item, best is 0 afterwards. *)
Lemma reload_overwrites_best (w : World) :
  JS_Number "0" = Fin 0 ->
  status (ui (flush w)) <> status (ui w) ->
  get_throws (store w) = false -> item (store w) = None ->
  bestRef (refs (render w)) = 0.
Proof.
  intros Hzero Hst Hg Hi. unfold render. cbv zeta.
  destruct (Status_eqb (status (ui (flush w))) (status (ui w))) eqn:E.
  - exfalso. apply Hst.
    destruct (status (ui (flush w))), (status (ui w)); cbn in E;
      congruence.
  - rewrite refs_flush. unfold loadBest, getItem.
    rewrite store_flush, Hg, Hi, Hzero. reflexivity.
Qed.

(** Where best is lost.  A live run whose storage has no item and throws on
    every write keeps its best in memory only.  The frame in which a wave
    misses commits the status DOWN, the effect runs again, reads the
    storage, and best, whatever the run had reached, is 0. *)
Lemma failed_write_loses_best (now : Q) (rnd : nat -> Q) (w : World) :
  JS_Number "0" = Fin 0 ->
  status (ui w) = LIVE ->
  get_throws (store w) = false -> set_throws (store w) = true ->
  item (store w) = None ->
  (1 <= misses (dt_of (lastRef (refs w)) now)
               (pxRef (refs (before_collision now rnd w)))
               (wavesRef (refs (before_collision now rnd w))))%nat ->
  bestRef (refs (step w (Frame now rnd))) = 0.
Proof.
  intros Hzero Hlive Hg Hs Hi Hmiss.
  destruct (live_tick_outcome now rnd w Hlive) as (_ & _ & Hdown).
  destruct (Hdown Hmiss) as (_ & Hst).
  rewrite step_frame in Hst |- *. rewrite render_status in Hst.
  pose proof (tick_store_throwing now rnd w Hs) as Hstore.
  apply reload_overwrites_best.
  - exact Hzero.
  - rewrite Hst, ui_tick, Hlive. discriminate.
  - rewrite Hstore. exact Hg.
  - rewrite Hstore. exact Hi.
Qed.

(** *** With a storage whose writes succeed, best never decreases *)

Lemma set_bestRef_same (r : Refs) : set_bestRef (bestRef r) r = r.
Proof. destruct r. reflexivity. Qed.

Lemma loadBest_agrees (w : World) :
  store_agrees w ->
  refs (loadBest w) = refs w /\ store (loadBest w) = store w.
Proof.
  intros (_ & [Hg | Hl]); unfold loadBest, getItem.
  - rewrite Hg. split; reflexivity.
  - destruct (get_throws (store w)); [split; reflexivity|].
    cbv zeta. cbn [setUi upd refs store].
    fold (loaded (store w)). rewrite Hl, set_bestRef_same. split; reflexivity.
Qed.

Lemma flush_agrees (w : World) : store_agrees w -> store_agrees (flush w).
Proof. exact (fun H => H). Qed.

Lemma render_agrees (w : World) :
  store_agrees w ->
  refs (render w) = refs w /\ store (render w) = store w.
Proof.
  intros Hw. unfold render. cbv zeta.
  destruct (Status_eqb _ _); [split; reflexivity|].
  rewrite refs_flush, store_flush.
  destruct (loadBest_agrees (flush w) (flush_agrees w Hw)) as (A & B).
  rewrite A, B. split; reflexivity.
Qed.

Lemma step_best_agrees (w : World) :
  (forall z, JS_Number (JS_String (inject_Z z)) = Fin (inject_Z z)) ->
  store_agrees w -> store_agrees (step_best w).
Proof.
  intros Hrt (Hs & Hl). unfold step_best.
  destruct (Qltb (bestRef (refs w)) (inject_Z (scoreRef (refs w))));
    [|split; assumption].
  unfold setItem. rewrite store_upd, Hs. unfold store_agrees.
  cbn [set_store store set_throws get_throws refs upd set_bestRef bestRef].
  split; [reflexivity|].
  right. unfold loaded. cbn [item]. rewrite Hrt. reflexivity.
Qed.

Lemma store_agrees_snapshot (now : Q) (w : World) :
  store_agrees w -> store_agrees (step_snapshot now w).
Proof.
  unfold store_agrees. rewrite store_step_snapshot, refs_step_snapshot.
  exact (fun H => H).
Qed.

Lemma tick_agrees (now : Q) (rnd : nat -> Q) (w : World) :
  (forall z, JS_Number (JS_String (inject_Z z)) = Fin (inject_Z z)) ->
  store_agrees w -> store_agrees (tick now rnd w).
Proof.
  intros Hrt Hw. destruct (status (ui w)) eqn:Hs.
  - rewrite tick_frozen by congruence. exact Hw.
  - rewrite (tick_live now rnd w Hs).
    apply store_agrees_snapshot.
    apply step_best_agrees; [exact Hrt|].
    destruct (step_collide_body (dt_of (lastRef (refs w)) now)
                (before_collision now rnd w))
      as ((_ & _ & _ & _ & _ & _ & _ & _ & Hb & _) & Hst & _).
    destruct (before_collision_tally now rnd w)
      as ((_ & _ & Hb0 & _) & Hst0 & _).
    unfold store_agrees. rewrite store_upd, refs_upd, Hst, Hst0.
    destruct (step_prune_tally
                (refs (step_collide (dt_of (lastRef (refs w)) now)
                         (before_collision now rnd w)))) as (_ & _ & Hb1 & _).
    rewrite Hb1, Hb, Hb0. exact Hw.
  - rewrite tick_frozen by congruence. exact Hw.
Qed.

Lemma handle_agrees (e : Event) (w : World) :
  (forall z, JS_Number (JS_String (inject_Z z)) = Fin (inject_Z z)) ->
  store_agrees w -> store_agrees (handle e w).
Proof.
  intros Hrt Hw. destruct e as [now rnd | clock |]; cbn [handle].
  - apply tick_agrees; assumption.
  - unfold store_agrees. rewrite onHoldStart_best.
    replace (store (onHoldStart clock w)) with (store w); [exact Hw|].
    unfold onHoldStart. cbv zeta. rewrite store_upd.
    destruct (status (ui w)); reflexivity.
  - unfold store_agrees. rewrite onHoldEnd_best.
    replace (store (onHoldEnd w)) with (store w); [exact Hw|].
    unfold onHoldEnd. cbv zeta. rewrite !store_upd.
    destruct (aliveRef _); reflexivity.
Qed.

Lemma step_agrees (w : World) (e : Event) :
  (forall z, JS_Number (JS_String (inject_Z z)) = Fin (inject_Z z)) ->
  store_agrees w ->
  store_agrees (step w e) /\ bestRef (refs w) <= bestRef (refs (step w e)).
Proof.
  intros Hrt Hw. unfold step.
  pose proof (handle_agrees e w Hrt Hw) as Hh.
  destruct (render_agrees (handle e w) Hh) as (A & B).
  split.
  - unfold store_agrees. rewrite A, B. exact Hh.
  - rewrite A. apply handle_best_monotone.
Qed.

Lemma boot_agrees (clock : Q) (st : Storage) :
  set_throws st = false -> store_agrees (boot clock st).
Proof.
  intros Hs. unfold boot, store_agrees. rewrite refs_flush, store_flush.
  unfold loadBest, getItem. cbn [store].
  destruct (get_throws st) eqn:Hg; cbn [store refs].
  - split; [exact Hs | left; exact Hg].
  - cbv zeta. cbn [setUi upd store refs set_bestRef bestRef].
    split; [exact Hs | right; reflexivity].
Qed.

(** The part of C4 the code keeps: when writes to the storage succeed and
    [Number] reads back what [String] printed, best never decreases along
    any run of the page, resets and re-run effects included. *)
Lemma best_monotone_with_working_storage
    (clock : Q) (st : Storage) (es more : list Event) :
  (forall z, JS_Number (JS_String (inject_Z z)) = Fin (inject_Z z)) ->
  set_throws st = false ->
  bestRef (refs (run es (boot clock st))) <=
  bestRef (refs (run (es ++ more) (boot clock st))).
Proof.
  intros Hrt Hs. unfold run. rewrite fold_left_app.
  pose proof (boot_agrees clock st Hs) as H0.
  assert (Hes : store_agrees (fold_left step es (boot clock st))).
  { revert H0. generalize (boot clock st).
    induction es as [|e es IH]; intros w Hw; [exact Hw|].
    cbn [fold_left]. apply IH. apply step_agrees; assumption. }
  revert Hes. generalize (fold_left step es (boot clock st)).
  induction more as [|e more IH]; intros w Hw; [apply Qle_refl|].
  cbn [fold_left].
  destruct (step_agrees w e Hrt Hw) as (Hag & Hle).
  eapply Qle_trans; [exact Hle | apply IH; exact Hag].
Qed.

End PageFacts.

(** ** The theorems on concrete inputs *)

(** The rational host reads the default item as 0. *)
Lemma rational_host_reads_zero : @JS_Number rational_host "0" = Fin 0.
Proof. reflexivity. Qed.

(** The collision loop has no guard of its own.  On [crowded_world], a
    field the page never builds, three waves cross in the frame at 1016 ms:
    the first two miss and the tick queues two DOWN updates, one per wave,
    and the third is still resolved after them and scores a hit for a
    player already down.  What keeps this from happening is the pacing of
    the field, not the loop. *)
Lemma unpaced_field_queues_two_downs :
  status (ui crowded_world) = LIVE /\
  pending crowded_world = [] /\
  count_down (pending (tick 1016 (always 0.5) crowded_world)) = 2%nat /\
  aliveRef (refs (tick 1016 (always 0.5) crowded_world)) = false /\
  hitsRef (refs (tick 1016 (always 0.5) crowded_world)) =
    (hitsRef (refs crowded_world) + 1)%Z /\
  scoreRef (refs (tick 1016 (always 0.5) crowded_world)) =
    (scoreRef (refs crowded_world) + 18)%Z.
Proof. vm_compute. repeat split. Qed.

(** C3, as the spec states it, fails: in a live run, after a hold, a frame
    and a release, the input is not held; one more [onHoldEnd] leaves the
    dash at 0.7, two more leave it at 1.05. *)
Lemma second_holdEnd_changes_dash :
  let w := run [HoldStart 0; Frame 16 (always 0.5); HoldEnd]
               (boot 0 write_failing_storage) in
  holdingRef (refs w) = false /\
  dashRef (refs (onHoldEnd w)) == 0.7 /\
  dashRef (refs (onHoldEnd (onHoldEnd w))) == 1.05 /\
  onHoldEnd (onHoldEnd w) <> onHoldEnd w.
Proof.
  cbv zeta. repeat split.
  intros H. apply (f_equal (fun v => dashRef (refs v))) in H.
  vm_compute in H. discriminate H.
Qed.

(** C4, on the code.  [mid_run_world] is a live run that has scored 18 and
    holds best 18 in memory, every write having thrown.  The frame at
    2755 ms, in which the second wave misses, commits the status DOWN; the
    effect runs again and reads the empty storage: best is 0, below the
    score still on the board. *)
Theorem best_drops_after_failed_write :
  status (ui mid_run_world) = LIVE /\
  bestRef (refs mid_run_world) == 18 /\
  status (ui (step mid_run_world (Frame 2755 (always 0)))) = DOWN /\
  scoreRef (refs (step mid_run_world (Frame 2755 (always 0)))) = 18%Z /\
  bestRef (refs (step mid_run_world (Frame 2755 (always 0)))) == 0 /\
  best (ui (step mid_run_world (Frame 2755 (always 0)))) == 0.
Proof. vm_compute. repeat split. Qed.

(** The same frame, through the general lemma. *)
Lemma failed_write_loses_best_example :
  bestRef (refs (step mid_run_world (Frame 2755 (always 0)))) = 0.
Proof.
  apply (failed_write_loses_best 2755 (always 0) mid_run_world);
    reflexivity.
Qed.

(** A wave falling through four ticks of uneven length. *)
Lemma crossing_fires_at_most_once_witness :
  Forall (fun dt => 0 <= dt) uneven_ticks /\
  (crossings uneven_ticks falling_wave <= 1)%nat.
Proof.
  assert (H : Forall (fun dt => 0 <= dt) uneven_ticks)
    by (repeat constructor; discriminate).
  split; [exact H|].
  apply (crossing_fires_at_most_once falling_wave _ H).
Defined.

(** The wave of the witness does cross, in its fourth tick. *)
Lemma crossing_fires_once_example :
  crossings uneven_ticks falling_wave = 1%nat /\
  crossings (firstn 2 uneven_ticks) falling_wave = 0%nat.
Proof. vm_compute. split; reflexivity. Qed.

(** The scenario of the spec: from score 0 to 27. *)
Lemma near_miss_hit_scores_27_witness :
  crossing 0.016 near_miss_wave = true /\
  scoreRef (refs (resolve 0.016 near_miss_world near_miss_wave)) = 27%Z /\
  streakRef (refs (resolve 0.016 near_miss_world near_miss_wave)) = 1%Z /\
  nearMissRef (refs (resolve 0.016 near_miss_world near_miss_wave)) = 1%Z.
Proof.
  split; [reflexivity|].
  destruct (near_miss_hit_scores_27 0.016 near_miss_world
              near_miss_wave)
    as (Hscore & Hstreak & Hnear & _); try reflexivity.
  split; [exact Hscore | split; [exact Hstreak | exact Hnear]].
Defined.

(** Two releases in a row, under a monotonic clock. *)
Lemma dash_never_exceeds_cap_witness :
  timestamps_from 0 release_twice /\
  0 <= dashRef (refs (run release_twice (boot 0 write_failing_storage))) /\
  dashRef (refs (run release_twice (boot 0 write_failing_storage))) <= 1.6.
Proof.
  assert (H : timestamps_from 0 release_twice)
    by (cbn; repeat split; discriminate).
  split; [exact H|].
  apply (dash_never_exceeds_cap 0 write_failing_storage release_twice H).
Defined.

(** The clock matters for the cap: a frame stamped before the previous one
    has a negative [dt], and the decay then raises a dash of 1.6 to the
    clamp's own bound 2.  [requestAnimationFrame] never delivers such a
    frame. *)
Lemma backwards_frame_raises_dash :
  let w := mkWorld (mkRefs 2000 0 0.5 0 1.6 0 true [] 1 0 0 0 0 0 false)
                   write_failing_storage
                   (mkUi 0 0 0 LIVE "RUN." 0 1) [] in
  dashRef (refs w) == 1.6 /\
  dt_of (lastRef (refs w)) 1000 == -1 /\
  dashRef (refs (tick 1000 (always 0.5) w)) == 2.
Proof. vm_compute. repeat split. Qed.

(** * More of the page *)

Section PageMore.

Context {host : Host}.

(** ** [clamp] *)

(** X1.  With bounds in order, [clamp n a b] is [n] itself inside [a, b],
    [a] below it and [b] above it; the result is always in [a, b]. *)
Theorem clamp_spec (n a b : Q) :
  a <= b ->
  (a <= clamp n a b /\ clamp n a b <= b) /\
  (a <= n -> n <= b -> clamp n a b == n) /\
  (n <= a -> clamp n a b == a) /\
  (b <= n -> clamp n a b == b).
Proof.
  intros Hab. repeat split.
  - apply clamp_lower.
  - apply clamp_upper. exact Hab.
  - apply clamp_inside.
  - intros Hn. unfold clamp. apply Q.max_l.
    eapply Qle_trans; [apply Q.le_min_r | exact Hn].
  - apply clamp_above. exact Hab.
Qed.

(** ** Spawning *)

Lemma spawnWave_pushes (rnd : Q) (r : Refs) :
  wavesRef (spawnWave rnd r) = wavesRef r ++ [spawned rnd r] /\
  waveIdRef (spawnWave rnd r) = (waveIdRef r + 1)%Z.
Proof. split; reflexivity. Qed.

Lemma last_wave_app (l : list Wave) (v : Wave) : last_wave (l ++ [v]) = Some v.
Proof.
  unfold last_wave. rewrite length_app. cbn [List.length].
  replace (List.length l + 1 - 1)%nat with (List.length l + 0)%nat by lia.
  rewrite nth_error_app2 by lia.
  replace (List.length l + 0 - List.length l)%nat with 0%nat by lia.
  reflexivity.
Qed.

Lemma last_wave_some (l : list Wave) (v : Wave) :
  last_wave l = Some v -> exists l', l = l' ++ [v].
Proof.
  intros H. destruct (exists_last (l := l)) as (l' & x & Hl).
  - intros Hnil. subst l. discriminate H.
  - subst l. rewrite last_wave_app in H. injection H as ->.
    exists l'. reflexivity.
Qed.

Lemma last_wave_none (l : list Wave) : last_wave l = None -> l = [].
Proof.
  destruct l as [|a l]; [reflexivity|]. intros H. exfalso.
  destruct (exists_last (l := a :: l)) as (l' & x & Hl); [discriminate|].
  rewrite Hl, last_wave_app in H. discriminate.
Qed.

Lemma spawnWave_last (rnd : Q) (r : Refs) :
  last_wave (wavesRef (spawnWave rnd r)) = Some (spawned rnd r).
Proof.
  destruct (spawnWave_pushes rnd r) as (Hw & _). rewrite Hw.
  apply last_wave_app.
Qed.

Lemma clamp_monotone (n m a b : Q) : n <= m -> clamp n a b <= clamp m a b.
Proof.
  intros Hnm. unfold clamp.
  apply Q.max_le_compat_l. apply Q.min_le_compat_l. exact Hnm.
Qed.

Lemma inject_Z_le (x z : Z) : (x <= z)%Z -> inject_Z x <= inject_Z z.
Proof. intros H. rewrite <- Zle_Qle. exact H. Qed.

(** X2.  Difficulty follows the score: of two spawns, the one at the higher
    score has the narrower (or equal) gap and the faster (or equal) wave. *)
Theorem spawn_difficulty_monotone
    (rnd1 rnd2 : Q) (r1 r2 : Refs) (v1 v2 : Wave) :
  (scoreRef r1 <= scoreRef r2)%Z ->
  last_wave (wavesRef (spawnWave rnd1 r1)) = Some v1 ->
  last_wave (wavesRef (spawnWave rnd2 r2)) = Some v2 ->
  gapW v2 <= gapW v1 /\ speed v1 <= speed v2.
Proof.
  intros Hs H1 H2. rewrite spawnWave_last in H1, H2.
  injection H1 as <-. injection H2 as <-.
  apply inject_Z_le in Hs. unfold spawned. cbn [gapW speed].
  split; apply clamp_monotone; lra.
Qed.

(** X3.  Difficulty saturates: a wave spawned at score 0 or below has the
    widest gap 0.26 and the lowest speed 0.35; from score 234 on the gap is
    the narrowest, 0.12, and from score 5334 on the speed is the highest,
    1.15. *)
Theorem spawn_difficulty_saturates (rnd : Q) (r : Refs) (v : Wave) :
  last_wave (wavesRef (spawnWave rnd r)) = Some v ->
  ((scoreRef r <= 0)%Z -> gapW v == 0.26 /\ speed v == 0.35) /\
  ((234 <= scoreRef r)%Z -> gapW v == 0.12) /\
  ((5334 <= scoreRef r)%Z -> speed v == 1.15).
Proof.
  intros Hv. rewrite spawnWave_last in Hv. injection Hv as <-.
  unfold spawned. cbn [gapW speed].
  split; [|split]; intros H; apply inject_Z_le in H.
  - change (inject_Z 0) with 0 in H. split.
    + apply clamp_above; lra.
    + unfold clamp. rewrite Q.min_r by lra. apply Q.max_l. lra.
  - change (inject_Z 234) with 234 in H.
    unfold clamp. rewrite Q.min_r by lra. apply Q.max_l. lra.
  - change (inject_Z 5334) with 5334 in H.
    apply clamp_above; lra.
Qed.

Lemma spawned_gap (rnd : Q) (r : Refs) :
  unit_random rnd ->
  gapX (spawned rnd r) == 0.15 + rnd * 0.70 /\
  0.02 <= gapLeft (spawned rnd r) /\ gapRight (spawned rnd r) < 0.98.
Proof.
  intros (Hlo & Hhi).
  assert (Hx : gapX (spawned rnd r) == 0.15 + rnd * 0.70).
  { unfold spawned. cbn [gapX]. apply clamp_inside; lra. }
  assert (Hw : 0.12 <= gapW (spawned rnd r) /\ gapW (spawned rnd r) <= 0.26).
  { unfold spawned. cbn [gapW].
    split; [apply clamp_lower | apply clamp_upper; lra]. }
  split; [exact Hx|].
  unfold gapLeft, gapRight. rewrite !half_of. split; lra.
Qed.

(** X4.  With a random number in [0, 1) the clamp on the gap centre never
    acts: the centre is [0.15 + 0.7 * rnd], and the whole gap lies inside the
    arena, at least 0.02 away from either wall. *)
Theorem spawn_gap_inside_arena (rnd : Q) (r : Refs) (v : Wave) :
  unit_random rnd ->
  last_wave (wavesRef (spawnWave rnd r)) = Some v ->
  gapX v == 0.15 + rnd * 0.70 /\
  0.02 <= gapLeft v /\ gapRight v < 0.98.
Proof.
  intros Hr Hv. rewrite spawnWave_last in Hv. injection Hv as <-.
  apply spawned_gap. exact Hr.
Qed.

Lemma step_spawn_cases (rnd : nat -> Q) (r : Refs) :
  (wavesRef r = [] /\ step_spawn rnd r = spawnWave (rnd 0%nat) r) \/
  (exists l, last_wave (wavesRef r) = Some l /\ y l < 0.65 /\
             step_spawn rnd r = spawnWave (rnd 0%nat) r) \/
  (exists l, last_wave (wavesRef r) = Some l /\ 0.65 <= y l /\
             step_spawn rnd r = r).
Proof.
  unfold step_spawn. cbv zeta.
  destruct (wavesRef r) as [|a l] eqn:Hw.
  - left. split; [reflexivity|].
    cbn [List.length Nat.eqb]. rewrite spawnWave_last.
    unfold spawned at 1. cbn [y].
    replace (Qltb 1.15 0.65) with false by reflexivity. reflexivity.
  - right. cbn [List.length Nat.eqb]. rewrite Hw.
    destruct (last_wave (a :: l)) as [v|] eqn:Hl.
    + destruct (Qltb (y v) 0.65) eqn:Hy.
      * left. exists v. apply Qltb_lt in Hy. repeat split; assumption.
      * right. exists v. apply Qltb_ge in Hy. repeat split; assumption.
    + apply last_wave_none in Hl. discriminate Hl.
Qed.

Lemma spawn_policy_cases_field (rnd : nat -> Q) (r : Refs) :
  wavesRef (step_spawn rnd r) = wavesRef r \/
  wavesRef (step_spawn rnd r) = wavesRef r ++ [spawned (rnd 0%nat) r].
Proof.
  destruct (step_spawn_cases rnd r)
    as [(Hw & Hs) | [(l & Hl & Hy & Hs) | (l & Hl & Hy & Hs)]]; rewrite Hs.
  - right. apply spawnWave_pushes.
  - right. apply spawnWave_pushes.
  - left. reflexivity.
Qed.

Lemma spawn_policy_last (rnd : nat -> Q) (r : Refs) :
  exists l, last_wave (wavesRef (step_spawn rnd r)) = Some l /\ 0.65 <= y l.
Proof.
  destruct (step_spawn_cases rnd r)
    as [(Hw & Hs) | [(l & Hl & Hy & Hs) | (l & Hl & Hy & Hs)]]; rewrite Hs.
  - exists (spawned (rnd 0%nat) r). split; [apply spawnWave_last|].
    unfold spawned. cbn [y]. lra.
  - exists (spawned (rnd 0%nat) r). split; [apply spawnWave_last|].
    unfold spawned. cbn [y]. lra.
  - exists l. split; assumption.
Qed.

(** X5.  The spawn policy of a tick: at most one wave is spawned, with the
    first random number of the tick, and after the spawning the field is
    not empty and its newest wave is at height 0.65 or above. *)
Theorem one_spawn_per_tick (rnd : nat -> Q) (r : Refs) :
  (wavesRef (step_spawn rnd r) = wavesRef r \/
   wavesRef (step_spawn rnd r) = wavesRef r ++ [spawned (rnd 0%nat) r]) /\
  exists l, last_wave (wavesRef (step_spawn rnd r)) = Some l /\ 0.65 <= y l.
Proof.
  destruct (step_spawn_cases rnd r)
    as [(Hw & Hs) | [(l & Hl & Hy & Hs) | (l & Hl & Hy & Hs)]]; rewrite Hs.
  - split; [right; apply spawnWave_pushes|].
    exists (spawned (rnd 0%nat) r). split; [apply spawnWave_last|].
    unfold spawned. cbn [y]. lra.
  - split; [right; apply spawnWave_pushes|].
    exists (spawned (rnd 0%nat) r). split; [apply spawnWave_last|].
    unfold spawned. cbn [y]. lra.
  - split; [left; reflexivity|]. exists l. split; assumption.
Qed.

(** ** Invariants of the field *)

(** A property of waves that every spawn establishes (for random numbers
    satisfying [R]) and every advance preserves holds of every wave of every
    field. *)
Lemma step_spawn_field (R : Q -> Prop) (P : Wave -> Prop)
    (rnd : nat -> Q) (r : Refs) :
  (forall x r', R x -> P (spawned x r')) ->
  (forall k, R (rnd k)) ->
  Forall P (wavesRef r) -> Forall P (wavesRef (step_spawn rnd r)).
Proof.
  intros Hsp HR Hr.
  destruct (spawn_policy_cases_field rnd r) as [Hw | Hw]; rewrite Hw;
    [exact Hr|].
  apply Forall_app. split; [exact Hr|].
  constructor; [apply Hsp, HR | constructor].
Qed.

Lemma tick_field (R : Q -> Prop) (P : Wave -> Prop)
    (now : Q) (rnd : nat -> Q) (w : World) :
  (forall x r', R x -> P (spawned x r')) ->
  (forall dt v, P v -> P (advance dt v)) ->
  (forall k, R (rnd k)) ->
  Forall P (wavesRef (refs w)) ->
  Forall P (wavesRef (refs (tick now rnd w))).
Proof.
  intros Hsp Hadv HR Hw. destruct (status (ui w)) eqn:Hs.
  - rewrite tick_frozen by congruence. exact Hw.
  - rewrite (tick_waves now rnd w Hs).
    apply Forall_forall. intros v Hin. apply filter_In in Hin.
    destruct Hin as (Hin & _). revert v Hin. apply Forall_forall.
    unfold before_collision. cbv zeta. rewrite !refs_upd.
    unfold step_advance at 1. cbn [set_wavesRef wavesRef].
    apply Forall_map.
    eapply Forall_impl; [intros v Hv; apply Hadv; exact Hv|].
    apply (step_spawn_field R P rnd _ Hsp HR).
    destruct (physics_same_field now (dt_of (lastRef (refs w)) now)
                (set_lastRef now (refs w))) as (Hf & _).
    rewrite Hf. exact Hw.
  - rewrite tick_frozen by congruence. exact Hw.
Qed.

Lemma onHoldStart_field (clock : Q) (w : World) :
  wavesRef (refs (onHoldStart clock w)) = [] \/
  wavesRef (refs (onHoldStart clock w)) = wavesRef (refs w).
Proof.
  unfold onHoldStart. cbv zeta. rewrite refs_upd.
  destruct (status (ui w)); [left | right | left]; reflexivity.
Qed.

Lemma onHoldEnd_field (w : World) :
  wavesRef (refs (onHoldEnd w)) = wavesRef (refs w).
Proof.
  unfold onHoldEnd. cbv zeta. rewrite !refs_upd.
  destruct (aliveRef (set_holdingRef false (refs w))); reflexivity.
Qed.

Lemma render_field (w : World) :
  wavesRef (refs (render w)) = wavesRef (refs w).
Proof. destruct (render_only_best w) as (b & Hb). rewrite Hb. reflexivity. Qed.

Lemma boot_field (clock : Q) (st : Storage) :
  wavesRef (refs (boot clock st)) = [].
Proof.
  unfold boot. rewrite refs_flush.
  destruct (loadBest_only_best (mkWorld (initial_refs clock) st initial_ui []))
    as (b & Hb).
  rewrite Hb. reflexivity.
Qed.

Lemma run_field (R : Q -> Prop) (P : Wave -> Prop) (es : list Event) (w : World) :
  (forall x r', R x -> P (spawned x r')) ->
  (forall dt v, P v -> P (advance dt v)) ->
  randoms R es ->
  Forall P (wavesRef (refs w)) ->
  Forall P (wavesRef (refs (run es w))).
Proof.
  intros Hsp Hadv. revert w.
  induction es as [|e es IH]; intros w HR Hw; [exact Hw|].
  change (run (e :: es) w) with (run es (step w e)).
  destruct e as [now rnd | clock |]; cbn [randoms] in HR.
  - destruct HR as (Hrnd & HR). apply IH; [exact HR|].
    unfold step. rewrite render_field. cbn [handle].
    apply (tick_field R P); assumption.
  - apply IH; [exact HR|].
    unfold step. rewrite render_field. cbn [handle].
    destruct (onHoldStart_field clock w) as [H | H]; rewrite H;
      [constructor | exact Hw].
  - apply IH; [exact HR|].
    unfold step. rewrite render_field. cbn [handle].
    rewrite onHoldEnd_field. exact Hw.
Qed.

Lemma randoms_any (es : list Event) : randoms (fun _ => True) es.
Proof.
  induction es as [|e es IH]; [exact I|].
  destruct e; cbn [randoms]; [split; [intros; exact I | exact IH] | exact IH
                             | exact IH].
Qed.

Lemma step_move_position (dt : Q) (r : Refs) :
  pxRef (step_move dt r) =
  clamp (pxRef r + velRef r * Math_pow 0.08 dt) 0.06 0.94.
Proof. reflexivity. Qed.

Lemma inside_iff (px : Q) (v : Wave) :
  inside px v = true <-> gapLeft v <= px /\ px <= gapRight v.
Proof. unfold inside. rewrite andb_true_iff, !Qle_bool_iff. tauto. Qed.

(** X6.  The clamp on the player's position never keeps the player off the
    centre of a gap.  For every wave of every field the page reaches,
    whatever the random numbers, the centre of the gap is in [0.1, 0.9];
    and whenever the move statement of [tick] aims the player at that
    centre (the position plus the damped velocity is the centre), the new
    position is the centre itself, not a clamped value, and the collision
    test counts it as inside the gap. *)
Theorem position_clamp_spares_gap_centres
    (clock : Q) (st : Storage) (es : list Event) :
  Forall (fun v =>
            (0.1 <= gapX v /\ gapX v <= 0.9) /\
            forall (dt : Q) (r : Refs),
              pxRef r + velRef r * Math_pow 0.08 dt == gapX v ->
              pxRef (step_move dt r) == gapX v /\
              inside (pxRef (step_move dt r)) v = true)
         (wavesRef (refs (run es (boot clock st)))).
Proof.
  assert (H : Forall (fun v => (0.1 <= gapX v /\ gapX v <= 0.9) /\
                               inside (gapX v) v = true)
                     (wavesRef (refs (run es (boot clock st))))).
  { apply (run_field (fun _ => True)
             (fun v => (0.1 <= gapX v /\ gapX v <= 0.9) /\
                       inside (gapX v) v = true)).
    - intros x r' _. unfold spawned, inside, gapLeft, gapRight.
      cbn [gapX gapW].
      assert (Hw : 0.12 <= clamp (0.26 - inject_Z (scoreRef r') * 0.0006) 0.12 0.26)
        by apply clamp_lower.
      split; [split; [apply clamp_lower | apply clamp_upper; lra]|].
      rewrite andb_true_iff, !Qle_bool_iff, !half_of. split; lra.
    - intros dt v Hv. exact Hv.
    - apply randoms_any.
    - rewrite boot_field. constructor. }
  revert H. apply Forall_impl. intros v ((Hlo & Hhi) & Hin).
  split; [split; assumption|]. intros dt r Haim.
  apply inside_iff in Hin. destruct Hin as (Hl & Hr).
  assert (Hpx : pxRef (step_move dt r) == gapX v).
  { rewrite step_move_position, <- Haim. apply clamp_inside; rewrite Haim; lra. }
  split; [exact Hpx|].
  apply inside_iff. rewrite Hpx. split; assumption.
Qed.

(** X7.  When every random number is in [0, 1), every gap of every field
    the page reaches lies inside the arena, at least 0.02 away from either
    wall. *)
Theorem gaps_stay_inside_arena (clock : Q) (st : Storage) (es : list Event) :
  randoms unit_random es ->
  Forall (fun v => 0.02 <= gapLeft v /\ gapRight v < 0.98)
         (wavesRef (refs (run es (boot clock st)))).
Proof.
  intros HR.
  apply (run_field unit_random
           (fun v => 0.02 <= gapLeft v /\ gapRight v < 0.98)).
  - intros x r' Hx. apply spawned_gap. exact Hx.
  - intros dt v Hv. exact Hv.
  - exact HR.
  - rewrite boot_field. constructor.
Qed.

(** ** Worlds between two events *)

Lemma pending_flush (w : World) : pending (flush w) = [].
Proof. reflexivity. Qed.

Lemma ui_flush_nil (w : World) : pending w = [] -> ui (flush w) = ui w.
Proof. intros H. unfold flush. cbn [ui]. rewrite H. reflexivity. Qed.

Lemma flush_settled_world (w : World) : pending w = [] -> flush w = w.
Proof.
  intros H. destruct w as [r st u q]. cbn [pending] in H. subst q. reflexivity.
Qed.

Lemma pending_render (w : World) : pending (render w) = [].
Proof. unfold render. cbv zeta. destruct (Status_eqb _ _); reflexivity. Qed.

Lemma pending_step (w : World) (e : Event) : pending (step w e) = [].
Proof. apply pending_render. Qed.

Lemma pending_boot (clock : Q) (st : Storage) : pending (boot clock st) = [].
Proof. reflexivity. Qed.

Lemma pending_step_snapshot (now : Q) (v : World) :
  pending (step_snapshot now v) =
  pending v ++
  [UpSnapshot (scoreRef (refs v)) (bestRef (refs v)) (streakRef (refs v))
     (Qfloor ((now - t0Ref (refs v)) / 1000))
     (clamp (1 + inject_Z (scoreRef (refs v)) / 800) 1 2.25)].
Proof. reflexivity. Qed.

(** The queue a live tick leaves: one DOWN per miss, then the snapshot of
    the refs as the tick leaves them. *)
Lemma tick_pending_exact (now : Q) (rnd : nat -> Q) (w : World) :
  status (ui w) = LIVE ->
  pending (tick now rnd w) =
  pending w ++
  repeat UpDown (misses (dt_of (lastRef (refs w)) now)
                        (pxRef (refs (before_collision now rnd w)))
                        (wavesRef (refs (before_collision now rnd w)))) ++
  [UpSnapshot (scoreRef (refs (tick now rnd w))) (bestRef (refs (tick now rnd w)))
     (streakRef (refs (tick now rnd w)))
     (Qfloor ((now - t0Ref (refs (tick now rnd w))) / 1000))
     (clamp (1 + inject_Z (scoreRef (refs (tick now rnd w))) / 800) 1 2.25)].
Proof.
  intros Hlive. rewrite (tick_live now rnd w Hlive).
  rewrite pending_step_snapshot, refs_step_snapshot, pending_step_best,
    pending_upd.
  unfold step_collide.
  destruct (collide_outcome (dt_of (lastRef (refs w)) now)
              (wavesRef (refs (before_collision now rnd w)))
              (before_collision now rnd w)) as (Hp & _).
  rewrite Hp.
  destruct (before_collision_tally now rnd w) as (_ & _ & _ & Hq).
  rewrite Hq, <- app_assoc. reflexivity.
Qed.

Lemma downs_keep (n : nat) (p : Ui) :
  let p' := fold_left (fun p up => apply_update up p) (repeat UpDown n) p in
  score p' = score p /\ best p' = best p /\ streak p' = streak p /\
  sessionSec p' = sessionSec p /\ intensity p' = intensity p /\
  status p' = (if (0 <? n)%nat then DOWN else status p).
Proof.
  cbv zeta. revert p. induction n as [|n IH]; intros p.
  - cbn. repeat split.
  - cbn [repeat fold_left].
    destruct (IH (apply_update UpDown p)) as (A & B & C & D & E & F).
    rewrite A, B, C, D, E, F. cbn [apply_update score best streak sessionSec
                                   intensity status].
    repeat split. destruct (0 <? n)%nat; reflexivity.
Qed.

(** ** The counters *)

Lemma bonus_sum_next (h : Z) :
  (0 <= h)%Z ->
  bonus_sum (Z.to_nat (h + 1)) =
  (bonus_sum (Z.to_nat h) + Qfloor (inject_Z (h + 1) * 0.9))%Z.
Proof.
  intros Hh. replace (h + 1)%Z with (Z.succ h) by lia.
  rewrite Z2Nat.inj_succ by exact Hh. cbn [bonus_sum].
  rewrite Nat2Z.inj_succ, Z2Nat.id by exact Hh. reflexivity.
Qed.

Lemma streak_bonus_nonneg (h : Z) :
  (0 <= h)%Z -> (0 <= Qfloor (inject_Z (h + 1) * 0.9))%Z.
Proof.
  intros Hh. change 0%Z with (Qfloor 0). apply Qfloor_resp_le.
  assert (H : 0 <= inject_Z (h + 1)).
  { change 0 with (inject_Z 0). apply inject_Z_le. lia. }
  lra.
Qed.

Lemma resolve_tally (dt : Q) (w : World) (wave : Wave) :
  tally_consistent (refs w) ->
  tally_consistent (refs (resolve dt w wave)) /\
  (scoreRef (refs w) <= scoreRef (refs (resolve dt w wave)))%Z.
Proof.
  intros (Hs & Hn0 & Hn & Hsc). unfold resolve.
  destruct (crossing dt wave);
    [|split; [repeat split; assumption | lia]].
  destruct (inside (pxRef (refs w)) wave);
    [|split; [repeat split; assumption | fields; lia]].
  assert (Hh : (0 <= hitsRef (refs w))%Z) by lia.
  pose proof (bonus_sum_next (hitsRef (refs w)) Hh) as Hb.
  pose proof (streak_bonus_nonneg (hitsRef (refs w)) Hh) as Hf.
  destruct (Qltb _ 0.03); unfold tally_consistent; fields;
    rewrite Hs, Hb; (split; [repeat split; lia | lia]).
Qed.

Lemma collide_tally (dt : Q) (ws : list Wave) (w : World) :
  tally_consistent (refs w) ->
  tally_consistent (refs (fold_left (resolve dt) ws w)) /\
  (scoreRef (refs w) <= scoreRef (refs (fold_left (resolve dt) ws w)))%Z.
Proof.
  revert w. induction ws as [|wave ws IH]; intros w Hw.
  - split; [exact Hw | cbn; lia].
  - cbn [fold_left].
    destruct (resolve_tally dt w wave Hw) as (H1 & L1).
    destruct (IH (resolve dt w wave) H1) as (H2 & L2).
    split; [exact H2 | lia].
Qed.

Lemma step_collide_tally (dt : Q) (w : World) :
  tally_consistent (refs w) ->
  tally_consistent (refs (step_collide dt w)) /\
  (scoreRef (refs w) <= scoreRef (refs (step_collide dt w)))%Z.
Proof. unfold step_collide. apply collide_tally. Qed.

Lemma tally_consistent_same (r r' : Refs) :
  same_tally r r' -> tally_consistent r -> tally_consistent r'.
Proof.
  unfold same_tally, tally_consistent.
  intros (_ & Hsc & _ & Hst & Hh & Hn & _). rewrite Hsc, Hst, Hh, Hn.
  exact (fun H => H).
Qed.

Lemma set_bestRef_tally (b : Q) (r : Refs) :
  tally_consistent r -> tally_consistent (set_bestRef b r).
Proof. exact (fun H => H). Qed.

(** A tick keeps the counters consistent and never lowers the score. *)
Lemma tick_tally (now : Q) (rnd : nat -> Q) (w : World) :
  tally_consistent (refs w) ->
  tally_consistent (refs (tick now rnd w)) /\
  (scoreRef (refs w) <= scoreRef (refs (tick now rnd w)))%Z.
Proof.
  intros Hw. destruct (status (ui w)) eqn:Hs.
  - rewrite tick_frozen by congruence. split; [exact Hw | rewrite refs_upd; cbn; lia].
  - rewrite (tick_live now rnd w Hs), refs_step_snapshot.
    destruct (before_collision_tally now rnd w) as (Hb & _).
    pose proof (tally_consistent_same _ _ Hb Hw) as H1.
    destruct Hb as (_ & Hsc0 & _).
    destruct (step_collide_tally (dt_of (lastRef (refs w)) now)
                (before_collision now rnd w) H1) as (H2 & L2).
    revert H2 L2.
    generalize (step_collide (dt_of (lastRef (refs w)) now)
                  (before_collision now rnd w)).
    intros v H2 L2.
    destruct (step_best_only_best (upd step_prune v)) as (b & Hbb).
    rewrite Hbb, refs_upd.
    pose proof (tally_consistent_same _ _ (step_prune_tally (refs v)) H2) as H3.
    destruct (step_prune_tally (refs v)) as (_ & Hsc3 & _).
    split; [apply set_bestRef_tally; exact H3|].
    change (scoreRef (set_bestRef b (step_prune (refs v))))
      with (scoreRef (step_prune (refs v))).
    rewrite Hsc3. lia.
  - rewrite tick_frozen by congruence. split; [exact Hw | rewrite refs_upd; cbn; lia].
Qed.

Lemma tick_alive (now : Q) (rnd : nat -> Q) (w : World) :
  status (ui w) = LIVE ->
  aliveRef (refs (tick now rnd w)) =
  (if (0 <? misses (dt_of (lastRef (refs w)) now)
                   (pxRef (refs (before_collision now rnd w)))
                   (wavesRef (refs (before_collision now rnd w))))%nat
   then false else aliveRef (refs w)).
Proof.
  intros Hlive. rewrite (tick_live now rnd w Hlive), refs_step_snapshot.
  destruct (collide_outcome (dt_of (lastRef (refs w)) now)
              (wavesRef (refs (before_collision now rnd w)))
              (before_collision now rnd w)) as (_ & Ha & _).
  destruct (before_collision_tally now rnd w) as ((Hal & _) & _).
  rewrite Hal in Ha.
  destruct (step_best_tally_but_best
              (upd step_prune
                 (step_collide (dt_of (lastRef (refs w)) now)
                    (before_collision now rnd w)))) as (A & _).
  rewrite A, refs_upd.
  destruct (step_prune_tally
              (refs (step_collide (dt_of (lastRef (refs w)) now)
                       (before_collision now rnd w)))) as (B & _).
  rewrite B. exact Ha.
Qed.

Lemma ui_flush (w : World) :
  ui (flush w) = fold_left (fun p up => apply_update up p) (pending w) (ui w).
Proof. reflexivity. Qed.

Lemma downs_then_snapshot (n : nat) (p : Ui) (sc : Z) (b : Q) (st sec : Z) (i : Q) :
  let p' := fold_left (fun p up => apply_update up p)
                      (repeat UpDown n ++ [UpSnapshot sc b st sec i]) p in
  score p' = sc /\ best p' = b /\ streak p' = st /\ intensity p' = i /\
  status p' = (if (0 <? n)%nat then DOWN else status p).
Proof.
  cbv zeta. rewrite fold_left_app.
  destruct (downs_keep n p) as (_ & _ & _ & _ & _ & F).
  cbn [fold_left apply_update score best streak intensity status].
  rewrite F. repeat split.
Qed.

Lemma tick_flush_ui (now : Q) (rnd : nat -> Q) (w : World) :
  status (ui w) = LIVE -> pending w = [] ->
  score (ui (flush (tick now rnd w))) = scoreRef (refs (tick now rnd w)) /\
  best (ui (flush (tick now rnd w))) = bestRef (refs (tick now rnd w)) /\
  streak (ui (flush (tick now rnd w))) = streakRef (refs (tick now rnd w)) /\
  intensity (ui (flush (tick now rnd w))) =
    clamp (1 + inject_Z (scoreRef (refs (tick now rnd w))) / 800) 1 2.25 /\
  status (ui (flush (tick now rnd w))) =
    (if (0 <? misses (dt_of (lastRef (refs w)) now)
                     (pxRef (refs (before_collision now rnd w)))
                     (wavesRef (refs (before_collision now rnd w))))%nat
     then DOWN else LIVE).
Proof.
  intros Hlive Hp.
  rewrite ui_flush, (tick_pending_exact now rnd w Hlive), Hp, app_nil_l,
    ui_tick.
  pose proof (downs_then_snapshot
                (misses (dt_of (lastRef (refs w)) now)
                        (pxRef (refs (before_collision now rnd w)))
                        (wavesRef (refs (before_collision now rnd w))))
                (ui w)
                (scoreRef (refs (tick now rnd w))) (bestRef (refs (tick now rnd w)))
                (streakRef (refs (tick now rnd w)))
                (Qfloor ((now - t0Ref (refs (tick now rnd w))) / 1000))
                (clamp (1 + inject_Z (scoreRef (refs (tick now rnd w))) / 800) 1 2.25))
    as H.
  cbv zeta in H. rewrite Hlive in H. exact H.
Qed.

Lemma render_keeps (v : World) :
  aliveRef (refs (render v)) = aliveRef (refs v) /\
  scoreRef (refs (render v)) = scoreRef (refs v) /\
  (tally_consistent (refs v) -> tally_consistent (refs (render v))).
Proof.
  destruct (render_only_best v) as (b & Hb). rewrite Hb.
  split; [reflexivity | split; [reflexivity | exact (fun H => H)]].
Qed.

Lemma hud_after_load (f : World) (b : Q) :
  pending f = [] ->
  score (ui f) = scoreRef (refs f) ->
  streak (ui f) = streakRef (refs f) ->
  intensity (ui f) == clamp (1 + inject_Z (scoreRef (refs f)) / 800) 1 2.25 ->
  hud_in_sync
    (flush (setUi (UpBest (bestRef (refs (upd (set_bestRef b) f))))
                  (upd (set_bestRef b) f))).
Proof.
  intros Hp Hs Hk Hi. destruct f as [r st u q]. cbn [pending] in Hp. subst q.
  unfold hud_in_sync, flush. fields.
  cbn [fold_left app apply_update score best streak intensity].
  cbn [refs ui] in Hs, Hk, Hi. repeat split; assumption.
Qed.

(** A render leaves the HUD in sync with the refs, the best included, whether
    or not it runs the effect again. *)
Lemma render_hud (v : World) :
  score (ui (flush v)) = scoreRef (refs v) ->
  best (ui (flush v)) = bestRef (refs v) ->
  streak (ui (flush v)) = streakRef (refs v) ->
  intensity (ui (flush v)) == clamp (1 + inject_Z (scoreRef (refs v)) / 800) 1 2.25 ->
  hud_in_sync (render v).
Proof.
  intros Hs Hb Hk Hi. unfold render. cbv zeta.
  destruct (Status_eqb _ _).
  - unfold hud_in_sync. rewrite refs_flush. repeat split; assumption.
  - unfold loadBest. destruct (getItem (store (flush v))).
    + apply hud_after_load; rewrite ?refs_flush;
        [apply pending_flush | assumption..].
    + rewrite (flush_settled_world (flush v) (pending_flush v)).
      unfold hud_in_sync. rewrite refs_flush. repeat split; assumption.
Qed.

Lemma Status_eqb_refl (s : Status) : Status_eqb s s = true.
Proof. destruct s; reflexivity. Qed.

(** With nothing queued a render changes nothing. *)
Lemma render_quiet (v : World) : pending v = [] -> render v = v.
Proof.
  intros Hp. unfold render. cbv zeta.
  rewrite (flush_settled_world v Hp), Status_eqb_refl. reflexivity.
Qed.

Lemma settled_same_tally (w v : World) :
  pending v = [] -> ui v = ui w ->
  aliveRef (refs v) = aliveRef (refs w) ->
  scoreRef (refs v) = scoreRef (refs w) ->
  bestRef (refs v) = bestRef (refs w) ->
  streakRef (refs v) = streakRef (refs w) ->
  hitsRef (refs v) = hitsRef (refs w) ->
  nearMissRef (refs v) = nearMissRef (refs w) ->
  settled w -> settled v.
Proof.
  intros Hp Hu Ha Hsc Hb Hst Hh Hn (_ & Hhud & Hdead & Htally).
  unfold settled, hud_in_sync, down_iff_dead, tally_consistent in *.
  rewrite Hu, Ha, Hsc, Hb, Hst, Hh, Hn.
  split; [exact Hp | split; [exact Hhud | split; [exact Hdead | exact Htally]]].
Qed.

Lemma onHoldEnd_keeps (w : World) :
  pending (onHoldEnd w) = pending w /\ ui (onHoldEnd w) = ui w /\
  store (onHoldEnd w) = store w /\
  aliveRef (refs (onHoldEnd w)) = aliveRef (refs w) /\
  scoreRef (refs (onHoldEnd w)) = scoreRef (refs w) /\
  bestRef (refs (onHoldEnd w)) = bestRef (refs w) /\
  streakRef (refs (onHoldEnd w)) = streakRef (refs w) /\
  hitsRef (refs (onHoldEnd w)) = hitsRef (refs w) /\
  nearMissRef (refs (onHoldEnd w)) = nearMissRef (refs w).
Proof.
  unfold onHoldEnd. cbv zeta.
  destruct (aliveRef (refs (upd (set_holdingRef false) w))); repeat split.
Qed.

Lemma frame_settled (now : Q) (rnd : nat -> Q) (w : World) :
  settled w -> settled (step w (Frame now rnd)).
Proof.
  intros Hw. rewrite step_frame.
  destruct (status (ui w)) eqn:Hs.
  - rewrite tick_frozen by congruence.
    destruct Hw as (Hp & Hrest).
    rewrite render_quiet by (rewrite pending_upd; exact Hp).
    apply (settled_same_tally w); try reflexivity; [exact Hp | split; assumption].
  - destruct Hw as (Hp & Hhud & Hdead & Htally).
    destruct (tick_flush_ui now rnd w Hs Hp) as (A & B & C & D & E).
    destruct (render_keeps (tick now rnd w)) as (Ka & _ & Kt).
    split; [apply pending_render|].
    split; [apply render_hud; try assumption; rewrite D; apply Qeq_refl|].
    split.
    + unfold down_iff_dead. rewrite Ka, render_status, E, (tick_alive now rnd w Hs).
      assert (Halive : aliveRef (refs w) = true).
      { destruct (aliveRef (refs w)) eqn:Ea; [reflexivity|].
        unfold down_iff_dead in Hdead. rewrite Ea in Hdead.
        destruct Hdead as (Hd & _). specialize (Hd eq_refl). congruence. }
      rewrite Halive.
      destruct (0 <? _)%nat; split; intros H; try reflexivity; discriminate H.
    + apply Kt. apply tick_tally. exact Htally.
  - rewrite tick_frozen by congruence.
    destruct Hw as (Hp & Hrest).
    rewrite render_quiet by (rewrite pending_upd; exact Hp).
    apply (settled_same_tally w); try reflexivity; [exact Hp | split; assumption].
Qed.

Lemma holdEnd_settled (w : World) : settled w -> settled (step w HoldEnd).
Proof.
  intros Hw. unfold step. cbn [handle].
  destruct (onHoldEnd_keeps w) as (Hp & Hu & _ & Ha & Hsc & Hb & Hst & Hh & Hn).
  destruct Hw as (Hq & Hrest).
  rewrite render_quiet by (rewrite Hp; exact Hq).
  apply (settled_same_tally w); try assumption; [congruence | split; assumption].
Qed.

Lemma reset_flush_ui (m : option string) (clock : Q) (w : World) :
  pending w = [] ->
  ui (flush (upd (set_holdingRef true) (reset m clock w))) =
  mkUi 0 (best (ui w)) 0 LIVE
       (match m with
        | Some x => x
        | None => "Flow state: breathe, charge, dash."%string
        end) 0 1.
Proof.
  intros Hp. unfold reset. rewrite ui_flush, pending_upd, ui_upd.
  cbn [pending setUi ui]. rewrite !pending_upd, !ui_upd, Hp. reflexivity.
Qed.

Lemma holdStart_settled (clock : Q) (w : World) :
  settled w -> settled (step w (HoldStart clock)).
Proof.
  intros Hw. unfold step. cbn [handle]. unfold onHoldStart. cbv zeta.
  destruct Hw as (Hp & Hhud & Hdead & Htally).
  assert (Hreset : settled (render (upd (set_holdingRef true)
                                      (reset (Some "RUN."%string) clock w)))).
  { pose proof (reset_flush_ui (Some "RUN."%string) clock w Hp) as Hu.
    destruct (render_keeps (upd (set_holdingRef true)
                              (reset (Some "RUN."%string) clock w)))
      as (Ka & _ & Kt).
    split; [apply pending_render|].
    split; [apply render_hud; rewrite Hu; try reflexivity;
            destruct Hhud as (_ & Hb & _); exact Hb|].
    split.
    - unfold down_iff_dead. rewrite Ka, render_status, Hu.
      split; intros H; discriminate H.
    - apply Kt. repeat split; cbn; lia. }
  destruct (status (ui w)) eqn:Hs; try exact Hreset.
  rewrite render_quiet by (rewrite pending_upd; exact Hp).
  apply (settled_same_tally w); try reflexivity; [exact Hp|].
  split; [exact Hp | split; [exact Hhud | split; [exact Hdead | exact Htally]]].
Qed.

Lemma step_settled (w : World) (e : Event) : settled w -> settled (step w e).
Proof.
  destruct e as [now rnd | clock |].
  - apply frame_settled.
  - apply holdStart_settled.
  - apply holdEnd_settled.
Qed.

Lemma boot_settled (clock : Q) (st : Storage) : settled (boot clock st).
Proof.
  unfold boot, loadBest. destruct (getItem _).
  - split; [reflexivity|]. split; [|split].
    + apply (hud_after_load (mkWorld (initial_refs clock) st initial_ui []));
        reflexivity.
    + unfold down_iff_dead. split; intros H; discriminate H.
    + repeat split; cbn; lia.
  - split; [reflexivity|]. split; [|split].
    + repeat split.
    + unfold down_iff_dead. split; intros H; discriminate H.
    + repeat split; cbn; lia.
Qed.

Lemma run_settled (es : list Event) (w : World) :
  settled w -> settled (run es w).
Proof.
  revert w. induction es as [|e es IH]; intros w Hw; [exact Hw|].
  change (run (e :: es) w) with (run es (step w e)).
  apply IH, step_settled, Hw.
Qed.

Lemma reached_settled (clock : Q) (st : Storage) (es : list Event) :
  settled (run es (boot clock st)).
Proof. apply run_settled, boot_settled. Qed.

(** X8.  The HUD never lags: in every world the page reaches, between two
    events, no [setUi] update is left queued and the committed [ui] shows the
    score, the best and the streak the refs hold, with the intensity
    [clamp (1 + score / 800) 1 2.25] of that score, a number in [1, 2.25]. *)
Theorem hud_shows_the_refs (clock : Q) (st : Storage) (es : list Event) :
  let w := run es (boot clock st) in
  pending w = [] /\
  score (ui w) = scoreRef (refs w) /\
  best (ui w) = bestRef (refs w) /\
  streak (ui w) = streakRef (refs w) /\
  intensity (ui w) == clamp (1 + inject_Z (scoreRef (refs w)) / 800) 1 2.25 /\
  1 <= intensity (ui w) /\ intensity (ui w) <= 2.25.
Proof.
  cbv zeta.
  destruct (reached_settled clock st es) as (Hp & (A & B & C & D) & _).
  repeat split; try assumption; rewrite D;
    [apply clamp_lower | apply clamp_upper; lra].
Qed.

(** X9.  The player is dead exactly in the status DOWN: in every world the
    page reaches, [aliveRef] is [false] if and only if the committed status
    is DOWN. *)
Theorem dead_exactly_when_down (clock : Q) (st : Storage) (es : list Event) :
  aliveRef (refs (run es (boot clock st))) = false <->
  status (ui (run es (boot clock st))) = DOWN.
Proof.
  destruct (reached_settled clock st es) as (_ & _ & Hd & _). exact Hd.
Qed.

Lemma bonus_sum_nonneg (n : nat) : (0 <= bonus_sum n)%Z.
Proof.
  induction n as [|n IH]; [cbn; lia|].
  cbn [bonus_sum].
  assert (H : (0 <= Qfloor (inject_Z (Z.of_nat (S n)) * 0.9))%Z).
  { change 0%Z with (Qfloor 0). apply Qfloor_resp_le.
    assert (H : 0 <= inject_Z (Z.of_nat (S n))).
    { change 0 with (inject_Z 0). apply inject_Z_le. lia. }
    lra. }
  lia.
Qed.

(** X10.  The counters tell one story: in every world the page reaches the
    streak equals the number of hits (a miss ends the run without touching
    it), the near misses are between 0 and the hits, and the score is
    [18 * hits + 9 * nearMisses] plus the streak bonuses [floor (0.9 * k)]
    of the hits [k = 1 .. hits]; in particular it is at least
    [18 * hits]. *)
Theorem score_is_made_of_hits (clock : Q) (st : Storage) (es : list Event) :
  let r := refs (run es (boot clock st)) in
  streakRef r = hitsRef r /\
  (0 <= nearMissRef r <= hitsRef r)%Z /\
  scoreRef r =
    (18 * hitsRef r + 9 * nearMissRef r + bonus_sum (Z.to_nat (hitsRef r)))%Z /\
  (18 * hitsRef r <= scoreRef r)%Z.
Proof.
  cbv zeta.
  destruct (reached_settled clock st es) as (_ & _ & _ & (A & B & C & D)).
  pose proof (bonus_sum_nonneg
                (Z.to_nat (hitsRef (refs (run es (boot clock st)))))) as Hb.
  repeat split; try assumption. lia.
Qed.

Lemma holdStart_score (clock : Q) (w : World) :
  scoreRef (refs (step w (HoldStart clock))) =
  match status (ui w) with LIVE => scoreRef (refs w) | _ => 0%Z end.
Proof.
  unfold step. cbn [handle].
  destruct (render_keeps (onHoldStart clock w)) as (_ & Hs & _). rewrite Hs.
  unfold onHoldStart. cbv zeta. rewrite refs_upd.
  destruct (status (ui w)); reflexivity.
Qed.

(** X11.  Only a restart lowers the score.  In every world the page reaches,
    a frame never lowers the score, a release leaves it as it is, and a
    hold-start leaves it as it is in LIVE and sets it to 0 in READY and
    DOWN. *)
Theorem only_restart_lowers_score
    (clock : Q) (st : Storage) (es : list Event)
    (now : Q) (rnd : nat -> Q) (c : Q) :
  let w := run es (boot clock st) in
  (scoreRef (refs w) <= scoreRef (refs (step w (Frame now rnd))))%Z /\
  scoreRef (refs (step w HoldEnd)) = scoreRef (refs w) /\
  scoreRef (refs (step w (HoldStart c))) =
    match status (ui w) with LIVE => scoreRef (refs w) | _ => 0%Z end.
Proof.
  cbv zeta.
  destruct (reached_settled clock st es) as (_ & _ & _ & Ht).
  split; [|split].
  - rewrite step_frame.
    destruct (render_keeps (tick now rnd (run es (boot clock st))))
      as (_ & Hs & _).
    rewrite Hs. apply tick_tally. exact Ht.
  - unfold step. cbn [handle].
    destruct (render_keeps (onHoldEnd (run es (boot clock st)))) as (_ & Hs & _).
    rewrite Hs. apply onHoldEnd_keeps.
  - apply holdStart_score.
Qed.

Lemma step_status (w : World) (e : Event) :
  settled w -> legal_transition e (status (ui w)) (status (ui (step w e))).
Proof.
  intros (Hp & _). destruct e as [now rnd | clock |]; cbn [legal_transition].
  - rewrite step_frame, render_status.
    destruct (status (ui w)) eqn:Hs.
    + left. rewrite tick_frozen by congruence.
      rewrite ui_flush_nil by (rewrite pending_upd; exact Hp).
      rewrite ui_upd. exact Hs.
    + destruct (tick_flush_ui now rnd w Hs Hp) as (_ & _ & _ & _ & E).
      rewrite E. destruct (0 <? _)%nat; [right; split; reflexivity | left; reflexivity].
    + left. rewrite tick_frozen by congruence.
      rewrite ui_flush_nil by (rewrite pending_upd; exact Hp).
      rewrite ui_upd. exact Hs.
  - unfold step. cbn [handle]. rewrite render_status.
    unfold onHoldStart. cbv zeta.
    destruct (status (ui w)) eqn:Hs.
    + rewrite (reset_flush_ui (Some "RUN."%string) clock w Hp). reflexivity.
    + rewrite ui_flush_nil by (rewrite pending_upd; exact Hp).
      rewrite ui_upd. exact Hs.
    + rewrite (reset_flush_ui (Some "RUN."%string) clock w Hp). reflexivity.
  - unfold step. cbn [handle]. rewrite render_status.
    destruct (onHoldEnd_keeps w) as (Hq & Hu & _).
    rewrite ui_flush_nil by (rewrite Hq; exact Hp).
    rewrite Hu. reflexivity.
Qed.

(** X12.  The status is a three-state machine.  From every world the page
    reaches: a hold-start always leads to LIVE, a release never changes the
    status, and a frame either keeps the status or takes LIVE to DOWN.  So
    READY is never entered again and DOWN is left only by a hold-start. *)
Theorem status_machine
    (clock : Q) (st : Storage) (es : list Event) (e : Event) :
  let w := run es (boot clock st) in
  match e with
  | HoldStart _ => status (ui (step w e)) = LIVE
  | HoldEnd => status (ui (step w e)) = status (ui w)
  | Frame _ _ =>
      status (ui (step w e)) = status (ui w) \/
      (status (ui w) = LIVE /\ status (ui (step w e)) = DOWN)
  end.
Proof.
  cbv zeta.
  pose proof (step_status (run es (boot clock st)) e
                (reached_settled clock st es)) as H.
  destruct e; exact H.
Qed.

(** ** Outside LIVE *)

Lemma frame_outside_live (now : Q) (rnd : nat -> Q) (w : World) :
  pending w = [] -> status (ui w) <> LIVE ->
  step w (Frame now rnd) = upd (set_lastRef now) w.
Proof.
  intros Hp Hs. rewrite step_frame, tick_frozen by exact Hs.
  apply render_quiet. rewrite pending_upd. exact Hp.
Qed.

Lemma holdEnd_when_dead (w : World) :
  pending w = [] -> aliveRef (refs w) = false ->
  step w HoldEnd = upd (set_chargeRef 0) (upd (set_holdingRef false) w).
Proof.
  intros Hp Ha. unfold step. cbn [handle].
  assert (H : onHoldEnd w = upd (set_chargeRef 0) (upd (set_holdingRef false) w)).
  { unfold onHoldEnd. cbv zeta. rewrite refs_upd.
    cbn [set_holdingRef aliveRef]. rewrite Ha. reflexivity. }
  rewrite H. apply render_quiet. rewrite !pending_upd. exact Hp.
Qed.

Lemma same_simulation_refl (r : Refs) : same_simulation r r.
Proof. unfold same_simulation. repeat split. Qed.

Lemma same_simulation_trans (a b c : Refs) :
  same_simulation a b -> same_simulation b c -> same_simulation a c.
Proof.
  unfold same_simulation. intros Hab Hbc.
  decompose [and] Hab. decompose [and] Hbc. repeat split; congruence.
Qed.

Lemma down_stays_down (es : list Event) (w : World) :
  pending w = [] -> status (ui w) = DOWN -> aliveRef (refs w) = false ->
  no_restart es ->
  same_simulation (refs w) (refs (run es w)) /\
  status (ui (run es w)) = DOWN /\ store (run es w) = store w.
Proof.
  revert w. induction es as [|e es IH]; intros w Hp Hd Ha Hn.
  - split; [apply same_simulation_refl | split; [exact Hd | reflexivity]].
  - change (run (e :: es) w) with (run es (step w e)).
    destruct e as [now rnd | clock |]; cbn [no_restart] in Hn; [| contradiction |].
    + assert (Hs : step w (Frame now rnd) = upd (set_lastRef now) w)
        by (apply frame_outside_live; [exact Hp | congruence]).
      rewrite Hs.
      destruct (IH (upd (set_lastRef now) w)) as (A & B & C);
        [rewrite pending_upd; exact Hp | rewrite ui_upd; exact Hd
        | rewrite refs_upd; destruct (refs w); exact Ha | exact Hn |].
      split; [|split; assumption].
      eapply same_simulation_trans; [|exact A]. repeat split.
    + rewrite (holdEnd_when_dead w Hp Ha).
      destruct (IH (upd (set_chargeRef 0) (upd (set_holdingRef false) w)))
        as (A & B & C);
        [rewrite !pending_upd; exact Hp | rewrite !ui_upd; exact Hd
        | rewrite !refs_upd; destruct (refs w); exact Ha | exact Hn |].
      split; [|split; assumption].
      eapply same_simulation_trans; [|exact A]. repeat split.
Qed.

(** X13.  DOWN freezes the simulation.  From a world in the status DOWN with
    the player dead and no update queued, as every DOWN world the page
    reaches is, any sequence of frames and releases leaves the position, the
    velocity, the dash, the wave field, the counters, the best and the
    storage as they are, and the status DOWN: only a hold-start gets the
    game going again. *)
Theorem down_freezes_the_simulation (w : World) (more : list Event) :
  pending w = [] -> status (ui w) = DOWN -> aliveRef (refs w) = false ->
  no_restart more ->
  let w' := run more w in
  (pxRef (refs w') = pxRef (refs w) /\ velRef (refs w') = velRef (refs w) /\
   dashRef (refs w') = dashRef (refs w) /\ wavesRef (refs w') = wavesRef (refs w) /\
   scoreRef (refs w') = scoreRef (refs w) /\ bestRef (refs w') = bestRef (refs w)) /\
  status (ui w') = DOWN /\ store w' = store w.
Proof.
  intros Hp Hd Ha Hn. cbv zeta.
  destruct (down_stays_down more w Hp Hd Ha Hn)
    as ((A & B & C & _ & D & _ & E & F & _) & G & H).
  repeat split; assumption.
Qed.

(** X14.  Outside LIVE a frame only records its time: from a world the page
    has reached in READY or DOWN, a frame assigns [lastRef] and nothing
    else, and queues no update. *)
Theorem frame_outside_live_only_stamps
    (clock : Q) (st : Storage) (es : list Event) (now : Q) (rnd : nat -> Q) :
  status (ui (run es (boot clock st))) <> LIVE ->
  step (run es (boot clock st)) (Frame now rnd) =
  upd (set_lastRef now) (run es (boot clock st)).
Proof.
  intros Hs. apply frame_outside_live; [|exact Hs].
  apply (reached_settled clock st es).
Qed.

Lemma set_holdingRef_same (r : Refs) :
  holdingRef r = true -> set_holdingRef true r = r.
Proof. destruct r. cbn. intros ->. reflexivity. Qed.

Lemma holdStart_holding (clock : Q) (w : World) :
  holdingRef (refs (step w (HoldStart clock))) = true.
Proof.
  unfold step. cbn [handle].
  destruct (render_only_best (onHoldStart clock w)) as (b & Hb). rewrite Hb.
  unfold onHoldStart. cbv zeta. rewrite refs_upd. reflexivity.
Qed.

Lemma holdStart_in_live (clock : Q) (w : World) :
  pending w = [] -> status (ui w) = LIVE -> holdingRef (refs w) = true ->
  step w (HoldStart clock) = w.
Proof.
  intros Hp Hs Hh. unfold step. cbn [handle]. unfold onHoldStart. cbv zeta.
  rewrite Hs.
  assert (H : upd (set_holdingRef true) w = w).
  { destruct w as [r s u q]. unfold upd. cbn [refs store ui pending].
    cbn [refs] in Hh. rewrite (set_holdingRef_same r Hh). reflexivity. }
  rewrite H. apply render_quiet. exact Hp.
Qed.

(** X15.  Hold-start is idempotent: from every world the page reaches, a
    second hold-start right after a first one changes nothing, whatever the
    clock reads; in particular it does not reset the run again. *)
Theorem holdStart_twice_is_once
    (clock : Q) (st : Storage) (es : list Event) (c c' : Q) :
  let w := run es (boot clock st) in
  step (step w (HoldStart c)) (HoldStart c') = step w (HoldStart c).
Proof.
  cbv zeta.
  pose proof (reached_settled clock st es) as Hw.
  pose proof (step_settled _ (HoldStart c) Hw) as (Hp & _).
  pose proof (step_status _ (HoldStart c) Hw) as Hs. cbn [legal_transition] in Hs.
  apply holdStart_in_live; [exact Hp | exact Hs | apply holdStart_holding].
Qed.

(** X16.  After every live tick the best is at least the score. *)
Theorem best_covers_score_after_live_tick
    (now : Q) (rnd : nat -> Q) (w : World) :
  status (ui w) = LIVE ->
  bestRef (refs w) <= bestRef (refs (tick now rnd w)) /\
  inject_Z (scoreRef (refs (tick now rnd w))) <= bestRef (refs (tick now rnd w)).
Proof.
  intros Hlive. split; [apply tick_best_monotone|].
  rewrite (tick_best_update now rnd w Hlive).
  destruct (Qltb _ _) eqn:E; [apply Qle_refl|].
  apply Qltb_ge in E. exact E.
Qed.

(** ** The field between the spawn line and the discard line *)

Lemma spawned_in_range (x : Q) (r : Refs) :
  wave_in_range (spawned x r) /\ y (spawned x r) = 1.15.
Proof.
  unfold wave_in_range, spawned. cbn [gapW speed y].
  repeat split; try apply clamp_lower; apply clamp_upper; lra.
Qed.

Lemma before_collision_field (now : Q) (rnd : nat -> Q) (w : World) :
  exists r0,
    same_field (refs w) r0 /\
    wavesRef (refs (before_collision now rnd w)) =
    map (advance (dt_of (lastRef (refs w)) now)) (wavesRef (step_spawn rnd r0)).
Proof.
  unfold before_collision. cbv zeta. rewrite !refs_upd.
  eexists. split; [|reflexivity].
  apply (physics_same_field now (dt_of (lastRef (refs w)) now)
           (set_lastRef now (refs w))).
Qed.

Lemma tick_field_bounds (now : Q) (rnd : nat -> Q) (w : World) :
  lastRef (refs w) <= now ->
  Forall wave_in_range (wavesRef (refs w)) ->
  field_in_bounds (refs w) -> field_in_bounds (refs (tick now rnd w)).
Proof.
  intros Hnow Hr Hb. destruct (status (ui w)) eqn:Hs.
  - rewrite tick_frozen by congruence. exact Hb.
  - unfold field_in_bounds. rewrite (tick_waves now rnd w Hs).
    destruct (before_collision_field now rnd w) as (r0 & (Hf & _) & Hw).
    rewrite Hw.
    pose proof (dt_of_nonneg _ _ Hnow) as Hdt.
    assert (H0 : Forall (fun v => wave_in_range v /\ y v <= 1.15)
                        (wavesRef (step_spawn rnd r0))).
    { apply (step_spawn_field (fun _ => True)).
      - intros x r' _. destruct (spawned_in_range x r') as (A & B).
        split; [exact A | rewrite B; lra].
      - intros k. exact I.
      - rewrite Hf. unfold field_in_bounds in Hb.
        rewrite Forall_forall in *. intros v Hv.
        split; [apply Hr; exact Hv | apply Hb; exact Hv]. }
    apply Forall_forall. intros v Hin. apply filter_In in Hin.
    destruct Hin as (Hin & Hkeep). apply Qltb_lt in Hkeep.
    split; [exact Hkeep|].
    apply in_map_iff in Hin. destruct Hin as (u & <- & Hu).
    rewrite Forall_forall in H0. destruct (H0 u Hu) as (((_ & _) & (Hs1 & _)) & Hy).
    unfold advance. cbn [y].
    assert (0 <= dt_of (lastRef (refs w)) now * speed u)
      by (apply Qmult_le_0_compat; lra).
    lra.
  - rewrite tick_frozen by congruence. exact Hb.
Qed.

Lemma run_field_bounds (es : list Event) (w : World) :
  timestamps_from (lastRef (refs w)) es ->
  clamped (refs w) -> field_in_bounds (refs w) ->
  field_in_bounds (refs (run es w)).
Proof.
  revert w. induction es as [|e es IH]; intros w Hts Hc Hb; [exact Hb|].
  change (run (e :: es) w) with (run es (step w e)).
  pose proof (step_clamped w e Hc) as Hc'.
  destruct e as [now rnd | clock |]; cbn [timestamps_from] in Hts.
  - destruct Hts as (Hnow & Hts). apply IH; [| exact Hc' |].
    + unfold step. rewrite render_last. cbn [handle]. rewrite tick_last. exact Hts.
    + unfold field_in_bounds, step. rewrite render_field. cbn [handle].
      apply tick_field_bounds; [exact Hnow | apply Hc | exact Hb].
  - apply IH; [| exact Hc' |].
    + unfold step. rewrite render_last. cbn [handle].
      rewrite onHoldStart_last. exact Hts.
    + unfold field_in_bounds, step. rewrite render_field. cbn [handle].
      destruct (onHoldStart_field clock w) as [H | H]; rewrite H;
        [constructor | exact Hb].
  - apply IH; [| exact Hc' |].
    + unfold step. rewrite render_last. cbn [handle].
      rewrite onHoldEnd_last. exact Hts.
    + unfold field_in_bounds, step. rewrite render_field. cbn [handle].
      rewrite onHoldEnd_field. exact Hb.
Qed.

(** X17.  Under a monotonic frame clock every wave of every field the page
    reaches is below or on the spawn line and above the discard line:
    [-0.2 < y <= 1.15]. *)
Theorem field_stays_in_bounds (clock : Q) (st : Storage) (es : list Event) :
  timestamps_from 0 es ->
  Forall (fun v => -0.2 < y v /\ y v <= 1.15)
         (wavesRef (refs (run es (boot clock st)))).
Proof.
  intros Hts. apply run_field_bounds.
  - rewrite boot_last. exact Hts.
  - apply boot_clamped.
  - unfold field_in_bounds. rewrite boot_field. constructor.
Qed.

Lemma tick_step_small (last now s : Q) :
  0.35 <= s -> s <= 1.15 -> dt_of last now * s <= 0.03795.
Proof.
  intros Hlo Hhi. pose proof (dt_of_bounded last now) as Hdt.
  destruct (Qlt_le_dec (dt_of last now) 0) as [Hneg | Hpos].
  - assert (0 <= - dt_of last now * s) by (apply Qmult_le_0_compat; lra).
    lra.
  - assert (0 <= (0.033 - dt_of last now) * s)
      by (apply Qmult_le_0_compat; lra).
    lra.
Qed.

(** X18.  The field never starves: after a live frame, from any world the
    page reaches, the field holds a wave at height 0.61 or above. *)
Theorem field_never_starves
    (clock : Q) (st : Storage) (es : list Event) (now : Q) (rnd : nat -> Q) :
  status (ui (run es (boot clock st))) = LIVE ->
  exists v, In v (wavesRef (refs (step (run es (boot clock st)) (Frame now rnd)))) /\
            0.61 <= y v.
Proof.
  intros Hs. pose proof (run_clamped es _ (boot_clamped clock st)) as Hc.
  revert Hs Hc. generalize (run es (boot clock st)). intros w Hs Hc.
  unfold step. rewrite render_field. cbn [handle].
  rewrite (tick_waves now rnd w Hs).
  destruct (before_collision_field now rnd w) as (r0 & (Hf & _) & Hw).
  rewrite Hw.
  destruct (spawn_policy_last rnd r0) as (l & Hl & Hy).
  apply last_wave_some in Hl. destruct Hl as (l' & Hl).
  assert (Hr : wave_in_range l).
  { assert (H0 : Forall wave_in_range (wavesRef (step_spawn rnd r0))).
    { apply (step_spawn_field (fun _ => True)).
      - intros x r' _. apply spawned_in_range.
      - intros k. exact I.
      - rewrite Hf. apply Hc. }
    rewrite Forall_forall in H0. apply H0. rewrite Hl.
    apply in_or_app. right. left. reflexivity. }
  destruct Hr as (_ & (Hlo & Hhi)).
  pose proof (tick_step_small (lastRef (refs w)) now (speed l) Hlo Hhi) as Hstep.
  exists (advance (dt_of (lastRef (refs w)) now) l).
  assert (Hy' : 0.61 <= y (advance (dt_of (lastRef (refs w)) now) l))
    by (unfold advance; cbn [y]; lra).
  split; [|exact Hy'].
  apply filter_In. split.
  - apply in_map. rewrite Hl. apply in_or_app. right. left. reflexivity.
  - apply Qltb_lt. lra.
Qed.

(** ** Persistence, there and back *)

Lemma store_render (v : World) : store (render v) = store v.
Proof.
  unfold render. cbv zeta. destruct (Status_eqb _ _); [reflexivity|].
  rewrite store_flush. unfold loadBest.
  destruct (getItem (store (flush v))); reflexivity.
Qed.

Lemma step_best_flags (w : World) :
  get_throws (store (step_best w)) = get_throws (store w) /\
  set_throws (store (step_best w)) = set_throws (store w).
Proof.
  unfold step_best. destruct (Qltb _ _); [|split; reflexivity].
  unfold setItem. rewrite store_upd.
  destruct (set_throws (store w)) eqn:E; cbn [set_store store get_throws set_throws];
    rewrite ?store_upd; split; try reflexivity; exact E.
Qed.

Lemma tick_flags (now : Q) (rnd : nat -> Q) (w : World) :
  get_throws (store (tick now rnd w)) = get_throws (store w).
Proof.
  destruct (status (ui w)) eqn:Hs.
  - rewrite tick_frozen by congruence. reflexivity.
  - rewrite (tick_live now rnd w Hs), store_step_snapshot.
    destruct (step_best_flags
                (upd step_prune
                   (step_collide (dt_of (lastRef (refs w)) now)
                      (before_collision now rnd w)))) as (A & _).
    rewrite A, store_upd.
    destruct (step_collide_body (dt_of (lastRef (refs w)) now)
                (before_collision now rnd w)) as (_ & Hst & _).
    destruct (before_collision_tally now rnd w) as (_ & Hb & _).
    rewrite Hst, Hb. reflexivity.
  - rewrite tick_frozen by congruence. reflexivity.
Qed.

Lemma step_flags (w : World) (e : Event) :
  get_throws (store (step w e)) = get_throws (store w).
Proof.
  unfold step. rewrite store_render.
  destruct e as [now rnd | clock |]; cbn [handle].
  - apply tick_flags.
  - unfold onHoldStart. cbv zeta. rewrite store_upd.
    destruct (status (ui w)); reflexivity.
  - destruct (onHoldEnd_keeps w) as (_ & _ & Hst & _). rewrite Hst. reflexivity.
Qed.

Lemma run_agrees (es : list Event) (w : World) :
  (forall z, JS_Number (JS_String (inject_Z z)) = Fin (inject_Z z)) ->
  store_agrees w ->
  store_agrees (run es w) /\
  get_throws (store (run es w)) = get_throws (store w).
Proof.
  intros Hrt. revert w. induction es as [|e es IH]; intros w Hw.
  - split; [exact Hw | reflexivity].
  - change (run (e :: es) w) with (run es (step w e)).
    destruct (step_agrees w e Hrt Hw) as (Hag & _).
    destruct (IH (step w e) Hag) as (A & B).
    split; [exact A | rewrite B; apply step_flags].
Qed.

Lemma boot_loads (clock : Q) (st : Storage) :
  get_throws st = false -> bestRef (refs (boot clock st)) = loaded st.
Proof.
  intros Hg. unfold boot, loadBest, getItem. cbn [store]. rewrite Hg.
  reflexivity.
Qed.

(** X19.  A best survives a reload of the page.  Take any world whose
    storage answers reads and writes and holds the best that is in memory, as
    the page is right after mounting on such a storage.  With a host whose
    [Number] reads back the integers [String] prints, mounting the page again
    on the storage any run from that world has left loads the very best the
    run held in memory. *)
Theorem best_survives_reload (clock' : Q) (w : World) (es : list Event) :
  (forall z, JS_Number (JS_String (inject_Z z)) = Fin (inject_Z z)) ->
  get_throws (store w) = false -> set_throws (store w) = false ->
  loaded (store w) = bestRef (refs w) ->
  bestRef (refs (boot clock' (store (run es w)))) = bestRef (refs (run es w)).
Proof.
  intros Hrt Hg Hs Hl.
  assert (Hw : store_agrees w) by (split; [exact Hs | right; exact Hl]).
  destruct (run_agrees es w Hrt Hw) as ((_ & Hag) & Hfl).
  assert (Hg' : get_throws (store (run es w)) = false)
    by (rewrite Hfl; exact Hg).
  rewrite (boot_loads clock' _ Hg').
  destruct Hag as [Ht | Hl']; [congruence | exact Hl'].
Qed.

(** ** The dash and the charge *)

(** X20.  The dash only ever pushes to the right: with a non-negative [dt]
    and a non-negative dash, the dash statement of [tick] never lowers the
    velocity, and it lowers the dash by at most [1.6 * dt]. *)
Theorem dash_pushes_right (dt : Q) (r : Refs) :
  0 <= dt -> 0 <= dashRef r -> dashRef r <= 2 ->
  velRef r <= velRef (step_dash dt r) /\
  dashRef r - dt * 1.6 <= dashRef (step_dash dt r) /\
  dashRef (step_dash dt r) <= dashRef r.
Proof.
  intros Hdt Hlo Hhi. unfold step_dash.
  destruct (Qltb 0 (dashRef r)) eqn:Hd; [|repeat split; lra].
  cbv zeta. fields. split; [|split].
  - assert (H : 0 <= dashRef r * (if holdingRef r then 0.25 else 1.0) * dt).
    { apply Qmult_le_0_compat; [|exact Hdt].
      apply Qmult_le_0_compat; [exact Hlo|].
      destruct (holdingRef r); lra. }
    lra.
  - unfold clamp.
    destruct (Q.min_spec 2 (dashRef r - dt * 1.6)) as [[? H1]|[? H1]];
      rewrite H1; [lra|].
    eapply Qle_trans; [|apply Q.le_max_r]. lra.
  - eapply Qle_trans; [apply clamp_le_max|]. apply Q.max_lub; lra.
Qed.

(** X21.  A release while alive never lowers the dash: from a dash in
    [0, 1.6] and a charge in [0, 1] the new dash is
    [min 1.6 (dash + 0.35 + 1.2 * charge)], at least the old one, and the
    charge is drained to 0; a release while dead drains the charge and
    leaves the dash alone. *)
Theorem release_grants_dash (w : World) :
  0 <= dashRef (refs w) -> dashRef (refs w) <= 1.6 ->
  0 <= chargeRef (refs w) -> chargeRef (refs w) <= 1 ->
  chargeRef (refs (onHoldEnd w)) = 0 /\
  holdingRef (refs (onHoldEnd w)) = false /\
  (aliveRef (refs w) = true ->
   dashRef (refs (onHoldEnd w)) ==
     Qmin 1.6 (dashRef (refs w) + 0.35 + 1.2 * chargeRef (refs w)) /\
   dashRef (refs w) <= dashRef (refs (onHoldEnd w))) /\
  (aliveRef (refs w) = false ->
   dashRef (refs (onHoldEnd w)) = dashRef (refs w)).
Proof.
  intros Hd0 Hd1 Hc0 Hc1. unfold onHoldEnd. cbv zeta. rewrite !refs_upd.
  cbn [set_holdingRef aliveRef chargeRef].
  destruct (aliveRef (refs w)) eqn:Ha; rewrite ?refs_upd; fields.
  - split; [reflexivity | split; [reflexivity | split; [|discriminate]]].
    intros _.
    assert (E : clamp (dashRef (refs w) + (0.35 + chargeRef (refs w) * 1.2)) 0 1.6
                == Qmin 1.6 (dashRef (refs w) + 0.35 + 1.2 * chargeRef (refs w))).
    { unfold clamp.
      destruct (Q.min_spec 1.6 (dashRef (refs w) + (0.35 + chargeRef (refs w) * 1.2)))
        as [[? H1]|[? H1]];
        destruct (Q.min_spec 1.6 (dashRef (refs w) + 0.35 + 1.2 * chargeRef (refs w)))
        as [[? H2]|[? H2]];
        rewrite H1, H2; rewrite Q.max_r; lra. }
    split; [exact E|]. rewrite E.
    apply Q.min_glb; lra.
  - split; [reflexivity | split; [reflexivity | split; [discriminate|]]].
    reflexivity.
Qed.

Lemma total_nonneg (dts : list Q) : Forall (fun dt => 0 <= dt) dts -> 0 <= total dts.
Proof.
  induction 1 as [|dt dts Hdt _ IH]; [cbn; lra|].
  unfold total in *. cbn [fold_right]. lra.
Qed.

Lemma step_charge_value (dt : Q) (r : Refs) :
  0 <= dt -> 0 <= chargeRef r -> chargeRef r <= 1 ->
  holdingRef (step_charge dt r) = holdingRef r /\
  0 <= chargeRef (step_charge dt r) /\ chargeRef (step_charge dt r) <= 1 /\
  chargeRef (step_charge dt r) ==
    (if holdingRef r then Qmin 1 (chargeRef r + 0.85 * dt)
     else Qmax 0 (chargeRef r - 1.3 * dt)).
Proof.
  intros Hdt H0 H1. unfold step_charge.
  destruct (holdingRef r) eqn:Hh; fields;
    (split; [exact Hh|]; split; [apply clamp_lower|];
     split; [apply clamp_upper; lra|]); unfold clamp.
  - destruct (Q.min_spec 1 (chargeRef r + dt * 0.85)) as [[? A]|[? A]];
      destruct (Q.min_spec 1 (chargeRef r + 0.85 * dt)) as [[? B]|[? B]];
      rewrite A, B; rewrite Q.max_r; lra.
  - rewrite Q.min_r by lra.
    destruct (Q.max_spec 0 (chargeRef r - dt * 1.3)) as [[? A]|[? A]];
      destruct (Q.max_spec 0 (chargeRef r - 1.3 * dt)) as [[? B]|[? B]];
      rewrite A, B; lra.
Qed.

Lemma charge_through_value (dts : list Q) (r : Refs) :
  Forall (fun dt => 0 <= dt) dts ->
  0 <= chargeRef r -> chargeRef r <= 1 ->
  chargeRef (charge_through dts r) ==
    (if holdingRef r then Qmin 1 (chargeRef r + 0.85 * total dts)
     else Qmax 0 (chargeRef r - 1.3 * total dts)).
Proof.
  intros Hdts. revert r. induction Hdts as [|dt dts Hdt Hrest IH]; intros r H0 H1.
  - unfold total. cbn [charge_through fold_left fold_right].
    destruct (holdingRef r).
    + rewrite Q.min_r by lra. lra.
    + rewrite Q.max_r by lra. lra.
  - change (charge_through (dt :: dts) r)
      with (charge_through dts (step_charge dt r)).
    destruct (step_charge_value dt r Hdt H0 H1) as (Hh & A0 & A1 & Av).
    rewrite (IH (step_charge dt r) A0 A1), Hh.
    pose proof (total_nonneg dts Hrest) as Ht.
    change (total (dt :: dts)) with (dt + total dts).
    revert Av. generalize (chargeRef (step_charge dt r)). intros c Av.
    destruct (holdingRef r).
    + destruct (Q.min_spec 1 (chargeRef r + 0.85 * dt)) as [[? A]|[? A]];
        rewrite A in Av;
        destruct (Q.min_spec 1 (c + 0.85 * total dts)) as [[? B]|[? B]];
        destruct (Q.min_spec 1 (chargeRef r + 0.85 * (dt + total dts)))
          as [[? C]|[? C]];
        rewrite B, C; lra.
    + destruct (Q.max_spec 0 (chargeRef r - 1.3 * dt)) as [[? A]|[? A]];
        rewrite A in Av;
        destruct (Q.max_spec 0 (c - 1.3 * total dts)) as [[? B]|[? B]];
        destruct (Q.max_spec 0 (chargeRef r - 1.3 * (dt + total dts)))
          as [[? C]|[? C]];
        rewrite B, C; lra.
Qed.

Lemma step_drift_charge now dt r : chargeRef (step_drift now dt r) = chargeRef r.
Proof. frame. Qed.
Lemma step_dash_charge dt r : chargeRef (step_dash dt r) = chargeRef r.
Proof. frame. Qed.
Lemma step_move_charge dt r : chargeRef (step_move dt r) = chargeRef r.
Proof. frame. Qed.
Lemma step_advance_charge dt r : chargeRef (step_advance dt r) = chargeRef r.
Proof. frame. Qed.
Lemma step_prune_charge r : chargeRef (step_prune r) = chargeRef r.
Proof. frame. Qed.
Lemma step_spawn_charge rnd r : chargeRef (step_spawn rnd r) = chargeRef r.
Proof.
  destruct (step_spawn_cases rnd r)
    as [(_ & Hs) | [(l & _ & _ & Hs) | (l & _ & _ & Hs)]]; rewrite Hs;
    reflexivity.
Qed.

(** The charge statement is the only statement of a live tick that assigns
    the charge. *)
Lemma tick_charge (now : Q) (rnd : nat -> Q) (w : World) :
  status (ui w) = LIVE ->
  chargeRef (refs (tick now rnd w)) =
  chargeRef (step_charge (dt_of (lastRef (refs w)) now) (refs w)).
Proof.
  intros Hs. rewrite (tick_live now rnd w Hs), refs_step_snapshot.
  destruct (step_best_player
              (upd step_prune
                 (step_collide (dt_of (lastRef (refs w)) now)
                    (before_collision now rnd w)))) as ((_ & Hc & _) & _).
  rewrite Hc, refs_upd, step_prune_charge.
  destruct (step_collide_body (dt_of (lastRef (refs w)) now)
              (before_collision now rnd w))
    as ((_ & _ & _ & _ & _ & Hc2 & _) & _).
  rewrite Hc2. unfold before_collision. cbv zeta.
  rewrite !refs_upd, step_advance_charge, step_spawn_charge, step_move_charge,
    step_dash_charge, step_drift_charge.
  generalize (dt_of (lastRef (refs w)) now). intros dt.
  unfold step_charge. cbn [set_lastRef holdingRef chargeRef].
  destruct (holdingRef (refs w)); reflexivity.
Qed.

(** X22.  The charge follows the hold time.  Through ticks of non-negative
    durations, starting from a charge in [0, 1]: while the input is held the
    charge is [min 1 (charge + 0.85 * T)], while it is not held
    [max 0 (charge - 1.3 * T)], with [T] the total duration.  So an empty
    charge is full once [0.85 * T] reaches 1, and a full one is empty once
    [1.3 * T] does. *)
Theorem charge_follows_hold_time (dts : list Q) (r : Refs) :
  Forall (fun dt => 0 <= dt) dts ->
  0 <= chargeRef r -> chargeRef r <= 1 ->
  chargeRef (charge_through dts r) ==
    (if holdingRef r then Qmin 1 (chargeRef r + 0.85 * total dts)
     else Qmax 0 (chargeRef r - 1.3 * total dts)).
Proof. exact (charge_through_value dts r). Qed.

(** X23.  The frame-time clamp bounds what one tick can do to a wave:
    whatever the two timestamps, a wave with its speed in range falls by at
    most 0.03795 in a tick, and under a monotonic clock it never rises. *)
Theorem wave_moves_little (last now : Q) (v : Wave) :
  0.35 <= speed v -> speed v <= 1.15 ->
  y v - 0.03795 <= y (advance (dt_of last now) v) /\
  (last <= now -> y (advance (dt_of last now) v) <= y v).
Proof.
  intros Hlo Hhi. pose proof (tick_step_small last now (speed v) Hlo Hhi) as H.
  unfold advance. cbn [y]. split; [lra|].
  intros Hnow. pose proof (dt_of_nonneg last now Hnow) as Hdt.
  assert (0 <= dt_of last now * speed v) by (apply Qmult_le_0_compat; lra).
  lra.
Qed.

(** ** What the render draws *)

(** X24.  A wave is drawn as two bars that tile the width around its gap:
    in a container of positive width, for a wave whose gap lies strictly
    inside the arena, both bars are drawn, the left one from 0 to the left
    edge of the gap hint, the right one from the gap's right edge to the
    container's right edge, and between them the gap measures
    [gapW * width]. *)
Theorem bars_tile_the_width (d : Dims) (v : Wave) :
  0 < dims_w d -> 0 < gapLeft v -> gapRight v < 1 ->
  exists l r,
    left_bar (wave_view d v) = Some l /\
    right_bar (wave_view d v) = Some r /\
    rect_left l == 0 /\
    rect_left l + rect_width l == rect_left (gap_hint (wave_view d v)) /\
    rect_left r - rect_left (gap_hint (wave_view d v)) == gapW v * dims_w d /\
    rect_left r + rect_width r == dims_w d /\
    rect_top l = yPx d v /\ rect_top r = yPx d v.
Proof.
  intros Hw Hl Hr. unfold wave_view. cbv zeta.
  cbn [left_bar right_bar gap_hint rect_left].
  fold (gapLeft v) (gapRight v).
  assert (H1 : 0 < gapLeft v * dims_w d)
    by (apply Qmult_lt_0_compat; assumption).
  assert (H2 : 0 < (1 - gapRight v) * dims_w d)
    by (apply Qmult_lt_0_compat; lra).
  assert (H3 : 0 < dims_w d - gapRight v * dims_w d).
  { setoid_replace (dims_w d - gapRight v * dims_w d)
      with ((1 - gapRight v) * dims_w d) by ring. exact H2. }
  unfold Bar.
  replace (Qle_bool (gapLeft v * dims_w d) 0) with false
    by (symmetry; apply not_true_is_false; intros E;
        apply Qle_bool_iff in E; lra).
  replace (Qle_bool (dims_w d - gapRight v * dims_w d) 0) with false
    by (symmetry; apply not_true_is_false; intros E;
        apply Qle_bool_iff in E; lra).
  eexists. eexists. split; [reflexivity|]. split; [reflexivity|].
  cbn [rect_left rect_width rect_top].
  repeat split; try reflexivity; unfold gapLeft, gapRight; field.
Qed.

(** X25.  Before the container has been measured nothing but the hint is
    drawn: with a width of 0 both bars of every wave are dropped ([Bar]
    returns null on a width that is not positive) and the gap hint has its
    minimum width 10. *)
Theorem unmeasured_container_draws_no_bar (d : Dims) (v : Wave) :
  dims_w d == 0 ->
  left_bar (wave_view d v) = None /\
  right_bar (wave_view d v) = None /\
  rect_width (gap_hint (wave_view d v)) == 10.
Proof.
  intros Hw. unfold wave_view. cbv zeta.
  cbn [left_bar right_bar gap_hint rect_width]. unfold Bar.
  assert (A : (gapX v - gapW v / 2) * dims_w d == 0) by (rewrite Hw; ring).
  assert (B : (gapX v + gapW v / 2) * dims_w d == 0) by (rewrite Hw; ring).
  replace (Qle_bool ((gapX v - gapW v / 2) * dims_w d) 0) with true
    by (symmetry; apply Qle_bool_iff; rewrite A; lra).
  replace (Qle_bool (dims_w d - (gapX v + gapW v / 2) * dims_w d) 0) with true
    by (symmetry; apply Qle_bool_iff; rewrite B, Hw; lra).
  split; [reflexivity | split; [reflexivity|]].
  apply Q.max_l. rewrite A, B. lra.
Qed.

(** X26.  Waves travel down the screen and meet the player where the check
    is made: in a container taller than 180, a lower [y] is drawn further
    down, a wave is drawn on the player band exactly when its [y] is 0.22,
    the threshold of the crossing check, and a wave on the spawn line
    [y = 1.15] is drawn above the line of [y = 1], at 160. *)
Theorem waves_are_drawn_top_down (d : Dims) (v1 v2 : Wave) :
  180 < dims_h d ->
  (y v1 < y v2 <-> yPx d v2 < yPx d v1) /\
  (yPx d v1 == band_top d <-> y v1 == playerY) /\
  (y v1 == 1.15 -> yPx d v1 < 160).
Proof.
  intros Hh. unfold yPx, band_top, playerY.
  set (k := dims_h d - 180). assert (Hk : 0 < k) by (unfold k; lra).
  clearbody k.
  assert (Hdiff : forall a b : Q,
             (1 - a) * k + 160 - ((1 - b) * k + 160) == (b - a) * k)
    by (intros; ring).
  split; [|split].
  - split; intros H.
    + assert (0 < (y v2 - y v1) * k) by (apply Qmult_lt_0_compat; lra).
      pose proof (Hdiff (y v1) (y v2)). lra.
    + destruct (Qlt_le_dec (y v1) (y v2)) as [Hlt | Hge]; [exact Hlt|].
      assert (0 <= (y v1 - y v2) * k) by (apply Qmult_le_0_compat; lra).
      pose proof (Hdiff (y v2) (y v1)). lra.
  - split; intros H.
    + destruct (Qlt_le_dec (y v1) 0.22) as [Hlt | Hge].
      * assert (0 < (0.22 - y v1) * k) by (apply Qmult_lt_0_compat; lra).
        pose proof (Hdiff (y v1) 0.22). lra.
      * destruct (Qlt_le_dec 0.22 (y v1)) as [Hgt | Hle]; [|lra].
        assert (0 < (y v1 - 0.22) * k) by (apply Qmult_lt_0_compat; lra).
        pose proof (Hdiff 0.22 (y v1)). lra.
    + rewrite H. reflexivity.
  - intros H. rewrite H.
    assert (0 < (1.15 - 1) * k) by (apply Qmult_lt_0_compat; lra).
    setoid_replace ((1 - 1.15) * k) with (- ((1.15 - 1) * k)) by ring. lra.
Qed.

(** X27.  The charge meter and the orb stay in range: in every world the
    page reaches the meter's width [Math.round (charge * 100)] is a
    percentage between 0 and 100 and the orb's size between 26 and 50. *)
Theorem charge_meter_in_range (clock : Q) (st : Storage) (es : list Event) :
  let c := chargeRef (refs (run es (boot clock st))) in
  (0 <= meter_percent c <= 100)%Z /\ 26 <= orb_size c /\ orb_size c <= 50.
Proof.
  cbv zeta.
  destruct (run_clamped es _ (boot_clamped clock st)) as (_ & (H0 & H1) & _).
  unfold meter_percent, orb_size. split; [split|split].
  - apply (Z.le_trans _ (Qfloor 0.5)); [vm_compute; discriminate|].
    apply Qfloor_resp_le. lra.
  - apply (Z.le_trans _ (Qfloor 100.5)); [apply Qfloor_resp_le; lra|].
    vm_compute. discriminate.
  - lra.
  - lra.
Qed.

End PageMore.

Section PagePace.

Context {host : Host}.

(** ** The pace of the waves *)

Lemma speed_at_bounds (sc : Z) : 0.35 <= speed_at sc /\ speed_at sc <= 1.15.
Proof.
  unfold speed_at. split; [apply clamp_lower | apply clamp_upper; lra].
Qed.

Lemma spawned_speed (x : Q) (r : Refs) :
  speed (spawned x r) = speed_at (scoreRef r).
Proof. reflexivity. Qed.

Lemma speed_at_raise (sc d : Z) :
  (0 <= d)%Z -> speed_at (sc + d) <= speed_at sc + inject_Z d * 0.00015.
Proof.
  intros Hd. apply inject_Z_le in Hd. change (inject_Z 0) with 0 in Hd.
  unfold speed_at, clamp. rewrite inject_Z_plus.
  generalize dependent (inject_Z d). generalize (inject_Z sc). intros a b Hb.
  pose proof (Q.le_max_l 0.35 (Qmin 1.15 (0.35 + a * 0.00015))) as H1.
  pose proof (Q.le_max_r 0.35 (Qmin 1.15 (0.35 + a * 0.00015))) as H2.
  apply Q.max_lub; [lra|].
  pose proof (Q.le_min_l 1.15 (0.35 + (a + b) * 0.00015)) as H3.
  pose proof (Q.le_min_r 1.15 (0.35 + (a + b) * 0.00015)) as H4.
  destruct (Q.min_spec 1.15 (0.35 + a * 0.00015)) as [(_ & E) | (_ & E)]; lra.
Qed.

Lemma speed_at_below_top (sc : Z) :
  speed_at sc < 1.105 -> (sc <= 5033)%Z.
Proof.
  intros H. unfold speed_at, clamp in H.
  assert (Hq : inject_Z sc < inject_Z 5034).
  { change (inject_Z 5034) with 5034.
    destruct (Q.min_spec 1.15 (0.35 + inject_Z sc * 0.00015)) as [(? & E) | (? & E)];
      rewrite E in H;
      pose proof (Q.le_max_r 0.35 1.15);
      pose proof (Q.le_max_r 0.35 (0.35 + inject_Z sc * 0.00015)); lra. }
  rewrite <- Zlt_Qlt in Hq. lia.
Qed.

(** ** The collision loop on a paced field *)

Lemma resolve_quiet (dt : Q) (w : World) (v : Wave) :
  quiet dt v -> resolve dt w v = w.
Proof. unfold quiet, resolve. intros ->. reflexivity. Qed.

Lemma collide_quiet (dt : Q) (ws : list Wave) (w : World) :
  Forall (quiet dt) ws -> fold_left (resolve dt) ws w = w.
Proof.
  induction 1 as [|v ws Hv _ IH]; [reflexivity|].
  cbn [fold_left]. rewrite (resolve_quiet dt w v Hv). exact IH.
Qed.

Lemma resolve_gain (dt : Q) (w : World) (v : Wave) :
  tally_consistent (refs w) ->
  exists d,
    (0 <= d <= 27 + Qfloor (inject_Z (hitsRef (refs w) + 1) * 0.9))%Z /\
    scoreRef (refs (resolve dt w v)) = (scoreRef (refs w) + d)%Z.
Proof.
  intros (Hs & Hn0 & Hn & Hsc).
  assert (Hh : (0 <= hitsRef (refs w))%Z) by lia.
  pose proof (streak_bonus_nonneg (hitsRef (refs w)) Hh) as Hf.
  unfold resolve.
  destruct (crossing dt v); [|exists 0%Z; split; lia].
  destruct (inside (pxRef (refs w)) v); [|exists 0%Z; split; [lia | fields; lia]].
  destruct (Qltb _ 0.03); fields; rewrite Hs.
  - exists (9 + (18 + Qfloor (inject_Z (hitsRef (refs w) + 1) * 0.9)))%Z.
    split; lia.
  - exists (18 + Qfloor (inject_Z (hitsRef (refs w) + 1) * 0.9))%Z.
    split; lia.
Qed.

Lemma resolve_speed (dt : Q) (w : World) (v : Wave) :
  tally_consistent (refs w) ->
  speed_at (scoreRef (refs (resolve dt w v))) <=
  speed_at (scoreRef (refs w)) + 0.045.
Proof.
  intros Hw. destruct (resolve_gain dt w v Hw) as (d & (Hd0 & Hd) & ->).
  destruct Hw as (Hs & Hn0 & Hn & Hsc).
  destruct (Qlt_le_dec (speed_at (scoreRef (refs w))) 1.105) as [Hlow | Htop].
  - apply speed_at_below_top in Hlow.
    pose proof (bonus_sum_nonneg (Z.to_nat (hitsRef (refs w)))) as Hb.
    assert (Hh : (hitsRef (refs w) + 1 <= 280)%Z) by lia.
    assert (Hf : (Qfloor (inject_Z (hitsRef (refs w) + 1) * 0.9) <= 252)%Z).
    { apply (Z.le_trans _ (Qfloor (inject_Z 280 * 0.9)));
        [|vm_compute; discriminate].
      apply Qfloor_resp_le. apply inject_Z_le in Hh. lra. }
    assert (Hd' : (d <= 279)%Z) by lia.
    apply inject_Z_le in Hd'.
    pose proof (speed_at_raise (scoreRef (refs w)) d Hd0) as Hr.
    change (inject_Z 279) with 279 in Hd'. lra.
  - destruct (speed_at_bounds (scoreRef (refs w) + d)) as (_ & Hu). lra.
Qed.

(** A wave on the band or below it does not cross again, and a wave at
    0.61205 or above does not reach the band in one tick. *)
Lemma fall_small (dt s : Q) :
  0 <= dt -> dt <= 0.033 -> 0 <= s -> s <= 1.15 ->
  0 <= dt * s /\ dt * s <= 0.03795.
Proof.
  intros H0 H1 H2 H3. split; [apply Qmult_le_0_compat; assumption|].
  assert (0 <= (0.033 - dt) * s) by (apply Qmult_le_0_compat; lra).
  assert (0 <= 0.033 * (1.15 - s)) by (apply Qmult_le_0_compat; lra).
  lra.
Qed.

Lemma crossed_quiet (dt : Q) (v : Wave) :
  crossed v -> quiet dt (advance dt v).
Proof.
  unfold crossed, quiet. intros Hv.
  destruct (crossing dt (advance dt v)) eqn:E; [|reflexivity].
  apply crossing_advance_iff in E. lra.
Qed.

Lemma high_quiet (dt : Q) (v : Wave) :
  0 <= dt -> dt <= 0.033 -> wave_in_range v -> 0.61205 <= y v ->
  quiet dt (advance dt v).
Proof.
  unfold quiet. intros H0 H1 (_ & Hlo & Hhi) Hy.
  destruct (crossing dt (advance dt v)) eqn:E; [|reflexivity].
  apply crossing_advance_iff in E.
  destruct (fall_small dt (speed v) H0 H1) as (_ & Hf); [lra | lra |].
  unfold playerY in E. lra.
Qed.

Lemma crossed_advance (dt : Q) (v : Wave) :
  0 <= dt -> wave_in_range v -> crossed v -> crossed (advance dt v).
Proof.
  unfold crossed, advance. cbn [y]. intros H0 (_ & Hlo & _) Hv.
  assert (0 <= dt * speed v) by (apply Qmult_le_0_compat; lra). lra.
Qed.

Lemma follows_advance (dt : Q) (sc : Z) (p l : Wave) :
  follows sc p l -> follows sc (advance dt p) (advance dt l).
Proof.
  unfold follows, advance. cbn [y speed]. intros (A & B & C).
  split; [exact A | split; [|exact C]].
  setoid_replace ((1.15 - (y l - dt * speed l)) * speed p)
    with ((1.15 - y l) * speed p + dt * speed l * speed p) by ring.
  setoid_replace ((0.65 - (y p - dt * speed p)) * speed l)
    with ((0.65 - y p) * speed l + dt * speed l * speed p) by ring.
  lra.
Qed.

(** When the newest wave has fallen below 0.65 the one it follows has
    reached the band. *)
Lemma follower_low_leader_crossed (sc : Z) (p l : Wave) :
  0.35 <= speed p -> y l < 0.65 ->
  (playerY < y p -> follows sc p l) -> crossed p.
Proof.
  unfold crossed. intros Hs Hl Hf.
  destruct (Qlt_le_dec playerY (y p)) as [Hp | Hp]; [|exact Hp].
  exfalso. destruct (Hf Hp) as (A & B & C). unfold playerY in Hp.
  destruct (speed_at_bounds sc) as (Hsc & _).
  assert (H1 : 0.5 * speed p <= (1.15 - y l) * speed p).
  { setoid_replace ((1.15 - y l) * speed p)
      with (0.5 * speed p + (0.65 - y l) * speed p) by ring.
    assert (0 <= (0.65 - y l) * speed p) by (apply Qmult_le_0_compat; lra).
    lra. }
  destruct (Qlt_le_dec (y p) 0.65) as [Hq | Hq].
  - assert (H2 : (0.65 - y p) * speed l <= (0.65 - y p) * (speed p + 0.045)).
    { setoid_replace ((0.65 - y p) * (speed p + 0.045))
        with ((0.65 - y p) * speed l + (0.65 - y p) * (speed p + 0.045 - speed l))
        by ring.
      assert (0 <= (0.65 - y p) * (speed p + 0.045 - speed l))
        by (apply Qmult_le_0_compat; lra).
      lra. }
    assert (H3 : (0.65 - y p) * (speed p + 0.045) <= 0.43 * (speed p + 0.045)).
    { setoid_replace (0.43 * (speed p + 0.045))
        with ((0.65 - y p) * (speed p + 0.045) + (y p - 0.22) * (speed p + 0.045))
        by ring.
      assert (0 <= (y p - 0.22) * (speed p + 0.045))
        by (apply Qmult_le_0_compat; lra).
      lra. }
    lra.
  - assert (H2 : 0 <= (y p - 0.65) * speed l).
    { apply Qmult_le_0_compat; [lra|]. lra. }
    setoid_replace ((0.65 - y p) * speed l) with (- ((y p - 0.65) * speed l))
      in B by ring.
    lra.
Qed.


Lemma above_quiet (dt : Q) (v : Wave) : playerY < y v -> quiet dt v.
Proof.
  unfold quiet, crossing. intros Hv.
  destruct (Qle_bool (y v) playerY) eqn:E; [|reflexivity].
  apply Qle_bool_iff in E. lra.
Qed.

Lemma paced_snoc (sc : Z) (init : list Wave) (l : Wave) :
  paced sc (init ++ [l]) ->
  0.61205 <= y l /\ speed_at sc <= speed l + 0.045 /\
  (init = [] \/
   exists pre p,
     init = pre ++ [p] /\ Forall crossed pre /\
     (playerY < y p -> follows sc p l)).
Proof.
  intros [H | (init' & l' & E & H)].
  - destruct init; discriminate H.
  - apply app_inj_tail in E. destruct E as (-> & ->). exact H.
Qed.

(** In a paced field every wave but the newest has reached the band once
    the newest is below 0.65. *)
Lemma paced_all_crossed (sc : Z) (init : list Wave) (l : Wave) :
  Forall wave_in_range init -> paced sc (init ++ [l]) -> y l < 0.65 ->
  Forall crossed init.
Proof.
  intros Hr Hp Hl. destruct (paced_snoc sc init l Hp) as (_ & _ & [-> | H]).
  - constructor.
  - destruct H as (pre & p & -> & Hpre & Hf).
    apply Forall_app. split; [exact Hpre|].
    constructor; [|constructor].
    apply Forall_app in Hr. destruct Hr as (_ & Hrp).
    inversion Hrp as [|? ? (_ & Hlo & _) _]; subst.
    apply (follower_low_leader_crossed sc p l); assumption.
Qed.

Lemma advance_crossed_quiet (dt : Q) (ws : list Wave) :
  0 <= dt -> Forall wave_in_range ws -> Forall crossed ws ->
  Forall crossed (map (advance dt) ws) /\
  Forall (quiet dt) (map (advance dt) ws).
Proof.
  intros Hdt Hr Hc. rewrite !Forall_map.
  split; rewrite Forall_forall in *; intros v Hv.
  - apply crossed_advance; [exact Hdt | apply Hr, Hv | apply Hc, Hv].
  - apply crossed_quiet. apply Hc, Hv.
Qed.

Lemma advance_high (dt : Q) (v : Wave) :
  0 <= dt -> dt <= 0.033 -> wave_in_range v -> 0.65 <= y v ->
  0.61205 <= y (advance dt v).
Proof.
  intros H0 H1 (_ & Hlo & Hhi) Hy. unfold advance. cbn [y].
  destruct (fall_small dt (speed v) H0 H1) as (_ & Hf); lra.
Qed.

(** The field after the spawning and the advance of a live tick. *)
Lemma spawn_advance_poised (dt : Q) (rnd : nat -> Q) (r : Refs) :
  0 <= dt -> dt <= 0.033 ->
  Forall wave_in_range (wavesRef r) ->
  paced (scoreRef r) (wavesRef r) ->
  poised dt (scoreRef r) (map (advance dt) (wavesRef (step_spawn rnd r))).
Proof.
  intros H0 H1 Hr Hp.
  destruct (spawned_in_range (rnd 0%nat) r) as (Hbr & Hby).
  assert (Hb : 0.61205 <= y (advance dt (spawned (rnd 0%nat) r)))
    by (apply advance_high; try assumption; rewrite Hby; lra).
  assert (Hbq : quiet dt (advance dt (spawned (rnd 0%nat) r)))
    by (apply above_quiet; unfold playerY; lra).
  destruct (step_spawn_cases rnd r) as [(He & ->) | [(l0 & Hl0 & Hy & ->) | (l0 & Hl0 & Hy & ->)]].
  - destruct (spawnWave_pushes (rnd 0%nat) r) as (-> & _). rewrite He.
    exists [], (advance dt (spawned (rnd 0%nat) r)).
    split; [reflexivity|]. split; [exact Hb|].
    split; [cbn [advance speed]; rewrite spawned_speed; lra|].
    split; [exact Hbq | left; reflexivity].
  - destruct (spawnWave_pushes (rnd 0%nat) r) as (-> & _).
    apply last_wave_some in Hl0. destruct Hl0 as (init0 & E). rewrite E in *.
    destruct (paced_snoc _ _ _ Hp) as (Hyl & Hk & _).
    apply Forall_app in Hr. destruct Hr as (Hri & Hrl).
    inversion Hrl as [|? ? Hrl0 _]; subst.
    pose proof (paced_all_crossed _ _ _ Hri Hp Hy) as Hc.
    destruct (advance_crossed_quiet dt init0 H0 Hri Hc) as (Hc' & Hq').
    exists (map (advance dt) init0 ++ [advance dt l0]),
           (advance dt (spawned (rnd 0%nat) r)).
    split; [rewrite !map_app; reflexivity|]. split; [exact Hb|].
    split; [cbn [advance speed]; rewrite spawned_speed; lra|].
    split; [exact Hbq|]. right.
    exists (map (advance dt) init0), (advance dt l0).
    split; [reflexivity|]. split; [exact Hc'|]. split; [exact Hq'|].
    assert (Hlq : quiet dt (advance dt l0))
      by (apply high_quiet; assumption).
    split.
    + intros _. unfold follows, advance. cbn [y speed].
      rewrite spawned_speed, Hby. split; [lra|]. split; [|exact Hk].
      destruct Hrl0 as (_ & Hlo & _).
      destruct (speed_at_bounds (scoreRef r)) as (Hs & _).
      setoid_replace ((1.15 - (1.15 - dt * speed_at (scoreRef r))) * speed l0)
        with (dt * speed l0 * speed_at (scoreRef r)) by ring.
      setoid_replace ((0.65 - (y l0 - dt * speed l0)) * speed_at (scoreRef r))
        with ((0.65 - y l0) * speed_at (scoreRef r) +
              dt * speed l0 * speed_at (scoreRef r)) by ring.
      assert (0 <= (0.65 - y l0) * speed_at (scoreRef r))
        by (apply Qmult_le_0_compat; lra).
      lra.
    + unfold quiet in Hlq. congruence.
  - apply last_wave_some in Hl0. destruct Hl0 as (init0 & E). rewrite E in *.
    destruct (paced_snoc _ _ _ Hp) as (_ & Hk & Hin).
    apply Forall_app in Hr. destruct Hr as (Hri & Hrl).
    inversion Hrl as [|? ? Hrl0 _]; subst.
    pose proof (advance_high dt l0 H0 H1 Hrl0 Hy) as Hyl.
    exists (map (advance dt) init0), (advance dt l0).
    split; [rewrite map_app; reflexivity|]. split; [exact Hyl|].
    split; [exact Hk|].
    split; [apply above_quiet; unfold playerY; lra|].
    destruct Hin as [-> | (pre & p & -> & Hpre & Hf)]; [left; reflexivity|].
    right. apply Forall_app in Hri. destruct Hri as (Hrpre & Hrp).
    inversion Hrp as [|? ? Hrp0 _]; subst.
    destruct (advance_crossed_quiet dt pre H0 Hrpre Hpre) as (Hc' & Hq').
    exists (map (advance dt) pre), (advance dt p).
    split; [rewrite map_app; reflexivity|]. split; [exact Hc'|].
    split; [exact Hq'|].
    assert (Hfall : y (advance dt p) <= y p).
    { unfold advance. cbn [y]. destruct Hrp0 as (_ & Hlo & Hhi).
      destruct (fall_small dt (speed p) H0 H1) as (Hf0 & _); lra. }
    split.
    + intros Hp'. apply follows_advance. apply Hf. lra.
    + intros Hx. apply crossing_advance_iff in Hx.
      destruct (Hf (proj2 Hx)) as (A & _). exact A.
Qed.

Lemma misses_app (dt px : Q) (a b : list Wave) :
  misses dt px (a ++ b) = (misses dt px a + misses dt px b)%nat.
Proof. unfold misses. rewrite filter_app, length_app. reflexivity. Qed.

Lemma hits_in_app (dt px : Q) (a b : list Wave) :
  hits_in dt px (a ++ b) = (hits_in dt px a + hits_in dt px b)%nat.
Proof. unfold hits_in. rewrite filter_app, length_app. reflexivity. Qed.

Lemma quiet_no_outcome (dt px : Q) (ws : list Wave) :
  Forall (quiet dt) ws -> misses dt px ws = 0%nat /\ hits_in dt px ws = 0%nat.
Proof.
  induction 1 as [|v ws Hv _ (IHm & IHh)]; [split; reflexivity|].
  rewrite misses_cons, hits_in_cons, IHm, IHh.
  unfold is_miss, is_hit. unfold quiet in Hv. rewrite Hv. split; reflexivity.
Qed.

Lemma one_outcome (dt px : Q) (v : Wave) :
  (misses dt px [v] + hits_in dt px [v] <= 1)%nat.
Proof.
  rewrite misses_cons, hits_in_cons. unfold is_miss, is_hit, misses, hits_in.
  destruct (crossing dt v), (inside px v); cbn; lia.
Qed.

(** The collision loop on a poised field resolves at most one wave and
    leaves the field paced at the new score. *)
Lemma collide_poised (dt : Q) (v : World) :
  tally_consistent (refs v) ->
  poised dt (scoreRef (refs v)) (wavesRef (refs v)) ->
  paced (scoreRef (refs (step_collide dt v))) (wavesRef (refs v)) /\
  (misses dt (pxRef (refs v)) (wavesRef (refs v)) +
   hits_in dt (pxRef (refs v)) (wavesRef (refs v)) <= 1)%nat.
Proof.
  intros Ht (init & l & E & Hy & Hk & Hq & Hin).
  unfold step_collide. rewrite E.
  assert (Hl : Forall (quiet dt) [l]) by (constructor; [exact Hq | constructor]).
  destruct (quiet_no_outcome dt (pxRef (refs v)) [l] Hl) as (Hml & Hhl).
  rewrite misses_app, hits_in_app, Hml, Hhl, fold_left_app.
  destruct Hin as [-> | (pre & p & -> & Hpre & Hqpre & Hf & Hx)].
  - cbn [fold_left]. rewrite (resolve_quiet dt v l Hq).
    split; [|cbn; lia].
    right. exists [], l. repeat split; try assumption. left. reflexivity.
  - destruct (quiet_no_outcome dt (pxRef (refs v)) pre Hqpre) as (Hmp & Hhp).
    rewrite misses_app, hits_in_app, Hmp, Hhp, fold_left_app.
    rewrite (collide_quiet dt pre v Hqpre). cbn [fold_left].
    rewrite (resolve_quiet dt (resolve dt v p) l Hq).
    split; [|pose proof (one_outcome dt (pxRef (refs v)) p); lia].
    right. exists (pre ++ [p]), l.
    split; [reflexivity|]. split; [exact Hy|]. split.
    + destruct (crossing dt p) eqn:Ec.
      * pose proof (resolve_speed dt v p Ht). specialize (Hx eq_refl). lra.
      * rewrite (resolve_quiet dt v p Ec). exact Hk.
    + right. exists pre, p. split; [reflexivity|]. split; [exact Hpre|].
      intros Hp. rewrite (resolve_quiet dt v p (above_quiet dt p Hp)).
      apply Hf. exact Hp.
Qed.

(** Pruning keeps the field paced. *)
Lemma prune_paced (sc : Z) (ws : list Wave) :
  paced sc ws -> paced sc (filter (fun v => Qltb (-0.2) (y v)) ws).
Proof.
  intros [-> | (init & l & -> & Hy & Hk & Hin)]; [left; reflexivity|].
  right. rewrite filter_app. cbn [filter].
  assert (Hkeep : Qltb (-0.2) (y l) = true) by (apply Qltb_lt; lra).
  rewrite Hkeep.
  exists (filter (fun v => Qltb (-0.2) (y v)) init), l.
  split; [reflexivity|]. split; [exact Hy|]. split; [exact Hk|].
  assert (Hall : Forall crossed init ->
                 filter (fun v => Qltb (-0.2) (y v)) init = [] \/
                 exists pre p,
                   filter (fun v => Qltb (-0.2) (y v)) init = pre ++ [p] /\
                   Forall crossed pre /\ (playerY < y p -> follows sc p l)).
  { intros Hc.
    assert (Hc' : Forall crossed (filter (fun v => Qltb (-0.2) (y v)) init)).
    { rewrite Forall_forall in *. intros v Hv. apply Hc.
      apply filter_In in Hv. tauto. }
    destruct (filter (fun v => Qltb (-0.2) (y v)) init) as [|a rest] using rev_ind;
      [left; reflexivity|].
    right. exists rest, a. apply Forall_app in Hc'. destruct Hc' as (Hr & Ha).
    split; [reflexivity|]. split; [exact Hr|].
    inversion Ha as [|? ? Hca _]; subst. unfold crossed in Hca.
    intros Hp. lra. }
  destruct Hin as [-> | (pre & p & -> & Hpre & Hf)]; [left; reflexivity|].
  rewrite filter_app. cbn [filter].
  destruct (Qltb (-0.2) (y p)) eqn:Ep.
  - right. exists (filter (fun v => Qltb (-0.2) (y v)) pre), p.
    split; [reflexivity|]. split; [|exact Hf].
    rewrite Forall_forall in *. intros v Hv. apply Hpre.
    apply filter_In in Hv. tauto.
  - rewrite app_nil_r.
    apply Qltb_ge in Ep.
    assert (Hcp : Forall crossed (pre ++ [p])).
    { apply Forall_app. split; [exact Hpre|].
      constructor; [unfold crossed, playerY; lra | constructor]. }
    destruct (Hall Hcp) as [H | H].
    + rewrite filter_app in H. cbn [filter] in H.
      assert (Ep' : Qltb (-0.2) (y p) = false) by (apply Qltb_ge; exact Ep).
      rewrite Ep', app_nil_r in H. left. exact H.
    + rewrite filter_app in H. cbn [filter] in H.
      assert (Ep' : Qltb (-0.2) (y p) = false) by (apply Qltb_ge; exact Ep).
      rewrite Ep', app_nil_r in H. right. exact H.
Qed.

Lemma before_collision_pace (now : Q) (rnd : nat -> Q) (w : World) :
  exists r0,
    wavesRef r0 = wavesRef (refs w) /\ scoreRef r0 = scoreRef (refs w) /\
    wavesRef (refs (before_collision now rnd w)) =
    map (advance (dt_of (lastRef (refs w)) now)) (wavesRef (step_spawn rnd r0)).
Proof.
  unfold before_collision. cbv zeta. rewrite !refs_upd.
  eexists. split; [|split; [|reflexivity]].
  - apply (physics_same_field now (dt_of (lastRef (refs w)) now)
             (set_lastRef now (refs w))).
  - set (dt := dt_of (lastRef (refs w)) now).
    set (r := set_lastRef now (refs w)).
    destruct (step_charge_tally dt r) as (_ & A & _).
    destruct (step_drift_tally now dt (step_charge dt r)) as (_ & B & _).
    destruct (step_dash_tally dt (step_drift now dt (step_charge dt r)))
      as (_ & C & _).
    destruct (step_move_tally dt
                (step_dash dt (step_drift now dt (step_charge dt r))))
      as (_ & D & _).
    rewrite D, C, B, A. reflexivity.
Qed.

Lemma tick_score (now : Q) (rnd : nat -> Q) (w : World) :
  status (ui w) = LIVE ->
  scoreRef (refs (tick now rnd w)) =
  scoreRef (refs (step_collide (dt_of (lastRef (refs w)) now)
                               (before_collision now rnd w))).
Proof.
  intros Hs. rewrite (tick_live now rnd w Hs), refs_step_snapshot.
  generalize (step_collide (dt_of (lastRef (refs w)) now)
                (before_collision now rnd w)).
  intros v.
  destruct (step_best_tally_but_best (upd step_prune v)) as (_ & _ & A).
  rewrite A, refs_upd.
  destruct (step_prune_tally (refs v)) as (_ & B & _). exact B.
Qed.

(** A live tick under a monotonic clock resolves at most one wave and keeps
    the field paced. *)
Lemma tick_paced (now : Q) (rnd : nat -> Q) (w : World) :
  status (ui w) = LIVE -> lastRef (refs w) <= now ->
  clamped (refs w) -> tally_consistent (refs w) ->
  paced (scoreRef (refs w)) (wavesRef (refs w)) ->
  paced (scoreRef (refs (tick now rnd w))) (wavesRef (refs (tick now rnd w))) /\
  (misses (dt_of (lastRef (refs w)) now)
          (pxRef (refs (before_collision now rnd w)))
          (wavesRef (refs (before_collision now rnd w))) +
   hits_in (dt_of (lastRef (refs w)) now)
           (pxRef (refs (before_collision now rnd w)))
           (wavesRef (refs (before_collision now rnd w))) <= 1)%nat.
Proof.
  intros Hs Hnow (_ & _ & _ & Hr) Ht Hp.
  pose proof (dt_of_nonneg _ _ Hnow) as H0.
  pose proof (dt_of_bounded (lastRef (refs w)) now) as H1.
  destruct (before_collision_pace now rnd w) as (r0 & Hw0 & Hs0 & Hf).
  destruct (before_collision_tally now rnd w) as (Hsame & _).
  pose proof (tally_consistent_same _ _ Hsame Ht) as Ht'.
  destruct Hsame as (_ & Hsc & _).
  assert (Hpo : poised (dt_of (lastRef (refs w)) now)
                       (scoreRef (refs (before_collision now rnd w)))
                       (wavesRef (refs (before_collision now rnd w)))).
  { rewrite Hf, Hsc, <- Hs0.
    apply spawn_advance_poised; try assumption.
    - rewrite Hw0. exact Hr.
    - rewrite Hw0, Hs0. exact Hp. }
  destruct (collide_poised _ _ Ht' Hpo) as (Hpa & Hcount).
  split; [|exact Hcount].
  rewrite (tick_waves now rnd w Hs), (tick_score now rnd w Hs).
  apply prune_paced. exact Hpa.
Qed.

Lemma paced_same (r r' : Refs) :
  wavesRef r' = wavesRef r -> scoreRef r' = scoreRef r ->
  paced (scoreRef r) (wavesRef r) -> paced (scoreRef r') (wavesRef r').
Proof. intros -> ->. exact (fun H => H). Qed.

Lemma render_pace (v : World) :
  wavesRef (refs (render v)) = wavesRef (refs v) /\
  scoreRef (refs (render v)) = scoreRef (refs v).
Proof.
  destruct (render_only_best v) as (b & ->). split; reflexivity.
Qed.

Lemma step_on_pace (w : World) (e : Event) :
  on_pace w ->
  match e with Frame now _ => lastRef (refs w) <= now | _ => True end ->
  on_pace (step w e).
Proof.
  intros (Hset & Hcl & Hp) He.
  split; [apply step_settled; exact Hset|].
  split; [apply step_clamped; exact Hcl|].
  intros Hlive.
  pose proof (step_status w e Hset) as Hleg.
  unfold step in *.
  destruct (render_pace (handle e w)) as (Hw & Hs).
  apply (paced_same (refs (handle e w))); [exact Hw | exact Hs|].
  destruct e as [now rnd | clock |]; cbn [handle legal_transition] in *.
  - assert (Hl : status (ui w) = LIVE)
      by (destruct Hleg as [E | (E & _)]; congruence).
    destruct Hset as (_ & _ & _ & Ht).
    apply (tick_paced now rnd w Hl He Hcl Ht (Hp Hl)).
  - unfold onHoldStart. cbv zeta.
    destruct (status (ui w)) eqn:Est.
    + left. reflexivity.
    + apply (paced_same (refs w)); [reflexivity | reflexivity | apply Hp; reflexivity].
    + left. reflexivity.
  - destruct (onHoldEnd_keeps w) as (_ & _ & _ & _ & Hsc & _).
    apply (paced_same (refs w));
      [apply onHoldEnd_field | exact Hsc | apply Hp; congruence].
Qed.

Lemma step_stamp (w : World) (e : Event) :
  lastRef (refs (step w e)) =
  match e with Frame now _ => now | _ => lastRef (refs w) end.
Proof.
  unfold step. rewrite render_last.
  destruct e; cbn [handle];
    [apply tick_last | apply onHoldStart_last | apply onHoldEnd_last].
Qed.

Lemma run_on_pace (es more : list Event) (w : World) :
  timestamps_from (lastRef (refs w)) (es ++ more) -> on_pace w ->
  on_pace (run es w) /\ timestamps_from (lastRef (refs (run es w))) more.
Proof.
  revert w. induction es as [|e es IH]; intros w Hts Hw;
    [split; assumption|].
  change (run (e :: es) w) with (run es (step w e)).
  apply IH.
  - rewrite step_stamp.
    destruct e; cbn [app timestamps_from] in Hts; [apply Hts | exact Hts | exact Hts].
  - apply step_on_pace; [exact Hw|].
    destruct e; cbn [app timestamps_from] in Hts; [apply Hts | exact I | exact I].
Qed.

(** The page is on pace when it is mounted. *)
Lemma boot_on_pace (clock : Q) (st : Storage) : on_pace (boot clock st).
Proof.
  split; [apply boot_settled|]. split; [apply boot_clamped|].
  intros _. left. apply boot_field.
Qed.

Lemma resolve_no_hit (dt : Q) (w : World) (v : Wave) :
  is_hit dt (pxRef (refs w)) v = false ->
  scoreRef (refs (resolve dt w v)) = scoreRef (refs w).
Proof.
  unfold is_hit, resolve. intros H.
  destruct (crossing dt v); [|reflexivity].
  cbn [andb] in H. rewrite H. reflexivity.
Qed.

Lemma collide_no_hit (dt : Q) (ws : list Wave) (w : World) :
  hits_in dt (pxRef (refs w)) ws = 0%nat ->
  scoreRef (refs (fold_left (resolve dt) ws w)) = scoreRef (refs w).
Proof.
  revert w. induction ws as [|v ws IH]; intros w H; [reflexivity|].
  cbn [fold_left]. rewrite hits_in_cons in H.
  destruct (is_hit dt (pxRef (refs w)) v) eqn:E; [discriminate H|].
  destruct (resolve_body dt w v) as ((_ & _ & Hpx & _) & _).
  rewrite IH by (rewrite Hpx; exact H).
  apply resolve_no_hit. exact E.
Qed.

(** On a world that is on pace a live tick resolves at most one wave, and a
    miss is the only thing it resolves. *)
Lemma live_miss_is_alone (now : Q) (rnd : nat -> Q) (w : World) :
  on_pace w -> lastRef (refs w) <= now -> status (ui w) = LIVE ->
  let dt := dt_of (lastRef (refs w)) now in
  let px := pxRef (refs (before_collision now rnd w)) in
  let field := wavesRef (refs (before_collision now rnd w)) in
  (misses dt px field + hits_in dt px field <= 1)%nat /\
  ((1 <= misses dt px field)%nat ->
   misses dt px field = 1%nat /\ hits_in dt px field = 0%nat /\
   count_down (pending (tick now rnd w)) = 1%nat /\
   aliveRef (refs (tick now rnd w)) = false /\
   hitsRef (refs (tick now rnd w)) = hitsRef (refs w) /\
   scoreRef (refs (tick now rnd w)) = scoreRef (refs w) /\
   status (ui (step w (Frame now rnd))) = DOWN /\
   forall more, no_restart more ->
                status (ui (run more (step w (Frame now rnd)))) = DOWN).
Proof.
  intros (Hset & Hcl & Hp) Hnow Hlive. cbv zeta.
  pose proof Hset as (Hpend & _ & _ & Ht).
  destruct (tick_paced now rnd _ Hlive Hnow Hcl Ht (Hp Hlive)) as (_ & Hone).
  split; [exact Hone|]. intros Hmiss.
  destruct (live_tick_outcome now rnd _ Hlive) as (Hq & Hh & Hdown).
  cbv zeta in Hq, Hh, Hdown. destruct (Hdown Hmiss) as (Hdead & Hst).
  assert (Hnohit : hits_in (dt_of (lastRef (refs w)) now)
                     (pxRef (refs (before_collision now rnd w)))
                     (wavesRef (refs (before_collision now rnd w))) = 0%nat)
    by lia.
  split; [lia|]. split; [exact Hnohit|].
  split; [rewrite Hq, Hpend; cbn [count_down filter List.length]; lia|].
  split; [exact Hdead|].
  split; [rewrite Hh, Hnohit; lia|].
  split.
  { rewrite (tick_score now rnd _ Hlive). unfold step_collide.
    rewrite (collide_no_hit _ _ _ Hnohit).
    destruct (before_collision_tally now rnd w) as ((_ & Hsc & _) & _).
    exact Hsc. }
  split; [exact Hst|].
  intros more Hmore.
  apply (down_stays_down more (step w (Frame now rnd))).
  - apply pending_step.
  - exact Hst.
  - rewrite step_frame.
    destruct (render_keeps (tick now rnd w)) as (Ha & _).
    rewrite Ha. exact Hdead.
  - exact Hmore.
Qed.

(** The same from mounting: whatever the storage, the clocks read by the
    handlers, the random numbers and the events, as long as the frame
    timestamps never decrease. *)
Lemma mounted_miss_is_alone
    (clock : Q) (st : Storage) (es : list Event) (now : Q) (rnd : nat -> Q) :
  timestamps_from 0 (es ++ [Frame now rnd]) ->
  let w := run es (boot clock st) in
  status (ui w) = LIVE ->
  let dt := dt_of (lastRef (refs w)) now in
  let px := pxRef (refs (before_collision now rnd w)) in
  let field := wavesRef (refs (before_collision now rnd w)) in
  (misses dt px field + hits_in dt px field <= 1)%nat /\
  ((1 <= misses dt px field)%nat ->
   misses dt px field = 1%nat /\ hits_in dt px field = 0%nat /\
   count_down (pending (tick now rnd w)) = 1%nat /\
   aliveRef (refs (tick now rnd w)) = false /\
   hitsRef (refs (tick now rnd w)) = hitsRef (refs w) /\
   scoreRef (refs (tick now rnd w)) = scoreRef (refs w) /\
   status (ui (step w (Frame now rnd))) = DOWN /\
   forall more, no_restart more ->
                status (ui (run more (step w (Frame now rnd)))) = DOWN).
Proof.
  intros Hts. cbv zeta. intros Hlive.
  rewrite <- (boot_last clock st) in Hts.
  destruct (run_on_pace es [Frame now rnd] (boot clock st) Hts
              (boot_on_pace clock st)) as (Hw & Hnow).
  cbn [timestamps_from] in Hnow. destruct Hnow as (Hnow & _).
  exact (live_miss_is_alone now rnd _ Hw Hnow Hlive).
Qed.

(** C2.  A miss takes the session from LIVE to DOWN exactly once.  Start
    from any world that is on pace, as the page is when it is mounted, and
    let any events arrive under a monotonic frame clock.  In every live
    tick that follows at most one wave crosses the player band.  So when a
    wave misses it is the only wave the collision loop resolves: no second
    miss and no hit is counted in that tick, the DOWN update is queued
    once, the score and the hits are left as they were, the player is not
    alive, the status the next render commits is DOWN, and it stays DOWN
    until the next hold-start. *)
Theorem one_miss_one_down
    (w0 : World) (es : list Event) (now : Q) (rnd : nat -> Q) :
  on_pace w0 ->
  timestamps_from (lastRef (refs w0)) (es ++ [Frame now rnd]) ->
  let w := run es w0 in
  status (ui w) = LIVE ->
  let dt := dt_of (lastRef (refs w)) now in
  let px := pxRef (refs (before_collision now rnd w)) in
  let field := wavesRef (refs (before_collision now rnd w)) in
  (misses dt px field + hits_in dt px field <= 1)%nat /\
  ((1 <= misses dt px field)%nat ->
   misses dt px field = 1%nat /\ hits_in dt px field = 0%nat /\
   count_down (pending (tick now rnd w)) = 1%nat /\
   aliveRef (refs (tick now rnd w)) = false /\
   hitsRef (refs (tick now rnd w)) = hitsRef (refs w) /\
   scoreRef (refs (tick now rnd w)) = scoreRef (refs w) /\
   status (ui (step w (Frame now rnd))) = DOWN /\
   forall more, no_restart more ->
                status (ui (run more (step w (Frame now rnd)))) = DOWN).
Proof.
  intros Hw0 Hts. cbv zeta. intros Hlive.
  destruct (run_on_pace es [Frame now rnd] w0 Hts Hw0) as (Hw & Hnow).
  cbn [timestamps_from] in Hnow. destruct Hnow as (Hnow & _).
  exact (live_miss_is_alone now rnd _ Hw Hnow Hlive).
Qed.

End PagePace.

(** ** The further properties on concrete inputs *)

(** The rational host reads back the integers it prints. *)
Lemma rational_host_round_trip (z : Z) :
  @JS_Number rational_host (@JS_String rational_host (inject_Z z)) =
  Fin (inject_Z z).
Proof.
  cbn [JS_Number JS_String rational_host].
  unfold number_of_string, string_of_number.
  rewrite Qfloor_Z, NilZero.isi, DecimalZ.of_to; [reflexivity | |];
    destruct z as [|p|p]; cbn; try discriminate;
    intros E; injection E as E;
    exact (DecimalPos.Unsigned.to_uint_nonnil p E).
Qed.

Lemma clamp_spec_witness :
  0 <= 1 /\
  (0 <= clamp 0.5 0 1 /\ clamp 0.5 0 1 <= 1) /\
  (0 <= 0.5 -> 0.5 <= 1 -> clamp 0.5 0 1 == 0.5) /\
  (0.5 <= 0 -> clamp 0.5 0 1 == 0) /\
  (1 <= 0.5 -> clamp 0.5 0 1 == 1).
Proof.
  assert (H : 0 <= 1) by discriminate.
  split; [exact H|].
  apply (clamp_spec 0.5 0 1 H).
Defined.

Lemma spawn_gap_inside_arena_witness :
  unit_random 0.5 /\
  gapX (spawned 0.5 (initial_refs 0)) == 0.15 + 0.5 * 0.70 /\
  0.02 <= gapLeft (spawned 0.5 (initial_refs 0)) /\
  gapRight (spawned 0.5 (initial_refs 0)) < 0.98.
Proof.
  assert (H : unit_random 0.5) by (split; [discriminate | reflexivity]).
  split; [exact H|].
  apply (spawn_gap_inside_arena 0.5 (initial_refs 0) _ H).
  reflexivity.
Defined.

Lemma spawn_difficulty_monotone_witness :
  (scoreRef (initial_refs 0) <= scoreRef (refs crowded_world))%Z /\
  gapW (spawned 0.5 (refs crowded_world)) <= gapW (spawned 0.5 (initial_refs 0)) /\
  speed (spawned 0.5 (initial_refs 0)) <= speed (spawned 0.5 (refs crowded_world)).
Proof.
  assert (H : (scoreRef (initial_refs 0) <= scoreRef (refs crowded_world))%Z)
    by discriminate.
  split; [exact H|].
  apply (spawn_difficulty_monotone 0.5 0.5 (initial_refs 0) (refs crowded_world)
           _ _ H); reflexivity.
Defined.

Lemma spawn_difficulty_saturates_witness :
  gapW (spawned 0.5 (initial_refs 0)) == 0.26 /\
  speed (spawned 0.5 (initial_refs 0)) == 0.35.
Proof.
  destruct (spawn_difficulty_saturates 0.5 (initial_refs 0)
              (spawned 0.5 (initial_refs 0)) eq_refl) as (H & _).
  apply H. discriminate.
Defined.

Lemma gaps_stay_inside_arena_witness :
  randoms unit_random release_twice /\
  Forall (fun v => 0.02 <= gapLeft v /\ gapRight v < 0.98)
         (wavesRef (refs (run release_twice (boot 0 write_failing_storage)))).
Proof.
  assert (H : randoms unit_random release_twice)
    by (cbn; repeat split; solve [discriminate | reflexivity]).
  split; [exact H|].
  apply (gaps_stay_inside_arena 0 write_failing_storage release_twice H).
Defined.

Lemma down_freezes_the_simulation_witness :
  no_restart frames_and_release /\
  pxRef (refs (run frames_and_release downed_world)) =
    pxRef (refs downed_world) /\
  wavesRef (refs (run frames_and_release downed_world)) =
    wavesRef (refs downed_world) /\
  status (ui (run frames_and_release downed_world)) = DOWN.
Proof.
  assert (H : no_restart frames_and_release) by (cbn; repeat split).
  split; [exact H|].
  destruct (down_freezes_the_simulation downed_world frames_and_release
              eq_refl eq_refl eq_refl H)
    as ((A & _ & _ & B & _) & C & _).
  repeat split; assumption.
Defined.

Lemma frame_outside_live_only_stamps_witness :
  status (ui (run [] (boot 0 write_failing_storage))) <> LIVE /\
  step (run [] (boot 0 write_failing_storage)) (Frame 16 (always 0.5)) =
  upd (set_lastRef 16) (run [] (boot 0 write_failing_storage)).
Proof.
  assert (H : status (ui (run [] (boot 0 write_failing_storage))) <> LIVE)
    by (vm_compute; discriminate).
  split; [exact H|].
  apply (frame_outside_live_only_stamps 0 write_failing_storage [] 16
           (always 0.5) H).
Defined.

Lemma best_covers_score_after_live_tick_witness :
  status (ui crowded_world) = LIVE /\
  bestRef (refs crowded_world) <=
    bestRef (refs (tick 1016 (always 0.5) crowded_world)) /\
  inject_Z (scoreRef (refs (tick 1016 (always 0.5) crowded_world))) <=
    bestRef (refs (tick 1016 (always 0.5) crowded_world)).
Proof.
  split; [reflexivity|].
  apply (best_covers_score_after_live_tick 1016 (always 0.5) crowded_world).
  reflexivity.
Defined.

Lemma field_stays_in_bounds_witness :
  timestamps_from 0 release_twice /\
  Forall (fun v => -0.2 < y v /\ y v <= 1.15)
         (wavesRef (refs (run release_twice (boot 0 write_failing_storage)))).
Proof.
  assert (H : timestamps_from 0 release_twice)
    by (cbn; repeat split; discriminate).
  split; [exact H|].
  apply (field_stays_in_bounds 0 write_failing_storage release_twice H).
Defined.

Lemma field_never_starves_witness :
  status (ui (run [HoldStart 0] (boot 0 write_failing_storage))) = LIVE /\
  exists v,
    In v (wavesRef (refs (step (run [HoldStart 0] (boot 0 write_failing_storage))
                               (Frame 16 (always 0.5))))) /\
    0.61 <= y v.
Proof.
  assert (H : status (ui (run [HoldStart 0] (boot 0 write_failing_storage))) = LIVE)
    by (vm_compute; reflexivity).
  split; [exact H|].
  apply (field_never_starves 0 write_failing_storage [HoldStart 0] 16
           (always 0.5) H).
Defined.

Lemma best_survives_reload_witness :
  get_throws (store hit_world) = false /\
  set_throws (store hit_world) = false /\
  loaded (store hit_world) = bestRef (refs hit_world) /\
  item (store hit_world) = None /\
  item (store (run [Frame 1016 (always 0.5)] hit_world)) = Some "18"%string /\
  bestRef (refs (run [Frame 1016 (always 0.5)] hit_world)) == 18 /\
  bestRef (refs (boot 5 (store (run [Frame 1016 (always 0.5)] hit_world)))) =
  bestRef (refs (run [Frame 1016 (always 0.5)] hit_world)).
Proof.
  split; [reflexivity | split; [reflexivity | split; [reflexivity|]]].
  split; [reflexivity | split; [vm_compute; reflexivity|]].
  split; [vm_compute; reflexivity|].
  apply (best_survives_reload 5 hit_world [Frame 1016 (always 0.5)]
           rational_host_round_trip eq_refl eq_refl eq_refl).
Defined.

Lemma dash_pushes_right_witness :
  0 <= 0.016 /\ 0 <= dashRef (refs charged_world) /\
  dashRef (refs charged_world) <= 2 /\
  velRef (refs charged_world) <= velRef (step_dash 0.016 (refs charged_world)) /\
  dashRef (refs charged_world) - 0.016 * 1.6 <=
    dashRef (step_dash 0.016 (refs charged_world)) /\
  dashRef (step_dash 0.016 (refs charged_world)) <= dashRef (refs charged_world).
Proof.
  assert (A : 0 <= 0.016) by discriminate.
  assert (B : 0 <= dashRef (refs charged_world)) by discriminate.
  assert (C : dashRef (refs charged_world) <= 2) by discriminate.
  split; [exact A | split; [exact B | split; [exact C|]]].
  apply (dash_pushes_right 0.016 (refs charged_world) A B C).
Defined.

Lemma release_grants_dash_witness :
  aliveRef (refs charged_world) = true /\
  dashRef (refs (onHoldEnd charged_world)) ==
    Qmin 1.6 (dashRef (refs charged_world) + 0.35 +
              1.2 * chargeRef (refs charged_world)) /\
  dashRef (refs charged_world) <= dashRef (refs (onHoldEnd charged_world)).
Proof.
  split; [reflexivity|].
  assert (A : 0 <= dashRef (refs charged_world)) by discriminate.
  assert (B : dashRef (refs charged_world) <= 1.6) by discriminate.
  assert (C : 0 <= chargeRef (refs charged_world)) by discriminate.
  assert (D : chargeRef (refs charged_world) <= 1) by discriminate.
  destruct (release_grants_dash charged_world A B C D) as (_ & _ & H & _).
  apply H. reflexivity.
Defined.

Lemma charge_follows_hold_time_witness :
  Forall (fun dt => 0 <= dt) five_ticks /\
  chargeRef (charge_through five_ticks (refs charged_world)) ==
    Qmin 1 (chargeRef (refs charged_world) + 0.85 * total five_ticks).
Proof.
  assert (H : Forall (fun dt => 0 <= dt) five_ticks)
    by (repeat constructor; discriminate).
  split; [exact H|].
  apply (charge_follows_hold_time five_ticks (refs charged_world) H);
    discriminate.
Defined.

Lemma wave_moves_little_witness :
  0.35 <= speed falling_wave /\ speed falling_wave <= 1.15 /\
  y falling_wave - 0.03795 <= y (advance (dt_of 1000 1016) falling_wave) /\
  y (advance (dt_of 1000 1016) falling_wave) <= y falling_wave.
Proof.
  assert (A : 0.35 <= speed falling_wave) by discriminate.
  assert (B : speed falling_wave <= 1.15) by discriminate.
  split; [exact A | split; [exact B|]].
  destruct (wave_moves_little 1000 1016 falling_wave A B) as (H1 & H2).
  split; [exact H1 | apply H2; discriminate].
Defined.

Lemma bars_tile_the_width_witness :
  0 < dims_w phone /\ 0 < gapLeft falling_wave /\ gapRight falling_wave < 1 /\
  exists l r,
    left_bar (wave_view phone falling_wave) = Some l /\
    right_bar (wave_view phone falling_wave) = Some r /\
    rect_left l == 0 /\
    rect_left l + rect_width l == rect_left (gap_hint (wave_view phone falling_wave)) /\
    rect_left r - rect_left (gap_hint (wave_view phone falling_wave)) ==
      gapW falling_wave * dims_w phone /\
    rect_left r + rect_width r == dims_w phone /\
    rect_top l = yPx phone falling_wave /\ rect_top r = yPx phone falling_wave.
Proof.
  assert (A : 0 < dims_w phone) by reflexivity.
  assert (B : 0 < gapLeft falling_wave) by reflexivity.
  assert (C : gapRight falling_wave < 1) by reflexivity.
  split; [exact A | split; [exact B | split; [exact C|]]].
  apply (bars_tile_the_width phone falling_wave A B C).
Defined.

Lemma unmeasured_container_draws_no_bar_witness :
  dims_w unmeasured == 0 /\
  left_bar (wave_view unmeasured falling_wave) = None /\
  right_bar (wave_view unmeasured falling_wave) = None /\
  rect_width (gap_hint (wave_view unmeasured falling_wave)) == 10.
Proof.
  assert (A : dims_w unmeasured == 0) by reflexivity.
  split; [exact A|].
  apply (unmeasured_container_draws_no_bar unmeasured falling_wave A).
Defined.

Lemma waves_are_drawn_top_down_witness :
  180 < dims_h phone /\
  (y falling_wave < y high_wave <->
   yPx phone high_wave < yPx phone falling_wave) /\
  (yPx phone falling_wave == band_top phone <-> y falling_wave == playerY) /\
  (y falling_wave == 1.15 -> yPx phone falling_wave < 160).
Proof.
  assert (A : 180 < dims_h phone) by reflexivity.
  split; [exact A|].
  apply (waves_are_drawn_top_down phone falling_wave high_wave A).
Defined.

(** ** The pace of the waves on concrete inputs *)

(** The concrete worlds of this part are on pace: settled, in range and
    paced, as every world the page reaches is. *)
Lemma miss_world_on_pace : on_pace miss_world.
Proof.
  split; [|split].
  - split; [reflexivity|]. split; [|split].
    + repeat split; try reflexivity.
    + split; intros H; discriminate H.
    + repeat split; try reflexivity; discriminate.
  - repeat split; try discriminate; repeat constructor; discriminate.
  - intros _. right.
    exists [mkWave 1 0.2205 0.8 0.26 0.35], (mkWave 2 0.74 0.3 0.26 0.35).
    split; [reflexivity|]. split; [discriminate|]. split; [discriminate|].
    right. exists [], (mkWave 1 0.2205 0.8 0.26 0.35).
    split; [reflexivity|]. split; [constructor|].
    intros _. repeat split; discriminate.
Qed.

Lemma hit_world_on_pace : on_pace (set_store write_failing_storage hit_world).
Proof.
  split; [|split].
  - split; [reflexivity|]. split; [|split].
    + repeat split; try reflexivity.
    + split; intros H; discriminate H.
    + repeat split; try reflexivity; discriminate.
  - repeat split; try discriminate; repeat constructor; discriminate.
  - intros _. right.
    exists [mkWave 1 0.2205 0.5 0.26 0.35], (mkWave 2 0.74 0.3 0.26 0.35).
    split; [reflexivity|]. split; [discriminate|]. split; [discriminate|].
    right. exists [], (mkWave 1 0.2205 0.5 0.26 0.35).
    split; [reflexivity|]. split; [constructor|].
    intros _. repeat split; discriminate.
Qed.

Lemma after_hit_world_on_pace : on_pace after_hit_world.
Proof.
  split; [|split].
  - split; [reflexivity|]. split; [|split].
    + repeat split; try reflexivity.
    + split; intros H; discriminate H.
    + repeat split; try reflexivity; discriminate.
  - repeat split; try discriminate; repeat constructor; discriminate.
  - intros _. right.
    exists [mkWave 2 0.2205 0.9 0.26 0.35], (mkWave 3 0.74 0.3 0.2492 0.3527).
    split; [reflexivity|]. split; [discriminate|]. split; [discriminate|].
    right. exists [], (mkWave 2 0.2205 0.9 0.26 0.35).
    split; [reflexivity|]. split; [constructor|].
    intros _. repeat split; discriminate.
Qed.

(** A miss on [miss_world]: the older wave crosses with its gap away from
    the player, the newer one is half the arena behind. *)
Lemma one_miss_one_down_witness :
  timestamps_from (lastRef (refs miss_world)) ([] ++ [Frame 1016 (always 0.5)]) /\
  status (ui miss_world) = LIVE /\
  misses (dt_of (lastRef (refs miss_world)) 1016)
         (pxRef (refs (before_collision 1016 (always 0.5) miss_world)))
         (wavesRef (refs (before_collision 1016 (always 0.5) miss_world))) = 1%nat /\
  count_down (pending (tick 1016 (always 0.5) miss_world)) = 1%nat /\
  status (ui (step miss_world (Frame 1016 (always 0.5)))) = DOWN.
Proof.
  assert (Hts : timestamps_from (lastRef (refs miss_world))
                  ([] ++ [Frame 1016 (always 0.5)]))
    by (cbn; split; [discriminate | exact I]).
  assert (Hm : (1 <= misses (dt_of (lastRef (refs miss_world)) 1016)
                  (pxRef (refs (before_collision 1016 (always 0.5) miss_world)))
                  (wavesRef (refs (before_collision 1016 (always 0.5) miss_world))))%nat)
    by (vm_compute; lia).
  destruct (one_miss_one_down miss_world [] 1016 (always 0.5)
              miss_world_on_pace Hts eq_refl) as (_ & H).
  destruct (H Hm) as (A & _ & B & _ & _ & _ & C & _).
  split; [exact Hts|]. split; [reflexivity|].
  split; [exact A|]. split; [exact B | exact C].
Defined.

(** C8.  On a storage whose writes throw, the best of a run is kept in
    memory only until the status changes.  In the frame of the first hit the
    write throws and is swallowed: the storage still holds nothing, the
    score is 18 and the best, in [bestRef] and in [ui], is 18.  Later in
    such a run, in the frame of the first miss, the render that commits DOWN
    runs the effect again and its best load overwrites the 18 with the 0 it
    reads from the storage, where the same frame on a storage that took the
    write keeps 18. *)
Theorem failed_write_is_kept_then_lost :
  let w := set_store write_failing_storage hit_world in
  let w1 := step w (Frame 1016 (always 0.5)) in
  let w2 := step after_hit_world (Frame 2755 (always 0.5)) in
  (set_throws (store w) = true /\ bestRef (refs w) == 0 /\
   scoreRef (refs w1) = 18%Z /\ bestRef (refs w1) == 18 /\
   best (ui w1) == 18 /\ item (store w1) = None /\ status (ui w1) = LIVE) /\
  (store after_hit_world = store w1 /\
   scoreRef (refs after_hit_world) = 18%Z /\
   bestRef (refs after_hit_world) == 18 /\
   status (ui w2) = DOWN /\ scoreRef (refs w2) = 18%Z /\
   bestRef (refs w2) == 0 /\ best (ui w2) == 0) /\
  bestRef (refs (step (set_store (mkStorage (Some "18"%string) false false)
                                 after_hit_world)
                      (Frame 2755 (always 0.5)))) == 18.
Proof. vm_compute. repeat split. Qed.
